(** * goodreads-cli: extraction pipelines of [lookup.js] and the search script

    A shallow embedding of the two HTML-to-record pipelines:

    - the detail pipeline [parseBookDetails] of [src/lookup.js];
    - the search pipeline [parseSearchResults] of the search script (the
      [goodreads-search] command);
    - [buildSearchUrl] of the search script, with the form encoding of
      [URLSearchParams];
    - the browser sessions [lookupBook] and [searchBook] and the main
      execution of both scripts, as programs over the operations they ask
      of the browser.

    The input of both pipelines is the tree that [cheerio.load] hands back;
    the HTML tokenizer itself is a library and is not modelled.  JavaScript
    strings are sequences of UTF-16 code units, JavaScript values that a
    field can hold are [undefined], [null] or a string, and a method call on
    [undefined] raises a [TypeError], which is modelled by the [completion]
    monad. *)

From Stdlib Require Import String Ascii List NArith Bool Arith Lia Sorted.
Import ListNotations.

Set Implicit Arguments.
Set Warnings "-register-all".
Open Scope string_scope.
Open Scope list_scope.

(* ================================================================== *)
(** * JavaScript strings and values *)
(* ================================================================== *)

Module JS.

(** A UTF-16 code unit. *)
Definition char := N.

(** A JavaScript string: a finite sequence of code units. *)
Definition jsstring := list char.

(** String literals of the source, all ASCII but for the em dash. *)
Definition lit (s : string) : jsstring :=
  List.map N_of_ascii (list_ascii_of_string s).

(** U+2014, the em dash of the search script's ratings pattern. *)
Definition em_dash : char := 8212%N.

Fixpoint str_eqb (a b : jsstring) : bool :=
  match a, b with
  | [], [] => true
  | x :: a', y :: b' => N.eqb x y && str_eqb a' b'
  | _, _ => false
  end.

(** The values a record field or an intermediate expression can hold. *)
Inductive value : Type :=
| Undefined
| Null
| Str (s : jsstring).

(** [ToString] on the values above, as used by [+] with a string operand. *)
Definition to_string (v : value) : jsstring :=
  match v with
  | Undefined => lit "undefined"
  | Null => lit "null"
  | Str s => s
  end.

(** [s + v] with [s] a string. *)
Definition concat (s : jsstring) (v : value) : jsstring := s ++ to_string v.

(** [ToBoolean]: [undefined], [null] and the empty string are falsy. *)
Definition truthy (v : value) : bool :=
  match v with
  | Undefined | Null | Str [] => false
  | Str (_ :: _) => true
  end.

(** [v || null]. *)
Definition or_null (v : value) : value := if truthy v then v else Null.

(** Completion of an evaluation: a value, or a thrown [TypeError]. *)
Inductive completion (A : Type) : Type :=
| Normal (a : A)
| Throw.
Arguments Throw {A}.

Definition bind {A B} (c : completion A) (f : A -> completion B) : completion B :=
  match c with
  | Normal a => f a
  | Throw => Throw
  end.

(** The receiver of a method call such as [v.replace(...)] or [v.trim()]:
    a string, or a [TypeError] for [undefined] and [null]. *)
Definition receiver (v : value) : completion jsstring :=
  match v with
  | Str s => Normal s
  | _ => Throw
  end.

(** [WhiteSpace] and [LineTerminator] code units: what [\s] matches and what
    [String.prototype.trim] strips. *)
Definition is_space (c : char) : bool :=
  existsb (N.eqb c)
    [9; 10; 11; 12; 13; 32; 160; 5760; 8232; 8233; 8239; 8287; 12288; 65279]%N
  || (N.leb 8192 c && N.leb c 8202).

Definition is_digit (c : char) : bool := N.leb 48 c && N.leb c 57.

(** Line terminators, which [.] does not match. *)
Definition is_line_terminator (c : char) : bool :=
  existsb (N.eqb c) [10; 13; 8232; 8233]%N.

Fixpoint trimStart (s : jsstring) : jsstring :=
  match s with
  | [] => []
  | c :: t => if is_space c then trimStart t else s
  end.

Definition trimEnd (s : jsstring) : jsstring := rev (trimStart (rev s)).

(** [s.trim()]. *)
Definition trim (s : jsstring) : jsstring := trimEnd (trimStart s).

(** [s.split(sep)] for a one-unit separator: always at least one piece. *)
Fixpoint split (sep : char) (s : jsstring) : list jsstring :=
  match s with
  | [] => [[]]
  | c :: t =>
      if N.eqb c sep then [] :: split sep t
      else match split sep t with
           | h :: r => (c :: h) :: r
           | [] => [[c]]
           end
  end.

(** [s.toLowerCase()] on the ASCII letters.  The labels the source compares
    the result with ([format], [published], [isbn], [asin], [language]) hold
    no [k], the one ASCII letter that a code unit outside ASCII lowers to. *)
Definition lower (c : char) : char :=
  if N.leb 65 c && N.leb c 90 then (c + 32)%N else c.

Definition toLowerCase (s : jsstring) : jsstring := List.map lower s.

(** An insertion-ordered [Set] of strings ([SameValueZero] on strings is
    equality of code units): [add] keeps the position of the first
    insertion. *)
Definition set_has (s : list jsstring) (x : jsstring) : bool :=
  existsb (str_eqb x) s.

Definition set_add (s : list jsstring) (x : jsstring) : list jsstring :=
  if set_has s x then s else s ++ [x].

(** [[...new Set(xs)]]. *)
Definition spread_new_Set (xs : list jsstring) : list jsstring :=
  fold_left set_add xs [].

End JS.

Import JS.

Notation "x <- c ;; k" := (bind c (fun x => k))
  (at level 61, c at next level, right associativity).

(* ================================================================== *)
(** * Regular expressions: a backtracking matcher *)
(* ================================================================== *)

Module Regex.

(** The fragment of the pattern language the source uses.  [Group] is the
    capturing group number 1 (no pattern of the source has a second one);
    [(?: )] needs no constructor. *)
Inductive regex : Type :=
| Eps
| Chr (c : char)
| Class (p : char -> bool)
| Bol
| Seq (r1 r2 : regex)
| Star (r : regex)
| Group (r : regex).

(** [r+], [r{n}] and a literal run of characters. *)
Definition Plus (r : regex) : regex := Seq r (Star r).

Fixpoint Rep (n : nat) (r : regex) : regex :=
  match n with
  | 0 => Eps
  | S n' => Seq r (Rep n' r)
  end.

Fixpoint Lit (s : jsstring) : regex :=
  match s with
  | [] => Eps
  | c :: t => Seq (Chr c) (Lit t)
  end.

Definition digit : regex := Class is_digit.
Definition space : regex := Class is_space.

(** The matcher's state: the index in the subject, what is left of it from
    that index on, and the capture of group 1. *)
Record mstate : Type := MState {
  ms_pos : nat;
  ms_rest : jsstring;
  ms_cap : value
}.

Definition advance (st : mstate) (t : jsstring) : mstate :=
  MState (S (ms_pos st)) t (ms_cap st).

(** The loop of a greedy [*]: one more iteration of [body] if it consumes
    something and the rest of the pattern then matches, else the rest of the
    pattern from here.  An iteration that consumes nothing is rejected, as
    in the language's RepeatMatcher. *)
Fixpoint star_loop (body : mstate -> (mstate -> option mstate) -> option mstate)
  (k : mstate -> option mstate) (fuel : nat) (st0 : mstate) {struct fuel}
  : option mstate :=
  match fuel with
  | 0 => k st0
  | S fuel' =>
      match body st0
              (fun st1 => if Nat.ltb (ms_pos st0) (ms_pos st1)
                          then star_loop body k fuel' st1 else None) with
      | Some res => Some res
      | None => k st0
      end
  end.

(** Backtracking matcher in continuation-passing style: [run r st k] tries
    the ways [r] can match from [st], the greedy ones first, and answers
    with the first one after which the rest of the pattern, [k], succeeds.
    The fuel of the [Star] loop is one more than the code units left, and
    every accepted iteration consumes one: it never stops the loop (more
    fuel changes nothing, [run_Star_any_fuel] below). *)
Fixpoint run (r : regex) (st : mstate) (k : mstate -> option mstate)
  {struct r} : option mstate :=
  match r with
  | Eps => k st
  | Chr c =>
      match ms_rest st with
      | x :: t => if N.eqb x c then k (advance st t) else None
      | [] => None
      end
  | Class p =>
      match ms_rest st with
      | x :: t => if p x then k (advance st t) else None
      | [] => None
      end
  | Bol => if Nat.eqb (ms_pos st) 0 then k st else None
  | Seq r1 r2 => run r1 st (fun st1 => run r2 st1 k)
  | Star r' => star_loop (run r') k (S (length (ms_rest st))) st
  | Group r' =>
      run r' st
        (fun st1 =>
           k (MState (ms_pos st1) (ms_rest st1)
                (Str (firstn (ms_pos st1 - ms_pos st) (ms_rest st)))))
  end.

(** The array [s.match(re)] returns for a pattern without the [g] flag:
    the index of the match, element 0 and element 1. *)
Record MatchResult : Type := MkMatch {
  m_index : nat;
  m_whole : jsstring;
  m_group1 : value
}.

(** The leftmost start index at which the pattern matches. *)
Fixpoint search (r : regex) (pos : nat) (rest : jsstring) : option MatchResult :=
  match run r (MState pos rest Undefined) Some with
  | Some st => Some (MkMatch pos (firstn (ms_pos st - pos) rest) (ms_cap st))
  | None =>
      match rest with
      | [] => None
      | _ :: t => search r (S pos) t
      end
  end.

(** [s.match(re)]: [None] is the [null] of a failed match. *)
Definition js_match (r : regex) (s : jsstring) : option MatchResult :=
  search r 0 s.

(** [s.replace(re, repl)] for a pattern with the [g] flag and a replacement
    without [$] patterns.  [skip] counts the code units of the current match
    still to drop; an empty match copies one code unit and moves on. *)
Fixpoint replace_from (r : regex) (repl : jsstring) (pos : nat)
  (rest : jsstring) (skip : nat) {struct rest} : jsstring :=
  match skip with
  | S skip' =>
      match rest with
      | [] => []
      | _ :: t => replace_from r repl (S pos) t skip'
      end
  | 0 =>
      match run r (MState pos rest Undefined) Some with
      | Some st =>
          match ms_pos st - pos with
          | 0 =>
              repl ++ match rest with
                      | [] => []
                      | c :: t => c :: replace_from r repl (S pos) t 0
                      end
          | S n =>
              repl ++ match rest with
                      | [] => []
                      | _ :: t => replace_from r repl (S pos) t n
                      end
          end
      | None =>
          match rest with
          | [] => []
          | c :: t => c :: replace_from r repl (S pos) t 0
          end
      end
  end.

Definition replace_all (r : regex) (repl s : jsstring) : jsstring :=
  replace_from r repl 0 s 0.

End Regex.

Import Regex.

(* ================================================================== *)
(** * The document tree and the cheerio queries the source uses *)
(* ================================================================== *)

Module Cheerio.

(** A parsed document: text nodes and elements with their attributes, as
    [cheerio.load] builds them (tag and attribute names already lower-cased,
    character references already decoded, comments dropped, the document in
    no-quirks mode so that class names compare exactly). *)
Inductive node : Type :=
| Text (data : jsstring)
| Element (name : jsstring) (attribs : list (jsstring * jsstring))
    (children : list node).

(** The children of the document root. *)
Definition document := list node.

(** Nodes have identity: the path of child indices from the root. *)
Record header : Type := Header {
  h_path : list nat;
  h_name : jsstring;
  h_attribs : list (jsstring * jsstring)
}.

(** An element as a query returns it: itself, its ancestors from the parent
    up to the root, and its children. *)
Record elem : Type := Elem {
  e_hdr : header;
  e_anc : list header;
  e_children : list node
}.

(** A cheerio object: elements in document order. *)
Definition selection := list elem.

Fixpoint elements_of (anc : list header) (path : list nat) (n : node)
  : list elem :=
  match n with
  | Text _ => []
  | Element name attrs ch =>
      let h := Header path name attrs in
      Elem h anc ch ::
        (fix go (i : nat) (l : list node) {struct l} : list elem :=
           match l with
           | [] => []
           | c :: t => elements_of (h :: anc) (path ++ [i]) c ++ go (S i) t
           end) 0 ch
  end.

(** The elements among [l] and below, in document order (pre-order). *)
Fixpoint elements_in (anc : list header) (path : list nat) (i : nat)
  (l : list node) : list elem :=
  match l with
  | [] => []
  | c :: t => elements_of anc (path ++ [i]) c ++ elements_in anc path (S i) t
  end.

Definition elements (d : document) : list elem := elements_in [] [] 0 d.

(** The strict descendants of an element. *)
Definition descendants (e : elem) : list elem :=
  elements_in (e_hdr e :: e_anc e) (h_path (e_hdr e)) 0 (e_children e).

(** [textContent]: the text nodes below a node, concatenated. *)
Fixpoint textContent (n : node) : jsstring :=
  match n with
  | Text d => d
  | Element _ _ ch => flat_map textContent ch
  end.

(** ** Selectors *)

(** A compound selector: an optional tag name, class names and attribute
    equalities, all of which must hold of one element. *)
Record compound : Type := Compound {
  c_tag : option jsstring;
  c_classes : list jsstring;
  c_attrs : list (jsstring * jsstring)
}.

(** Compound selectors joined by the descendant combinator, outermost first. *)
Definition selector := list compound.

Fixpoint get_attrib (name : jsstring) (attrs : list (jsstring * jsstring))
  : value :=
  match attrs with
  | [] => Undefined
  | (n, v) :: t => if str_eqb n name then Str v else get_attrib name t
  end.

(** The whitespace-separated tokens of an attribute value. *)
Fixpoint tokens_from (cur : jsstring) (s : jsstring) : list jsstring :=
  match s with
  | [] => match cur with [] => [] | _ => [rev cur] end
  | c :: t =>
      if is_space c
      then match cur with
           | [] => tokens_from [] t
           | _ => rev cur :: tokens_from [] t
           end
      else tokens_from (c :: cur) t
  end.

Definition class_list (h : header) : list jsstring :=
  match get_attrib (lit "class") (h_attribs h) with
  | Str v => tokens_from [] v
  | _ => []
  end.

Definition compound_match (c : compound) (h : header) : bool :=
  match c_tag c with
  | Some t => str_eqb t (h_name h)
  | None => true
  end
  && forallb (fun cl => existsb (str_eqb cl) (class_list h)) (c_classes c)
  && forallb (fun av =>
                match get_attrib (fst av) (h_attribs h) with
                | Str v => str_eqb v (snd av)
                | _ => false
                end) (c_attrs c).

(** Match the remaining compounds (innermost first) on ever higher
    ancestors, each on the nearest ancestor that fits.  [at_top] is the
    element the last compound matched and [anc] what is above it; the
    result is the element the outermost compound matched, followed by its
    ancestors. *)
Fixpoint climb (cs : list compound) (at_top : header) (anc : list header)
  {struct cs} : option (list header) :=
  match cs with
  | [] => Some (at_top :: anc)
  | c :: cs' =>
      (fix nearest (up : list header) {struct up} : option (list header) :=
         match up with
         | [] => None
         | h :: up' =>
             if compound_match c h then climb cs' h up' else nearest up'
         end) anc
  end.

Definition sel_match (sel : selector) (e : elem) : option (list header) :=
  match rev sel with
  | [] => None
  | c :: cs =>
      if compound_match c (e_hdr e) then climb cs (e_hdr e) (e_anc e)
      else None
  end.

Definition path_eqb (p q : list nat) : bool :=
  Nat.eqb (length p) (length q)
  && forallb (fun xy => Nat.eqb (fst xy) (snd xy)) (combine p q).

Definition same_node (h : header) (e : elem) : bool :=
  path_eqb (h_path h) (h_path (e_hdr e)).

(** ** Queries *)

(** [$(sel)]: every element of the document that matches, in document order. *)
Definition select (d : document) (sel : selector) : selection :=
  filter (fun e => match sel_match sel e with Some _ => true | None => false end)
    (elements d).

(** The elements of a selection that lie inside no other element of it. *)
Definition outermost (ctx : selection) : selection :=
  filter (fun e => negb (existsb (fun h => existsb (same_node h) ctx) (e_anc e)))
    ctx.

(** [ctx.find(sel)]: the strict descendants of the selection that match
    [sel], each once, in document order.  The selector is scoped to the
    selection, and loosely so: the element that the outermost compound
    matches is an element of the selection or lies below one.  (The
    candidates are the descendants; only for a selector of several
    compounds can the outermost one fall on an element of the selection
    itself.) *)
Definition find (ctx : selection) (sel : selector) : selection :=
  flat_map
    (fun root =>
       filter (fun e =>
                 match sel_match sel e with
                 | Some top => existsb (fun h => existsb (same_node h) ctx) top
                 | None => false
                 end)
         (descendants root))
    (outermost ctx).

(** [sel.first()]. *)
Definition first (s : selection) : selection := firstn 1 s.

(** [sel.text()]: the text content of every element of the selection. *)
Definition text (s : selection) : jsstring :=
  flat_map (fun e => flat_map textContent (e_children e)) s.

(** [sel.attr(name)]: the attribute of the first element, [undefined] when
    the selection is empty or the attribute is missing. *)
Definition attr (s : selection) (name : jsstring) : value :=
  match s with
  | [] => Undefined
  | e :: _ => get_attrib name (h_attribs (e_hdr e))
  end.

(** [$(el)] for an element handed to an [each] or [filter] callback. *)
Definition wrap (e : elem) : selection := [e].

(** Shorthands for the selectors of the source. *)
Definition by_class (c : string) : compound := Compound None [lit c] [].
Definition by_classes (cs : list string) : compound :=
  Compound None (List.map lit cs) [].
Definition by_tag (t : string) : compound := Compound (Some (lit t)) [] [].
Definition tag_class (t c : string) : compound :=
  Compound (Some (lit t)) [lit c] [].
Definition tag_attr (t a v : string) : compound :=
  Compound (Some (lit t)) [] [(lit a, lit v)].

(** Building test documents. *)
Definition el (name : string) (attrs : list (string * string))
  (children : list node) : node :=
  Element (lit name) (List.map (fun av => (lit (fst av), lit (snd av))) attrs)
    children.
Definition txt (s : string) : node := Text (lit s).

End Cheerio.

Import Cheerio.

(* ================================================================== *)
(** * The detail pipeline: [lookup.js] *)
(* ================================================================== *)

Module Lookup.

Record EditionDetails : Type := MkEdition {
  format : value;
  published : value;
  isbn13 : value;
  isbn10 : value;
  asin : value;
  language : value
}.

Record BookDetails : Type := MkBook {
  title : value;
  series : value;
  authors : list jsstring;
  rating : value;
  numberOfRatings : value;
  numberOfReviews : value;
  genres : list jsstring;
  settings : list jsstring;
  numberOfPages : value;
  firstPublished : value;
  description : value;
  coverImage : value;
  editionDetails : EditionDetails
}.

(** Assignments to one property of the accumulator. *)
Definition set_title v b := MkBook v (series b) (authors b) (rating b)
  (numberOfRatings b) (numberOfReviews b) (genres b) (settings b)
  (numberOfPages b) (firstPublished b) (description b) (coverImage b)
  (editionDetails b).
Definition set_series v b := MkBook (title b) v (authors b) (rating b)
  (numberOfRatings b) (numberOfReviews b) (genres b) (settings b)
  (numberOfPages b) (firstPublished b) (description b) (coverImage b)
  (editionDetails b).
Definition set_authors v b := MkBook (title b) (series b) v (rating b)
  (numberOfRatings b) (numberOfReviews b) (genres b) (settings b)
  (numberOfPages b) (firstPublished b) (description b) (coverImage b)
  (editionDetails b).
Definition set_rating v b := MkBook (title b) (series b) (authors b) v
  (numberOfRatings b) (numberOfReviews b) (genres b) (settings b)
  (numberOfPages b) (firstPublished b) (description b) (coverImage b)
  (editionDetails b).
Definition set_numberOfRatings v b := MkBook (title b) (series b) (authors b)
  (rating b) v (numberOfReviews b) (genres b) (settings b)
  (numberOfPages b) (firstPublished b) (description b) (coverImage b)
  (editionDetails b).
Definition set_numberOfReviews v b := MkBook (title b) (series b) (authors b)
  (rating b) (numberOfRatings b) v (genres b) (settings b)
  (numberOfPages b) (firstPublished b) (description b) (coverImage b)
  (editionDetails b).
Definition set_genres v b := MkBook (title b) (series b) (authors b)
  (rating b) (numberOfRatings b) (numberOfReviews b) v (settings b)
  (numberOfPages b) (firstPublished b) (description b) (coverImage b)
  (editionDetails b).
Definition set_settings v b := MkBook (title b) (series b) (authors b)
  (rating b) (numberOfRatings b) (numberOfReviews b) (genres b) v
  (numberOfPages b) (firstPublished b) (description b) (coverImage b)
  (editionDetails b).
Definition set_numberOfPages v b := MkBook (title b) (series b) (authors b)
  (rating b) (numberOfRatings b) (numberOfReviews b) (genres b) (settings b)
  v (firstPublished b) (description b) (coverImage b) (editionDetails b).
Definition set_firstPublished v b := MkBook (title b) (series b) (authors b)
  (rating b) (numberOfRatings b) (numberOfReviews b) (genres b) (settings b)
  (numberOfPages b) v (description b) (coverImage b) (editionDetails b).
Definition set_description v b := MkBook (title b) (series b) (authors b)
  (rating b) (numberOfRatings b) (numberOfReviews b) (genres b) (settings b)
  (numberOfPages b) (firstPublished b) v (coverImage b) (editionDetails b).
Definition set_coverImage v b := MkBook (title b) (series b) (authors b)
  (rating b) (numberOfRatings b) (numberOfReviews b) (genres b) (settings b)
  (numberOfPages b) (firstPublished b) (description b) v (editionDetails b).
Definition set_editionDetails v b := MkBook (title b) (series b) (authors b)
  (rating b) (numberOfRatings b) (numberOfReviews b) (genres b) (settings b)
  (numberOfPages b) (firstPublished b) (description b) (coverImage b) v.

Definition set_format v e := MkEdition v (published e) (isbn13 e) (isbn10 e)
  (asin e) (language e).
Definition set_published v e := MkEdition (format e) v (isbn13 e) (isbn10 e)
  (asin e) (language e).
Definition set_isbn13 v e := MkEdition (format e) (published e) v (isbn10 e)
  (asin e) (language e).
Definition set_isbn10 v e := MkEdition (format e) (published e) (isbn13 e) v
  (asin e) (language e).
Definition set_asin v e := MkEdition (format e) (published e) (isbn13 e)
  (isbn10 e) v (language e).
Definition set_language v e := MkEdition (format e) (published e) (isbn13 e)
  (isbn10 e) (asin e) v.

Definition initializeBookDetailsObject : BookDetails :=
  MkBook Null Null [] Null Null Null [] [] Null Null Null Null
    (MkEdition Null Null Null Null Null Null).

(** ** Selectors *)

(** [.BookPageTitleSection__title] *)
Definition sel_titleSection : selector := [by_class "BookPageTitleSection__title"].
(** [h3.Text__italic a] *)
Definition sel_series : selector := [tag_class "h3" "Text__italic"; by_tag "a"].
(** [h1[data-testid="bookTitle"]] *)
Definition sel_bookTitle : selector := [tag_attr "h1" "data-testid" "bookTitle"].
(** [.ContributorLinksList .ContributorLink__name] *)
Definition sel_contributors : selector :=
  [by_class "ContributorLinksList"; by_class "ContributorLink__name"].
(** [.RatingStatistics__rating] and [.RatingStatistics__meta] *)
Definition sel_rating : selector := [by_class "RatingStatistics__rating"].
Definition sel_meta : selector := [by_class "RatingStatistics__meta"].
(** [.BookPageMetadataSection__genres .Button__labelItem] *)
Definition sel_genres : selector :=
  [by_class "BookPageMetadataSection__genres"; by_class "Button__labelItem"].
(** [p[data-testid="pagesFormat"]] and [p[data-testid="publicationInfo"]] *)
Definition sel_pagesFormat : selector := [tag_attr "p" "data-testid" "pagesFormat"].
Definition sel_publicationInfo : selector :=
  [tag_attr "p" "data-testid" "publicationInfo"].
(** [.BookPageMetadataSection__description] and [.TruncatedContent__text] *)
Definition sel_description : selector :=
  [by_class "BookPageMetadataSection__description"].
Definition sel_truncated : selector := [by_class "TruncatedContent__text"].
(** [.BookCover__image img.ResponsiveImage] *)
Definition sel_cover : selector :=
  [by_class "BookCover__image"; tag_class "img" "ResponsiveImage"].
(** [.DescListItem], [dt], [dd] and [.WorkDetails .DescListItem] *)
Definition sel_descListItem : selector := [by_class "DescListItem"].
Definition sel_dt : selector := [by_tag "dt"].
Definition sel_dd : selector := [by_tag "dd"].
Definition sel_workDetailsItem : selector :=
  [by_class "WorkDetails"; by_class "DescListItem"].

(** ** Patterns *)

Definition comma : char := 44%N.

(** The capturing group of the two count patterns, [\d+(?:,\d+)*] between
    parentheses: a count with thousands separators. *)
Definition re_count : regex :=
  Group (Seq (Plus digit) (Star (Seq (Chr comma) (Plus digit)))).
(** That group, then [\s+ratings]. *)
Definition re_ratings : regex :=
  Seq re_count (Seq (Plus space) (Lit (lit "ratings"))).
(** That group, then [\s+reviews]. *)
Definition re_reviews : regex :=
  Seq re_count (Seq (Plus space) (Lit (lit "reviews"))).
(** [/,/g] *)
Definition re_comma : regex := Chr comma.
(** [/(\d+)\s*pages/] *)
Definition re_pages : regex :=
  Seq (Group (Plus digit)) (Seq (Star space) (Lit (lit "pages"))).
(** [/First published\s+(.+)/] *)
Definition re_firstPublished : regex :=
  Seq (Lit (lit "First published"))
    (Seq (Plus space)
       (Group (Plus (Class (fun c => negb (is_line_terminator c)))))).
(** [/^(\d{13})/] *)
Definition re_isbn13 : regex := Seq Bol (Group (Rep 13 digit)).
(** [/ISBN10:\s*(\d{10})/] *)
Definition re_isbn10 : regex :=
  Seq (Lit (lit "ISBN10:")) (Seq (Star space) (Group (Rep 10 digit))).
(** [/\([^)]*\)/g] *)
Definition re_parenthetical : regex :=
  Seq (Chr 40%N)
    (Seq (Star (Class (fun c => negb (N.eqb c 41%N)))) (Chr 41%N)).
(** [/\s+/g] *)
Definition re_spaces : regex := Plus space.

(** ** Extractors *)

Definition parseTitleAndSeries (d : document) (bookDetails : BookDetails)
  : completion BookDetails :=
  let titleSection := select d sel_titleSection in
  let seriesElement := find titleSection sel_series in
  match seriesElement with
  | _ :: _ =>
      let bookDetails := set_series (Str (trim (text seriesElement))) bookDetails in
      Normal (set_title (Str (trim (text (find titleSection sel_bookTitle))))
                bookDetails)
  | [] => Normal (set_title (Str (trim (text titleSection))) bookDetails)
  end.

Definition parseAuthors (d : document) (bookDetails : BookDetails)
  : completion BookDetails :=
  Normal
    (fold_left
       (fun bookDetails el =>
          let authorName :=
            trim (replace_all re_spaces (lit " ") (text (wrap el))) in
          set_authors (authors bookDetails ++ [authorName]) bookDetails)
       (select d sel_contributors) bookDetails).

(** [m ? m[1].replace(/,/g, '') : null] *)
Definition count_of (m : option MatchResult) : completion value :=
  match m with
  | Some arr =>
      g <- receiver (m_group1 arr) ;;
      Normal (Str (replace_all re_comma [] g))
  | None => Normal Null
  end.

Definition parseRatings (d : document) (bookDetails : BookDetails)
  : completion BookDetails :=
  let bookDetails :=
    set_rating (or_null (Str (trim (text (first (select d sel_rating))))))
      bookDetails in
  let ratingsAndReviews := trim (text (first (select d sel_meta))) in
  let ratingsMatch := js_match re_ratings ratingsAndReviews in
  let reviewsMatch := js_match re_reviews ratingsAndReviews in
  nr <- count_of ratingsMatch ;;
  let bookDetails := set_numberOfRatings nr bookDetails in
  nv <- count_of reviewsMatch ;;
  Normal (set_numberOfReviews nv bookDetails).

Definition parseGenres (d : document) (bookDetails : BookDetails)
  : completion BookDetails :=
  Normal
    (fold_left
       (fun bookDetails el =>
          let genreName := trim (text (wrap el)) in
          if negb (str_eqb genreName (lit "...show all"))
          then set_genres (genres bookDetails ++ [genreName]) bookDetails
          else bookDetails)
       (select d sel_genres) bookDetails).

Definition parseBasicDetails (d : document) (bookDetails : BookDetails)
  : completion BookDetails :=
  let pagesFormat := trim (text (select d sel_pagesFormat)) in
  let pagesMatch := js_match re_pages pagesFormat in
  let bookDetails :=
    match pagesMatch with
    | Some arr => set_numberOfPages (m_group1 arr) bookDetails
    | None => bookDetails
    end in
  let publicationInfo := trim (text (select d sel_publicationInfo)) in
  let publishedMatch := js_match re_firstPublished publicationInfo in
  match publishedMatch with
  | Some arr =>
      g <- receiver (m_group1 arr) ;;
      Normal (set_firstPublished (Str (trim g)) bookDetails)
  | None => Normal bookDetails
  end.

Definition parseDescription (d : document) (bookDetails : BookDetails)
  : completion BookDetails :=
  let descriptionDiv := select d sel_description in
  match descriptionDiv with
  | _ :: _ =>
      let description :=
        trim (text (first (find descriptionDiv sel_truncated))) in
      Normal (set_description (or_null (Str description)) bookDetails)
  | [] => Normal bookDetails
  end.

Definition parseCoverImage (d : document) (bookDetails : BookDetails)
  : completion BookDetails :=
  let coverImage := attr (select d sel_cover) (lit "src") in
  Normal (set_coverImage (or_null coverImage) bookDetails).

(** The body of the [each] callback of [parseEditionDetails], on the
    nested [editionDetails] record. *)
Definition editionItem (label val : jsstring) (ed : EditionDetails)
  : EditionDetails :=
  if str_eqb label (lit "format") then set_format (Str val) ed
  else if str_eqb label (lit "published") then set_published (Str val) ed
  else if str_eqb label (lit "isbn") then
    let isbn13Match := js_match re_isbn13 val in
    let isbn10Match := js_match re_isbn10 val in
    let ed := match isbn13Match with
              | Some arr => set_isbn13 (m_group1 arr) ed
              | None => ed
              end in
    match isbn10Match with
    | Some arr => set_isbn10 (m_group1 arr) ed
    | None => ed
    end
  else if str_eqb label (lit "asin") then set_asin (Str (trim val)) ed
  else if str_eqb label (lit "language") then set_language (Str val) ed
  else ed.

Definition parseEditionDetails (d : document) (bookDetails : BookDetails)
  : completion BookDetails :=
  Normal
    (fold_left
       (fun bookDetails el =>
          let label := toLowerCase (trim (text (find (wrap el) sel_dt))) in
          let val := trim (text (find (wrap el) sel_dd)) in
          set_editionDetails (editionItem label val (editionDetails bookDetails))
            bookDetails)
       (select d sel_descListItem) bookDetails).

(** The callback of the [map] in [parseSettings]. *)
Definition cleanSetting (setting : jsstring) : jsstring :=
  trim (replace_all re_spaces (lit " ")
          (replace_all re_parenthetical [] setting)).

Definition parseSettings (d : document) (bookDetails : BookDetails)
  : completion BookDetails :=
  let settingsContainer :=
    filter (fun el => str_eqb (trim (text (find (wrap el) sel_dt))) (lit "Setting"))
      (select d sel_workDetailsItem) in
  match settingsContainer with
  | _ :: _ =>
      let settingsText := trim (text (find settingsContainer sel_truncated)) in
      let settings :=
        spread_new_Set (List.map cleanSetting (split comma settingsText)) in
      Normal (set_settings settings bookDetails)
  | [] => Normal bookDetails
  end.

(** [parseBookDetails], on the tree [cheerio.load(html)] returns. *)
Definition parseBookDetails (d : document) : completion BookDetails :=
  let bookDetails := initializeBookDetailsObject in
  bookDetails <- parseTitleAndSeries d bookDetails ;;
  bookDetails <- parseAuthors d bookDetails ;;
  bookDetails <- parseRatings d bookDetails ;;
  bookDetails <- parseGenres d bookDetails ;;
  bookDetails <- parseBasicDetails d bookDetails ;;
  bookDetails <- parseDescription d bookDetails ;;
  bookDetails <- parseCoverImage d bookDetails ;;
  bookDetails <- parseEditionDetails d bookDetails ;;
  bookDetails <- parseSettings d bookDetails ;;
  Normal bookDetails.

End Lookup.

(* ================================================================== *)
(** * The second copy of the detail pipeline in [lookup.js] *)
(* ================================================================== *)

(** [lookup.js] holds a second copy of the detail pipeline (from its line
    321 on).  Its accumulator has no [settings], [description] and
    [coverImage] properties and it runs no extractor for them; here those
    three fields keep their initial value.  Its [parseTitleAndSeries],
    [parseRatings], [parseBasicDetails] and [parseEditionDetails] are the
    ones above, letter for letter; [parseAuthors] and [parseGenres] differ. *)
Module LookupCopy.

Import Lookup.

Definition parseAuthors (d : document) (bookDetails : BookDetails)
  : completion BookDetails :=
  Normal
    (fold_left
       (fun bookDetails el =>
          set_authors (authors bookDetails ++ [trim (text (wrap el))])
            bookDetails)
       (select d sel_contributors) bookDetails).

Definition parseGenres (d : document) (bookDetails : BookDetails)
  : completion BookDetails :=
  Normal
    (fold_left
       (fun bookDetails el =>
          let genreName := trim (text (wrap el)) in
          if negb (str_eqb genreName (lit "...more"))
             && negb (str_eqb genreName (lit "...show all"))
          then set_genres (genres bookDetails ++ [genreName]) bookDetails
          else bookDetails)
       (select d sel_genres) bookDetails).

Definition parseBookDetails (d : document) : completion BookDetails :=
  let bookDetails := initializeBookDetailsObject in
  bookDetails <- parseTitleAndSeries d bookDetails ;;
  bookDetails <- parseAuthors d bookDetails ;;
  bookDetails <- parseRatings d bookDetails ;;
  bookDetails <- parseGenres d bookDetails ;;
  bookDetails <- parseBasicDetails d bookDetails ;;
  bookDetails <- parseEditionDetails d bookDetails ;;
  Normal bookDetails.

End LookupCopy.

(* ================================================================== *)
(** * The search pipeline *)
(* ================================================================== *)

Module Search.

Record Book : Type := MkBook {
  title : value;
  authors : list jsstring;
  detailsUrl : value;
  goodreadsId : value;
  publishedYear : value;
  averageRating : value;
  numberOfRatings : value
}.

Definition set_authors v b := MkBook (title b) v (detailsUrl b)
  (goodreadsId b) (publishedYear b) (averageRating b) (numberOfRatings b).
Definition set_publishedYear v b := MkBook (title b) (authors b)
  (detailsUrl b) (goodreadsId b) v (averageRating b) (numberOfRatings b).
Definition set_averageRating v b := MkBook (title b) (authors b)
  (detailsUrl b) (goodreadsId b) (publishedYear b) v (numberOfRatings b).
Definition set_numberOfRatings v b := MkBook (title b) (authors b)
  (detailsUrl b) (goodreadsId b) (publishedYear b) (averageRating b) v.

(** ** Selectors *)

(** [tr[itemtype="http://schema.org/Book"]] *)
Definition sel_row : selector := [tag_attr "tr" "itemtype" "http://schema.org/Book"].
(** [.bookTitle] and [.bookTitle span[itemprop="name"]] *)
Definition sel_bookTitle : selector := [by_class "bookTitle"].
Definition sel_bookTitleName : selector :=
  [by_class "bookTitle"; tag_attr "span" "itemprop" "name"].
(** [.authorName__container] and [span[itemprop="name"]] *)
Definition sel_authorContainer : selector := [by_class "authorName__container"].
Definition sel_name : selector := [tag_attr "span" "itemprop" "name"].
(** [.greyText.smallText.uitext] *)
Definition sel_greyText : selector :=
  [by_classes ["greyText"; "smallText"; "uitext"]].
(** [.minirating] *)
Definition sel_minirating : selector := [by_class "minirating"].

(** ** Patterns *)

Definition slash : char := 47%N.
Definition dot : char := 46%N.
Definition comma : char := 44%N.

(** [/\/show\/(\d+)/] *)
Definition re_show : regex :=
  Seq (Chr slash) (Seq (Lit (lit "show")) (Seq (Chr slash) (Group (Plus digit)))).
(** [/published\s+(\d{4})/] *)
Definition re_published : regex :=
  Seq (Lit (lit "published")) (Seq (Plus space) (Group (Rep 4 digit))).
(** [/([\d.]+)\s+avg rating/] *)
Definition re_avgRating : regex :=
  Seq (Group (Plus (Class (fun c => is_digit c || N.eqb c dot))))
    (Seq (Plus space) (Lit (lit "avg rating"))).
(** [/—\s+([\d,]+)\s+ratings/], the first character being U+2014 *)
Definition re_ratings : regex :=
  Seq (Chr em_dash)
    (Seq (Plus space)
       (Seq (Group (Plus (Class (fun c => is_digit c || N.eqb c comma))))
          (Seq (Plus space) (Lit (lit "ratings"))))).
(** [/,/g] *)
Definition re_comma : regex := Chr comma.

(** ** Per-row assembler *)

(** [m?.[1]]: element 1 of the array, [undefined] when the match failed. *)
Definition optional_group1 (m : option MatchResult) : value :=
  match m with
  | Some arr => m_group1 arr
  | None => Undefined
  end.

Definition initializeBookObject (el : selection) : Book :=
  let detailsUrl :=
    concat (lit "https://www.goodreads.com")
      (attr (find el sel_bookTitle) (lit "href")) in
  MkBook
    (or_null (Str (trim (text (find el sel_bookTitleName)))))
    []
    (or_null (Str detailsUrl))
    (or_null (optional_group1 (js_match re_show detailsUrl)))
    Null
    Null
    Null.

Definition parseAuthors (el : selection) (book : Book) : completion Book :=
  Normal
    (fold_left
       (fun book authorElement =>
          set_authors
            (authors book ++ [trim (text (find (wrap authorElement) sel_name))])
            book)
       (find el sel_authorContainer) book).

Definition parsePublishedDate (el : selection) (book : Book) : completion Book :=
  let greyText := text (find el sel_greyText) in
  let publishedMatch := js_match re_published greyText in
  Normal (set_publishedYear
            (match publishedMatch with
             | Some arr => m_group1 arr
             | None => Null
             end) book).

Definition parseRatings (el : selection) (book : Book) : completion Book :=
  let ratingText := text (find el sel_minirating) in
  let ratingMatch := js_match re_avgRating ratingText in
  let book :=
    set_averageRating
      (match ratingMatch with
       | Some arr => m_group1 arr
       | None => Null
       end) book in
  let ratingsMatch := js_match re_ratings ratingText in
  match ratingsMatch with
  | Some arr =>
      g <- receiver (m_group1 arr) ;;
      Normal (set_numberOfRatings (Str (replace_all re_comma [] g)) book)
  | None => Normal (set_numberOfRatings Null book)
  end.

Definition parseBookData (element : elem) : completion Book :=
  let el := wrap element in
  let book := initializeBookObject el in
  book <- parseAuthors el book ;;
  book <- parsePublishedDate el book ;;
  book <- parseRatings el book ;;
  Normal book.

(** ** List extractor *)

(** The [each] loop of [parseSearchResults]: one [push] per row, the loop
    ending at the first exception. *)
Fixpoint each_row (rows : list elem) (results : list Book)
  : completion (list Book) :=
  match rows with
  | [] => Normal results
  | element :: rest =>
      bookData <- parseBookData element ;;
      each_row rest (results ++ [bookData])
  end.

Definition parseSearchResults (d : document) : completion (list Book) :=
  each_row (select d sel_row) [].

End Search.

(* ================================================================== *)
(** * The search URL: [buildSearchUrl] *)
(* ================================================================== *)

(** [URLSearchParams], as far as the search script uses it: built from an
    object, one [append], and [toString].  The serializer is the
    [application/x-www-form-urlencoded] one of the URL standard: names and
    values are converted to sequences of scalar values (a surrogate without
    its partner becomes U+FFFD), encoded as UTF-8, and every byte is written
    as itself when it is an ASCII letter, a digit or one of [*-._], as [+]
    when it is a space, and as [%] and two upper-case hexadecimal digits
    otherwise. *)
Module SearchUrl.

Definition is_high_surrogate (c : char) : bool := N.leb 55296 c && N.leb c 56319.
Definition is_low_surrogate (c : char) : bool := N.leb 56320 c && N.leb c 57343.

(** The scalar values of a string. *)
Fixpoint to_scalars (s : jsstring) : list N :=
  match s with
  | [] => []
  | c :: t =>
      if is_high_surrogate c then
        match t with
        | lo :: t' =>
            if is_low_surrogate lo
            then (65536 + (c - 55296) * 1024 + (lo - 56320))%N :: to_scalars t'
            else 65533%N :: to_scalars t
        | [] => [65533%N]
        end
      else if is_low_surrogate c then 65533%N :: to_scalars t
      else c :: to_scalars t
  end.

(** The UTF-8 bytes of a scalar value. *)
Definition utf8_encode (cp : N) : list N :=
  if N.ltb cp 128 then [cp]
  else if N.ltb cp 2048 then
    [192 + cp / 64; 128 + cp mod 64]%N
  else if N.ltb cp 65536 then
    [224 + cp / 4096; 128 + (cp / 64) mod 64; 128 + cp mod 64]%N
  else
    [240 + cp / 262144; 128 + (cp / 4096) mod 64;
     128 + (cp / 64) mod 64; 128 + cp mod 64]%N.

(** The bytes the serializer leaves as they are. *)
Definition unreserved (b : N) : bool :=
  (N.leb 48 b && N.leb b 57) || (N.leb 65 b && N.leb b 90)
  || (N.leb 97 b && N.leb b 122)
  || existsb (N.eqb b) [42; 45; 46; 95]%N.

(** An upper-case hexadecimal digit. *)
Definition hex_digit (n : N) : char :=
  if N.ltb n 10 then (48 + n)%N else (55 + n)%N.

Definition percent : char := 37%N.
Definition plus : char := 43%N.

Definition encode_byte (b : N) : jsstring :=
  if N.eqb b 32 then [plus]
  else if unreserved b then [b]
  else [percent; hex_digit (b / 16); hex_digit (b mod 16)].

(** The serialization of one name or value. *)
Definition urlencode (s : jsstring) : jsstring :=
  flat_map encode_byte (flat_map utf8_encode (to_scalars s)).

(** A [URLSearchParams] object: its list of name-value pairs. *)
Definition URLSearchParams := list (jsstring * jsstring).

(** [params.append(name, value)]. *)
Definition append (params : URLSearchParams) (name val : jsstring)
  : URLSearchParams :=
  params ++ [(name, val)].

(** [params.toString()]: [name=value] for each pair, joined by [&]. *)
Fixpoint toString (params : URLSearchParams) : jsstring :=
  match params with
  | [] => []
  | [(n, v)] => urlencode n ++ lit "=" ++ urlencode v
  | (n, v) :: rest =>
      urlencode n ++ lit "=" ++ urlencode v ++ lit "&" ++ toString rest
  end.

Definition BASE_URL : jsstring := lit "https://www.goodreads.com/search".

(** U+2713, the check mark of the [utf8] parameter. *)
Definition check_mark : char := 10003%N.

Definition buildSearchUrl (query searchType searchField : jsstring) : jsstring :=
  let searchParams : URLSearchParams :=
    [(lit "utf8", [check_mark]); (lit "q", query);
     (lit "search_type", searchType)] in
  let searchParams :=
    if negb (str_eqb searchField (lit "all"))
    then append searchParams (lit "search[field]") searchField
    else searchParams in
  BASE_URL ++ lit "?" ++ toString searchParams.

End SearchUrl.

(* ================================================================== *)
(** * The browser session around the two pipelines *)
(* ================================================================== *)

(** The [async] functions of the two scripts, as programs over the
    operations they ask of the browser.  An awaited operation is fulfilled
    with a value or rejected; which, is up to the world outside, here a
    function of what was asked so far and of what is asked now.  A program
    records what it asks, in the order of the calls, and ends normally or
    with a rejection ([Throw]).  Time is no part of the model: a timeout is
    a rejection.  A wait for a selector that is fulfilled gives an element
    (it gives [null] only with the option [hidden], which no call sets), and
    [page.content()] is fulfilled with the HTML of the page. *)
Module Browser.

Inductive op : Type :=
| Launch
| NewPage
| SetUserAgent (ua : jsstring)
| Goto (url : jsstring)
| WaitForSelector (selector : jsstring)
| WaitForNavigation
| Click (selector : jsstring)
| Delay (ms : N)
| Content
| Close
| ConsoleLog (line : jsstring)
| ConsoleError (line : jsstring).

Inductive outcome : Type :=
| Fulfilled (v : jsstring)
| Rejected.

Definition world := list op -> op -> outcome.

(** A program: from the world and the operations asked so far to the
    operations asked in the end and a completion. *)
Definition prog (A : Type) : Type :=
  world -> list op -> list op * completion A.

Definition ret {A} (a : A) : prog A := fun _ tr => (tr, Normal a).

Definition andThen {A B} (m : prog A) (f : A -> prog B) : prog B :=
  fun w tr =>
    match m w tr with
    | (tr1, Normal a) => f a w tr1
    | (tr1, Throw) => (tr1, Throw)
    end.

(** [await] of one operation of the browser. *)
Definition perform (o : op) : prog jsstring :=
  fun w tr =>
    (tr ++ [o], match w tr o with
                | Fulfilled v => Normal v
                | Rejected => Throw
                end).

(** [console.log] and [console.error]: recorded, never rejected. *)
Definition output (o : op) : prog unit := fun _ tr => (tr ++ [o], Normal tt).

(** [p.catch(() => null)] and [p.catch(() => {})]: [None] for the value
    the handler returns. *)
Definition or_nothing {A} (m : prog A) : prog (option A) :=
  fun w tr =>
    match m w tr with
    | (tr1, Normal a) => (tr1, Normal (Some a))
    | (tr1, Throw) => (tr1, Normal None)
    end.

(** [await Promise.all([a, b])]: both are started, in this order, whatever
    becomes of the other; the whole is rejected when one of them is. *)
Definition all2 {A B} (a : prog A) (b : prog B) : prog (A * B) :=
  fun w tr =>
    match a w tr with
    | (tr1, ra) =>
        match b w tr1 with
        | (tr2, rb) =>
            (tr2, match ra, rb with
                  | Normal x, Normal y => Normal (x, y)
                  | _, _ => Throw
                  end)
        end
    end.

(** [try { body } finally { fin }]: [fin] runs whatever [body] did, and a
    rejection of [fin] replaces the completion of [body]. *)
Definition try_finally {A B} (body : prog A) (fin : prog B) : prog A :=
  fun w tr =>
    match body w tr with
    | (tr1, r) =>
        match fin w tr1 with
        | (tr2, Normal _) => (tr2, r)
        | (tr2, Throw) => (tr2, Throw)
        end
    end.

(** A synchronous computation that may throw. *)
Definition lift {A} (c : completion A) : prog A := fun _ tr => (tr, c).

(** How a script ends: [process.exit(1)], or the normal end after
    [console.log(JSON.stringify(a, null, 2))]. *)
Inductive ending (A : Type) : Type :=
| Exit1
| Printed (a : A).
Arguments Exit1 {A}.

(** [process.argv[2 + i]]: [undefined] past the arguments given. *)
Definition argv (args : list jsstring) (i : nat) : value :=
  match nth_error args i with
  | Some s => Str s
  | None => Undefined
  end.

(** [v || d] for a string [d] that is not empty. *)
Definition or_default (v : value) (d : jsstring) : jsstring :=
  match v with
  | Str (c :: t) => c :: t
  | _ => d
  end.

Definition user_agent : jsstring :=
  lit "Mozilla/5.0 (Windows NT 10.0; Win64; x64) AppleWebKit/537.36 (KHTML, like Gecko) Chrome/91.0.4472.124 Safari/537.36".

(** [initializeBrowser], the same in both scripts.  The browser and the
    page it returns are the ones every later operation is asked of. *)
Definition initializeBrowser : prog unit :=
  andThen (perform Launch) (fun _ =>
  andThen (perform NewPage) (fun _ =>
  andThen (perform (SetUserAgent user_agent)) (fun _ =>
  ret tt))).

End Browser.

Import Browser.

Notation "x <~ m ;;; k" := (andThen m (fun x => k))
  (at level 61, m at next level, right associativity).
Notation "m ;;; k" := (andThen m (fun _ => k))
  (at level 61, right associativity).

(** The lookup script around [parseBookDetails] (the first of the two
    copies the file holds; the second has no step for the genres). *)
Module LookupScript.

Section WithParser.

(** [cheerio.load]. *)
Variable load : jsstring -> document.

Definition BASE_URL : jsstring := lit "https://www.goodreads.com/book/show/".

Definition sel_metadata : jsstring := lit ".BookPageMetadataSection".
Definition sel_detailsButton : jsstring :=
  lit "button[aria-label=" ++ [34%N] ++ lit "Book details and editions"
    ++ [34%N] ++ lit "]".
Definition sel_editionDetails : jsstring := lit ".EditionDetails".
Definition sel_moreGenres : jsstring :=
  lit ".BookPageMetadataSection__genres button[aria-label=" ++ [34%N]
    ++ lit "Show all items in the list" ++ [34%N] ++ lit "]".

Definition navigateToBookPage (goodreadsId : jsstring) : prog unit :=
  let url := BASE_URL ++ goodreadsId in
  perform (Goto url) ;;;
  perform (WaitForSelector sel_metadata) ;;;
  perform (Delay 1000%N) ;;;
  ret tt.

Definition handleBookDetailsExpansion : prog unit :=
  found <~ all2 (or_nothing (perform (WaitForSelector sel_detailsButton)))
                (or_nothing (perform (WaitForSelector sel_editionDetails))) ;;;
  let detailsButton := fst found in
  match detailsButton with
  | Some _ =>
      all2 (or_nothing (perform WaitForNavigation))
           (perform (Click sel_detailsButton)) ;;;
      or_nothing (perform (WaitForSelector sel_editionDetails)) ;;;
      ret tt
  | None => ret tt
  end ;;;
  moreGenresButton <~ or_nothing (perform (WaitForSelector sel_moreGenres)) ;;;
  match moreGenresButton with
  | Some _ =>
      perform (Click sel_moreGenres) ;;;
      perform (Delay 500%N) ;;;
      ret tt
  | None => ret tt
  end ;;;
  perform (Delay 2000%N) ;;;
  ret tt.

Definition lookupBook (goodreadsId : jsstring) : prog Lookup.BookDetails :=
  initializeBrowser ;;;
  try_finally
    (navigateToBookPage goodreadsId ;;;
     handleBookDetailsExpansion ;;;
     html <~ perform Content ;;;
     lift (Lookup.parseBookDetails (load html)))
    (perform Close).

(** The main execution of the script, on the arguments of the command. *)
Definition main (args : list jsstring) (w : world)
  : list op * ending Lookup.BookDetails :=
  let goodreadsId := argv args 0 in
  if negb (truthy goodreadsId) then ([], Exit1)
  else
    match lookupBook (to_string goodreadsId) w [] with
    | (tr, Normal bookDetails) => (tr, Printed bookDetails)
    | (tr, Throw) => (tr, Exit1)
    end.

End WithParser.

End LookupScript.

(** The search script around [parseSearchResults]. *)
Module SearchScript.

Section WithParser.

Variable load : jsstring -> document.

Definition sel_row : jsstring :=
  lit "tr[itemtype=" ++ [34%N] ++ lit "http://schema.org/Book" ++ [34%N]
    ++ lit "]".

Definition searching_line (query searchType searchField url : jsstring)
  : jsstring :=
  lit "Searching for " ++ [34%N] ++ query ++ [34%N] ++ lit " with type "
    ++ [34%N] ++ searchType ++ [34%N] ++ lit " and field " ++ [34%N]
    ++ searchField ++ [34%N] ++ lit " at " ++ url.

Definition navigateToSearchPage (url query searchType searchField : jsstring)
  : prog unit :=
  output (ConsoleLog (searching_line query searchType searchField url)) ;;;
  perform (Goto url) ;;;
  perform (WaitForSelector sel_row) ;;;
  ret tt.

Definition searchBook (query searchType searchField : jsstring)
  : prog (list Search.Book) :=
  initializeBrowser ;;;
  try_finally
    (let searchUrl := SearchUrl.buildSearchUrl query searchType searchField in
     navigateToSearchPage searchUrl query searchType searchField ;;;
     html <~ perform Content ;;;
     lift (Search.parseSearchResults (load html)))
    (perform Close).

(** The main execution.  Of [console.error('Error:', error)] the label is
    recorded, not the text of the error. *)
Definition main (args : list jsstring) (w : world)
  : list op * ending (list Search.Book) :=
  let query := argv args 0 in
  let searchType := or_default (argv args 1) (lit "books") in
  let searchField := or_default (argv args 2) (lit "all") in
  if negb (truthy query)
  then ([ConsoleError (lit "Please provide a search query.")], Exit1)
  else
    match searchBook (to_string query) searchType searchField w [] with
    | (tr, Normal results) => (tr, Printed results)
    | (tr, Throw) => (tr ++ [ConsoleError (lit "Error:")], Exit1)
    end.

End WithParser.

End SearchScript.

(* ================================================================== *)
(** * Vocabulary of the statements *)
(* ================================================================== *)

(** Whether a value is a string. *)
Definition is_str (v : value) : bool :=
  match v with Str _ => true | _ => false end.

(** Whether every successful match of the pattern goes through its group. *)
Fixpoint has_group (r : regex) : bool :=
  match r with
  | Group _ => true
  | Seq r1 r2 => has_group r1 || has_group r2
  | _ => false
  end.

(** Document order on the paths of two nodes: a node comes before the nodes
    below it, and the subtree of a child before the subtrees of the children
    after it. *)
Fixpoint path_before (p q : list nat) : Prop :=
  match p, q with
  | [], [] => False
  | [], _ :: _ => True
  | _ :: _, [] => False
  | x :: p', y :: q' => x < y \/ (x = y /\ path_before p' q')
  end.

Definition elem_path (e : elem) : list nat := h_path (e_hdr e).

(** [a] comes before [b] in the document. *)
Definition before (a b : elem) : Prop :=
  path_before (elem_path a) (elem_path b).

(** The elements found under a node lie at or below its path; those found
    under a list of siblings lie at or below one of the siblings. *)
Definition below_node (path : list nat) (e : elem) : Prop :=
  exists s, elem_path e = path ++ s.
Definition below_siblings (path : list nat) (i : nat) (e : elem) : Prop :=
  exists j s, i <= j /\ elem_path e = path ++ j :: s.

(** What a pattern matches, as a relation: [matches r pos w c c'] when the
    pattern [r] can consume exactly [w] from index [pos] on, turning the
    capture [c] of group 1 into [c'].  The matcher [run] finds a [w] among
    these; which one it finds (the greedy one, the leftmost one) is its own
    business. *)
Inductive matches : regex -> nat -> jsstring -> value -> value -> Prop :=
| M_Eps pos c : matches Eps pos [] c c
| M_Chr x pos c : matches (Chr x) pos [x] c c
| M_Class (p : char -> bool) x pos c :
    p x = true -> matches (Class p) pos [x] c c
| M_Bol c : matches Bol 0 [] c c
| M_Seq r1 r2 pos w1 w2 c c1 c2 :
    matches r1 pos w1 c c1 -> matches r2 (pos + length w1) w2 c1 c2 ->
    matches (Seq r1 r2) pos (w1 ++ w2) c c2
| M_Star_stop r pos c : matches (Star r) pos [] c c
| M_Star_step r pos w1 w2 c c1 c2 :
    matches r pos w1 c c1 -> matches (Star r) (pos + length w1) w2 c1 c2 ->
    matches (Star r) pos (w1 ++ w2) c c2
| M_Group r pos w c c1 :
    matches r pos w c c1 -> matches (Group r) pos w c (Str w).

(** [st'] is a state the matcher can be in after [st]: further on in the
    same subject, the index and the rest moving together. *)
Definition reaches (st st' : mstate) : Prop :=
  exists w, ms_rest st = w ++ ms_rest st'
            /\ ms_pos st' = ms_pos st + length w.

(** What a successful run has consumed, and the state it went on with. *)
Definition consumed (r : regex) (st : mstate) (k : mstate -> option mstate)
  (res : mstate) : Prop :=
  exists w rest' c',
    ms_rest st = w ++ rest'
    /\ matches r (ms_pos st) w (ms_cap st) c'
    /\ k (MState (ms_pos st + length w) rest' c') = Some res.

(** What the extractors of the detail pipeline read off a document: the
    expressions of [lookup.js], named. *)
Module Views.

Import Lookup.

Definition titleSection (d : document) : selection := select d sel_titleSection.
Definition seriesElement (d : document) : selection :=
  find (titleSection d) sel_series.
Definition bookTitleElement (d : document) : selection :=
  find (titleSection d) sel_bookTitle.

Definition authorNames (d : document) : list jsstring :=
  List.map (fun el => trim (replace_all re_spaces (lit " ") (text (wrap el))))
    (select d sel_contributors).

Definition ratingText (d : document) : jsstring :=
  trim (text (first (select d sel_rating))).
Definition metaText (d : document) : jsstring :=
  trim (text (first (select d sel_meta))).

Definition genreChips (d : document) : list jsstring :=
  List.map (fun el => trim (text (wrap el))) (select d sel_genres).

Definition pagesFormat (d : document) : jsstring :=
  trim (text (select d sel_pagesFormat)).
Definition publicationInfo (d : document) : jsstring :=
  trim (text (select d sel_publicationInfo)).

Definition descriptionDiv (d : document) : selection := select d sel_description.
Definition descriptionText (d : document) : jsstring :=
  trim (text (first (find (descriptionDiv d) sel_truncated))).

(** The label and the value of every item of the details list. *)
Definition editionItems (d : document) : list (jsstring * jsstring) :=
  List.map
    (fun el => (toLowerCase (trim (text (find (wrap el) sel_dt))),
                trim (text (find (wrap el) sel_dd))))
    (select d sel_descListItem).

Definition settingsContainer (d : document) : selection :=
  filter (fun el => str_eqb (trim (text (find (wrap el) sel_dt))) (lit "Setting"))
    (select d sel_workDetailsItem).
Definition settingsText (d : document) : jsstring :=
  trim (text (find (settingsContainer d) sel_truncated)).

(** The comma-separated pieces of the settings text, each normalized. *)
Definition settingPieces (d : document) : list jsstring :=
  List.map cleanSetting (split comma (settingsText d)).

(** The count a pattern of [parseRatings] stores for a text: [null] when it
    does not match, the first group without its commas when it does. *)
Definition stored_count (r : regex) (s : jsstring) (v : value) : Prop :=
  match js_match r s with
  | None => v = Null
  | Some arr => exists g, m_group1 arr = Str g /\ v = Str (replace_all re_comma [] g)
  end.

(** The first group of a pattern on a text, or what the field held before. *)
Definition group1_or (r : regex) (s : jsstring) (before : value) : value :=
  match js_match r s with
  | Some arr => m_group1 arr
  | None => before
  end.

Definition digit_or_comma (x : char) : bool := is_digit x || N.eqb x comma.

(** A count pattern followed by white space and a word: the shape of the
    two patterns of [parseRatings]. *)
Definition count_then (word : string) : regex :=
  Seq re_count (Seq (Plus space) (Lit (lit word))).

(** [v] is a count written before [word] in [s]: digits, possibly with
    commas between them, then white space, then [word]; [v] is the digits. *)
Definition count_before (word : string) (s v : jsstring) : Prop :=
  exists pre g ws post,
    s = pre ++ g ++ ws ++ lit word ++ post
    /\ ws <> [] /\ forallb is_space ws = true
    /\ v = replace_all re_comma [] g
    /\ v <> [] /\ forallb is_digit v = true.

(** The labels of the controls that expand a truncated list. *)
Definition sentinels : list jsstring := [lit "...more"; lit "...show all"].

End Views.

(** The subsequence of first occurrences, stated on the sequence itself
    and not on a set: an entry stays iff it is equal to no entry before
    it. *)
Fixpoint first_occurrences_after (before l : list jsstring) : list jsstring :=
  match l with
  | [] => []
  | x :: t =>
      (if existsb (str_eqb x) before then [] else [x])
        ++ first_occurrences_after (before ++ [x]) t
  end.

Definition first_occurrences (l : list jsstring) : list jsstring :=
  first_occurrences_after [] l.

(** What the per-row assembler of the search pipeline reads off a row. *)
Module RowViews.

Import Search.

(** The [href] of the title link, [undefined] when there is none. *)
Definition href (row : elem) : value :=
  attr (find (wrap row) sel_bookTitle) (lit "href").
Definition detailsUrlText (row : elem) : jsstring :=
  concat (lit "https://www.goodreads.com") (href row).
Definition titleText (row : elem) : jsstring :=
  trim (text (find (wrap row) sel_bookTitleName)).
Definition authorNames (row : elem) : list jsstring :=
  List.map (fun a => trim (text (find (wrap a) sel_name)))
    (find (wrap row) sel_authorContainer).
Definition greyText (row : elem) : jsstring :=
  text (find (wrap row) sel_greyText).
Definition ratingText (row : elem) : jsstring :=
  text (find (wrap row) sel_minirating).

(** [m ? m[1] : null] *)
Definition group1_or_null (r : regex) (s : jsstring) : value :=
  match js_match r s with
  | Some arr => m_group1 arr
  | None => Null
  end.

Definition stored_count (r : regex) (s : jsstring) (v : value) : Prop :=
  match js_match r s with
  | None => v = Null
  | Some arr => exists g, m_group1 arr = Str g /\ v = Str (replace_all re_comma [] g)
  end.

End RowViews.

(* ================================================================== *)
(** * Sample documents *)
(* ================================================================== *)

Module Samples.

(** A search row the way the results page lays it out. *)
Definition search_row (link_attrs : list (string * string))
  (name author : string) (rating_line : jsstring) (grey : string) : node :=
  el "tr" [("itemscope", ""); ("itemtype", "http://schema.org/Book")] [
    el "td" [] [
      el "a" link_attrs [el "span" [("itemprop", "name")] [txt name]];
      el "span" [] [txt "by"];
      el "div" [("class", "authorName__container")] [
        el "a" [("class", "authorName")] [
          el "span" [("itemprop", "name")] [txt author]]];
      el "span" [("class", "greyText smallText uitext")] [
        el "span" [("class", "minirating")] [Text rating_line];
        txt grey]]].

Definition rating_line (avg count : string) : jsstring :=
  lit " " ++ lit avg ++ lit " avg rating " ++ [em_dash] ++ lit " "
    ++ lit count ++ lit " ratings".

Definition hell_house_row : node :=
  search_row [("class", "bookTitle"); ("href", "/book/show/33547.Hell_House?from_search=true")]
    "Hell House" "Richard Matheson" (rating_line "3.73" "55,061")
    " published 1971 ".

Definition study_guide_row : node :=
  search_row [("class", "bookTitle"); ("href", "/book/show/20388946-summary-study-guide")]
    "Summary & Study Guide Hell House" "BookRags" (rating_line "4.40" "5")
    " published 2011 ".

(** The first row again, its title link without an [href]. *)
Definition row_without_href : node :=
  search_row [("class", "bookTitle")]
    "Hell House" "Richard Matheson" (rating_line "3.73" "55,061")
    " published 1971 ".

Definition results_page (rows : list node) : document :=
  [el "html" [] [el "body" [] [el "table" [("class", "tableList")] rows]]].

Definition two_rows_page : document :=
  results_page [hell_house_row; study_guide_row].
Definition no_href_page : document := results_page [row_without_href].
Definition no_rows_page : document := results_page [].

(** Pieces of a detail page. *)
Definition title_block (inner : list node) : node :=
  el "div" [("class", "BookPageTitleSection__title")] inner.
Definition series_heading (name : string) : node :=
  el "h3" [("class", "Text Text__title3 Text__italic")] [
    el "a" [("href", "/series/1")] [txt name]].
Definition title_heading (name : string) : node :=
  el "h1" [("class", "Text Text__title1"); ("data-testid", "bookTitle")] [txt name].
Definition author_links (names : list string) : node :=
  el "div" [("class", "ContributorLinksList")]
    (List.map (fun n => el "span" [("class", "ContributorLink__name")] [txt n]) names).
Definition rating_block (rating : string) (meta : jsstring) : node :=
  el "div" [("class", "RatingStatistics")] [
    el "div" [("class", "RatingStatistics__rating")] [txt rating];
    el "div" [("class", "RatingStatistics__meta")] [Text meta]].
Definition genre_list (chips : list string) : node :=
  el "div" [("class", "BookPageMetadataSection__genres")]
    (List.map (fun c => el "span" [("class", "Button__labelItem")] [txt c]) chips).
Definition desc_item (label : string) (value : list node) : node :=
  el "div" [("class", "DescListItem")] [
    el "dt" [] [txt label];
    el "dd" [] value].
Definition truncated (s : string) : node :=
  el "span" [("class", "TruncatedContent__text")] [txt s].

Definition detail_page (sections : list node) : document :=
  [el "html" [] [el "body" [] sections]].

(** U+00B7, the dot between the two counts of the meta block. *)
Definition middle_dot : char := 183%N.

Definition hell_house_meta : jsstring :=
  lit "55,061 ratings" ++ [middle_dot] ++ lit "4,640 reviews".

(** A page with a plain title. *)
Definition plain_title_page : document :=
  detail_page [
    title_block [title_heading "Hell House"];
    author_links ["Richard Matheson"];
    rating_block "3.73" hell_house_meta].


(** A page on which nothing matches the title block selector. *)
Definition untitled_page : document :=
  detail_page [
    author_links ["Richard Matheson"];
    rating_block "3.73" hell_house_meta].

(** A page whose genre list was not expanded: its last chip is the control
    that expands it. *)
Definition collapsed_genres_page : document :=
  detail_page [
    title_block [title_heading "Hell House"];
    genre_list ["Horror"; "Fiction"; "...more"]].

(** A page whose genre list carries the other control. *)
Definition show_all_genres_page : document :=
  detail_page [
    title_block [title_heading "Hell House"];
    genre_list ["Horror"; "Fiction"; "...show all"]].

Definition isbn_page : document :=
  detail_page [
    title_block [title_heading "Hell House"];
    el "div" [("class", "EditionDetails")] [
      desc_item "Format" [txt "301 pages, Hardcover"];
      desc_item "ISBN" [txt "9780727860996ISBN10: 0727860992"];
      desc_item "Language" [txt "English"]]].

Definition settings_page : document :=
  detail_page [
    title_block [title_heading "A Tale of Two Cities"];
    el "div" [("class", "WorkDetails")] [
      desc_item "Original title" [truncated "A Tale of Two Cities"];
      desc_item "Setting" [truncated "London (England), London (England), Paris"]]].

Definition meta_page (meta : string) : document :=
  detail_page [rating_block "3.73" (lit meta)].

End Samples.

(* ================================================================== *)
(** * Vocabulary for normalized text *)
(* ================================================================== *)

(** Every maximal run of white space replaced by one space: what
    [s.replace(/\s+/g, ' ')] is meant to return.  [in_run] tells that the
    code unit before was white space. *)
Fixpoint collapse_from (in_run : bool) (s : jsstring) : jsstring :=
  match s with
  | [] => []
  | c :: t =>
      if is_space c
      then if in_run then collapse_from true t
           else 32%N :: collapse_from true t
      else c :: collapse_from false t
  end.

Definition collapse (s : jsstring) : jsstring := collapse_from false s.

(** The length of the longest prefix of [s] whose code units satisfy [p]. *)
Fixpoint run_length (p : char -> bool) (s : jsstring) : nat :=
  match s with
  | [] => 0
  | c :: t => if p c then S (run_length p t) else 0
  end.

(** The white space of [s] is single spaces: each white-space code unit is
    U+0020 and the code unit before it is not white space.  [prev] tells
    that the code unit before [s] was white space. *)
Fixpoint single_spaced_from (prev : bool) (s : jsstring) : bool :=
  match s with
  | [] => true
  | c :: t =>
      if is_space c
      then N.eqb c 32 && negb prev && single_spaced_from true t
      else single_spaced_from false t
  end.

(** [s] neither starts nor ends with white space. *)
Definition trimmed (s : jsstring) : Prop :=
  (forall c t, s = c :: t -> is_space c = false)
  /\ (forall t c, s = t ++ [c] -> is_space c = false).

(** A tidy text: no white space at the ends, and inside only single
    spaces. *)
Definition tidy (s : jsstring) : Prop :=
  trimmed s /\ single_spaced_from false s = true.

(** No [(] of [s] has a [)] after it.  [opened] tells that a [(] came
    before [s]. *)
Fixpoint no_pair_from (opened : bool) (s : jsstring) : bool :=
  match s with
  | [] => true
  | c :: t =>
      if N.eqb c 41 then negb opened && no_pair_from opened t
      else if N.eqb c 40 then no_pair_from true t
      else no_pair_from opened t
  end.

(** [s] holds no parenthetical: nowhere a [(], then text, then a [)]. *)
Definition no_parenthetical (s : jsstring) : Prop :=
  forall a b c, s <> a ++ 40%N :: b ++ 41%N :: c.

(** The code units before the first [)] of [s], and [s] from that [)] on. *)
Fixpoint until_rp (s : jsstring) : jsstring * jsstring :=
  match s with
  | [] => ([], [])
  | c :: t =>
      if N.eqb c 41 then ([], s)
      else let (w, r) := until_rp t in (c :: w, r)
  end.

(* ================================================================== *)
(** * Vocabulary for the shape of a field *)
(* ================================================================== *)

(** A field that is filled or absent, and never the empty string nor
    [undefined]. *)
Definition present_or_null (v : value) : Prop :=
  match v with
  | Null => True
  | Str s => s <> []
  | Undefined => False
  end.

(** A field that is absent or a run of exactly [n] digits. *)
Definition digits_or_null (n : nat) (v : value) : Prop :=
  match v with
  | Null => True
  | Str s => length s = n /\ forallb is_digit s = true
  | Undefined => False
  end.

(** [s] does not end with white space. *)
Definition ends_well (s : jsstring) : Prop :=
  forall t c, s = t ++ [c] -> is_space c = false.

(** The value a label has in a details list: that of the last item with
    this label, [null] without one. *)
Definition last_value (label : jsstring) (items : list (jsstring * jsstring))
  : value :=
  match List.find (fun lv => str_eqb (fst lv) label) (rev items) with
  | Some lv => Str (snd lv)
  | None => Null
  end.

(** The first group of a pattern on the value of the last item labelled
    [isbn] on which the pattern matches, [null] without one. *)
Definition last_isbn_group (r : regex) (items : list (jsstring * jsstring))
  : value :=
  match List.find (fun lv => str_eqb (fst lv) (lit "isbn")
                             && match js_match r (snd lv) with
                                | Some _ => true
                                | None => false
                                end) (rev items) with
  | Some lv => match js_match r (snd lv) with
               | Some arr => m_group1 arr
               | None => Null
               end
  | None => Null
  end.

(* ================================================================== *)
(** * More sample documents *)
(* ================================================================== *)

Module EdgeSamples.

Import Samples.

(** A page whose sections are all there and all empty of text. *)
Definition hollow_page : document :=
  detail_page [
    title_block [series_heading ""; title_heading ""];
    author_links [""];
    genre_list [""];
    el "div" [("class", "EditionDetails")] [
      desc_item "Format" [];
      desc_item "Published" [];
      desc_item "ASIN" [];
      desc_item "Language" []];
    el "div" [("class", "WorkDetails")] [
      desc_item "Setting" [truncated ""]]].



(** A page with the two paragraphs of the basic details. *)
Definition publication_page : document :=
  detail_page [
    el "p" [("data-testid", "pagesFormat")] [txt "301 pages, Hardcover"];
    el "p" [("data-testid", "publicationInfo")] [
      txt "First published January 1, 1971"]].

End EdgeSamples.

(* ================================================================== *)
(** * Vocabulary for the search URL *)
(* ================================================================== *)

(** A string of code units: each below 2^16. *)
Definition code_units (s : jsstring) : Prop := Forall (fun c => (c < 65536)%N) s.

(** The code units that [urlencode] writes. *)
Definition url_safe (c : char) : bool :=
  SearchUrl.unreserved c || N.eqb c SearchUrl.plus || N.eqb c SearchUrl.percent.

(** How often [c] stands in [s]. *)
Definition occurrences (c : char) (s : jsstring) : nat :=
  length (filter (N.eqb c) s).

(* ------------------------------------------------------------------ *)
(** ** Vocabulary for the browser sessions *)
(* ------------------------------------------------------------------ *)

Definition is_normal {A} (c : completion A) : bool :=
  match c with
  | Normal _ => true
  | Throw => false
  end.

Definition is_rejected (o : outcome) : bool :=
  match o with
  | Rejected => true
  | Fulfilled _ => false
  end.

(** Writing to the console asks nothing of the browser. *)
Definition silent (o : op) : bool :=
  match o with
  | ConsoleLog _ | ConsoleError _ => true
  | _ => false
  end.

(** The waits of the lookup script that may time out. *)
Definition optional (o : op) : bool :=
  match o with
  | WaitForSelector s =>
      str_eqb s LookupScript.sel_detailsButton
      || str_eqb s LookupScript.sel_editionDetails
      || str_eqb s LookupScript.sel_moreGenres
  | WaitForNavigation => true
  | _ => false
  end.

(** What a lookup needs of the browser, and what a search needs. *)
Definition lookup_needs (o : op) : bool := negb (silent o) && negb (optional o).
Definition search_needs (o : op) : bool := negb (silent o).

(** The needed operations among [tr], asked after [before], that the
    world rejected when they were asked. *)
Fixpoint rejected (w : world) (needed : op -> bool) (before tr : list op)
  : list op :=
  match tr with
  | [] => []
  | o :: rest =>
      (if needed o && is_rejected (w before o) then [o] else [])
        ++ rejected w needed (before ++ [o]) rest
  end.

Definition none {A} (l : list A) : bool :=
  match l with
  | [] => true
  | _ :: _ => false
  end.

(** [initializeBrowser] gets through in this world. *)
Definition initialised (w : world) : bool :=
  negb (is_rejected (w [] Launch))
  && negb (is_rejected (w [Launch] NewPage))
  && negb (is_rejected (w [Launch; NewPage] (SetUserAgent user_agent))).

(** A world where nothing is rejected but the waits that may time out,
    and where the page has the content [html]. *)
Definition patient_world (html : jsstring) : world :=
  fun _ o => if optional o then Rejected else Fulfilled html.

(** A program is accounted for when it only adds to what was asked, adds
    allowed operations only, and ends normally exactly when the world
    rejected none of the needed operations it added. *)
Definition accounted (needed : op -> bool) (allowed : op -> Prop)
           {A} (m : prog A) : Prop :=
  forall w tr, exists ext,
    fst (m w tr) = tr ++ ext
    /\ Forall allowed ext
    /\ is_normal (snd (m w tr)) = none (rejected w needed tr ext).

Definition not_close (o : op) : Prop := o <> Close.
Definition any_op (o : op) : Prop := True.

(** A program that begins by asking [o]. *)
Definition begins_with {A} (o : op) (m : prog A) : Prop :=
  forall w tr, exists ext, fst (m w tr) = tr ++ o :: ext.

(** What [lookupBook] runs between [try] and [finally]. *)
Definition lookup_body (load : jsstring -> document) (goodreadsId : jsstring)
  : prog Lookup.BookDetails :=
  LookupScript.navigateToBookPage goodreadsId ;;;
  LookupScript.handleBookDetailsExpansion ;;;
  html <~ perform Content ;;;
  lift (Lookup.parseBookDetails (load html)).

(** The operations of a search, in the order they are asked. *)
Definition search_steps (query searchType searchField : jsstring) : list op :=
  let url := SearchUrl.buildSearchUrl query searchType searchField in
  [Launch; NewPage; SetUserAgent user_agent;
   ConsoleLog (SearchScript.searching_line query searchType searchField url);
   Goto url; WaitForSelector SearchScript.sel_row; Content].

(** Asking the steps one after the other of a world until it rejects one:
    the steps asked, the rejected one being the last, and whether all were
    fulfilled.  A line for the console is never rejected. *)
Fixpoint until_rejected (w : world) (before steps : list op)
  : list op * bool :=
  match steps with
  | [] => ([], true)
  | o :: rest =>
      if negb (silent o) && is_rejected (w before o) then ([o], false)
      else (o :: fst (until_rejected w (before ++ [o]) rest),
            snd (until_rejected w (before ++ [o]) rest))
  end.

(** The HTML that [page.content()] is fulfilled with after [tr]. *)
Definition content_after (w : world) (tr : list op) : jsstring :=
  match w tr Content with
  | Fulfilled html => html
  | Rejected => []
  end.

(* ================================================================== *)
(** * Sample documents: where a scoped selector may start *)
(* ================================================================== *)

Module ScopeSamples.

Import Samples.



(** A title block with the series link and no heading. *)
Definition series_only_page : document :=
  detail_page [title_block [series_heading "Robert Langdon #2"]].

(** A row that carries the class of the title link itself. *)
Definition titled_row : node :=
  el "tr" [("class", "bookTitle"); ("itemscope", "");
           ("itemtype", "http://schema.org/Book")] [
    el "td" [] [
      el "a" [("href", "/book/show/33547.Hell_House")] [
        el "span" [("itemprop", "name")] [txt "Hell House"]];
      el "div" [("class", "authorName__container")] [
        el "a" [("class", "authorName")] [
          el "span" [("itemprop", "name")] [txt "Richard Matheson"]]]]].

Definition titled_row_page : document := results_page [titled_row].

End ScopeSamples.

(* ================================================================== *)
(** * Vocabulary: the text nodes a text is made of *)
(* ================================================================== *)








(* ================================================================== *)
(** * Vocabulary: the places a pattern reads *)
(* ================================================================== *)

(** A page count written in [s] after [pre]: a run of digits [v], white
    space or none, and the word [pages]. *)
Definition page_count_at (s pre v : jsstring) : Prop :=
  exists ws post,
    s = pre ++ v ++ ws ++ lit "pages" ++ post
    /\ v <> []
    /\ forallb is_digit v = true
    /\ forallb is_space ws = true.

(** [g] goes to the end of its line: it holds no line terminator, and
    what follows it is nothing or starts with one. *)
Definition rest_of_line (g post : jsstring) : Prop :=
  forallb (fun c => negb (is_line_terminator c)) g = true
  /\ match post with
     | [] => True
     | c :: _ => is_line_terminator c = true
     end.

(** A first publication written in [s] after [pre]: the words
    [First published], white space, and then [g], which starts with the
    first code unit that is not white space and is the rest of its line. *)
Definition first_published_at (s pre g : jsstring) : Prop :=
  exists ws post,
    s = pre ++ lit "First published" ++ ws ++ g ++ post
    /\ ws <> []
    /\ forallb is_space ws = true
    /\ match g with
       | [] => False
       | y :: _ => is_space y = false
       end
    /\ rest_of_line g post.

(* ================================================================== *)
(** * Properties of the string and pattern primitives *)
(* ================================================================== *)

Unset Implicit Arguments.

Lemma str_eqb_eq (a b : jsstring) : str_eqb a b = true <-> a = b.
Proof.
  revert b; induction a as [|x a IH]; intros [|y b]; simpl;
    try (split; [discriminate | discriminate]); [tauto|].
  rewrite andb_true_iff, N.eqb_eq, IH.
  split; [intros [-> ->]; reflexivity | intros E; inversion E; auto].
Qed.

Lemma str_eqb_refl (a : jsstring) : str_eqb a a = true.
Proof. apply str_eqb_eq; reflexivity. Qed.

Lemma str_eqb_neq (a b : jsstring) : str_eqb a b = false <-> a <> b.
Proof.
  rewrite <- str_eqb_eq. destruct (str_eqb a b); split; congruence.
Qed.

Section Matcher.

(** A successful run has called its continuation, and on a state whose
    capture is a string whenever it was one before or the pattern goes
    through its group. *)
Lemma star_loop_success
  (body : mstate -> (mstate -> option mstate) -> option mstate) :
  (forall st k res, body st k = Some res ->
     exists st', k st' = Some res
       /\ (is_str (ms_cap st) = true -> is_str (ms_cap st') = true)) ->
  forall fuel st k res, star_loop body k fuel st = Some res ->
    exists st', k st' = Some res
      /\ (is_str (ms_cap st) = true -> is_str (ms_cap st') = true).
Proof.
  intros Hbody; induction fuel as [|fuel IH]; intros st k res H; simpl in H.
  - exists st; auto.
  - destruct (body st _) as [res'|] eqn:E.
    + inversion H; subst res'; clear H.
      apply Hbody in E. destruct E as (st1 & E1 & C1).
      destruct (Nat.ltb _ _); [|discriminate].
      apply IH in E1. destruct E1 as (st2 & E2 & C2).
      exists st2; split; auto.
    + exists st; auto.
Qed.

Lemma run_success (r : regex) :
  forall st k res, run r st k = Some res ->
  exists st', k st' = Some res
    /\ (is_str (ms_cap st) || has_group r = true -> is_str (ms_cap st') = true).
Proof.
  induction r as [| c | p | | r1 IH1 r2 IH2 | r IH | r IH]; intros st k res H;
    cbn [run] in H.
  - exists st; split; [assumption|]. simpl; rewrite orb_false_r; auto.
  - destruct (ms_rest st) as [|x t]; [discriminate|].
    destruct (N.eqb x c); [|discriminate].
    eexists; split; [eassumption|]. simpl; rewrite orb_false_r; auto.
  - destruct (ms_rest st) as [|x t]; [discriminate|].
    destruct (p x); [|discriminate].
    eexists; split; [eassumption|]. simpl; rewrite orb_false_r; auto.
  - destruct (Nat.eqb _ _); [|discriminate].
    exists st; split; [assumption|]. simpl; rewrite orb_false_r; auto.
  - apply IH1 in H. destruct H as (st1 & H1 & C1).
    apply IH2 in H1. destruct H1 as (st2 & H2 & C2).
    exists st2; split; [assumption|]. simpl.
    rewrite orb_assoc. intros C. apply C2.
    apply orb_true_iff in C.
    destruct C as [C|C]; [|rewrite C, orb_true_r; reflexivity].
    rewrite (C1 C); reflexivity.
  - apply star_loop_success in H.
    + destruct H as (st' & H & C). exists st'; split; [assumption|].
      simpl; rewrite orb_false_r; assumption.
    + intros st0 k0 res0 H0. apply IH in H0. destruct H0 as (st' & H0 & C).
      exists st'; split; [assumption|].
      intros Hc; apply C; rewrite Hc; reflexivity.
  - apply IH in H. destruct H as (st1 & H1 & _).
    eexists; split; [eassumption|]. reflexivity.
Qed.

(** A successful [match] of a pattern that goes through its group has a
    string as element 1. *)
Lemma search_group1 (r : regex) :
  has_group r = true ->
  forall rest pos m, search r pos rest = Some m -> is_str (m_group1 m) = true.
Proof.
  intros G; induction rest as [|c t IH]; intros pos m H; simpl in H.
  - destruct (run r _ Some) as [st|] eqn:E; [|discriminate].
    inversion H; subst m; simpl.
    apply run_success in E. destruct E as (st' & E & C).
    inversion E; subst st'. apply C; rewrite G, orb_true_r; reflexivity.
  - destruct (run r _ Some) as [st|] eqn:E.
    + inversion H; subst m; simpl.
      apply run_success in E. destruct E as (st' & E & C).
      inversion E; subst st'. apply C; rewrite G, orb_true_r; reflexivity.
    + eapply IH; eassumption.
Qed.

Lemma js_match_group1 (r : regex) (s : jsstring) (m : MatchResult) :
  has_group r = true -> js_match r s = Some m ->
  exists g, m_group1 m = Str g.
Proof.
  intros G H. apply (search_group1 r G) in H.
  destruct (m_group1 m) as [| |g]; try discriminate. exists g; reflexivity.
Qed.

End Matcher.

(** [s.replace(/c/g, '')] drops every [c] and nothing else. *)
Lemma replace_from_chr (c : char) (s : jsstring) (pos : nat) :
  replace_from (Chr c) [] pos s 0 = filter (fun x => negb (N.eqb x c)) s.
Proof.
  revert pos; induction s as [|x t IH]; intros pos.
  - reflexivity.
  - cbn [replace_from run ms_rest filter].
    destruct (N.eqb x c); cbn [negb advance ms_pos].
    + replace (S pos - pos) with 1 by lia. cbn [app]. apply IH.
    + f_equal. apply IH.
Qed.

Lemma replace_all_chr (c : char) (s : jsstring) :
  replace_all (Chr c) [] s = filter (fun x => negb (N.eqb x c)) s.
Proof. apply replace_from_chr. Qed.

Lemma replace_all_chr_absent (c : char) (s : jsstring) :
  ~ In c (replace_all (Chr c) [] s).
Proof.
  rewrite replace_all_chr. intros H. apply filter_In in H.
  destruct H as [_ H]. rewrite N.eqb_refl in H. discriminate.
Qed.

(* ================================================================== *)
(** * The detail pipeline, extractor by extractor *)
(* ================================================================== *)

Section LookupExtractors.

Import Lookup Views.

Variable d : document.

Lemma set_same (b : BookDetails) :
  set_series (series b) b = b /\ set_numberOfPages (numberOfPages b) b = b
  /\ set_firstPublished (firstPublished b) b = b
  /\ set_description (description b) b = b
  /\ set_settings (settings b) b = b.
Proof. destruct b; repeat split. Qed.

Lemma parseTitleAndSeries_normal (b : BookDetails) :
  parseTitleAndSeries d b =
  Normal (set_title
            (match seriesElement d with
             | _ :: _ => Str (trim (text (bookTitleElement d)))
             | [] => Str (trim (text (titleSection d)))
             end)
            (set_series
               (match seriesElement d with
                | _ :: _ => Str (trim (text (seriesElement d)))
                | [] => series b
                end) b)).
Proof.
  unfold parseTitleAndSeries, seriesElement, bookTitleElement, titleSection.
  destruct (find (select d sel_titleSection) sel_series); [|reflexivity].
  destruct b; reflexivity.
Qed.

Lemma fold_push_authors (f : elem -> jsstring) (l : list elem) (b : BookDetails) :
  fold_left (fun b el => set_authors (authors b ++ [f el]) b) l b
  = set_authors (authors b ++ List.map f l) b.
Proof.
  revert b; induction l as [|x l IH]; intros b; simpl.
  - rewrite app_nil_r. destruct b; reflexivity.
  - rewrite IH. destruct b; simpl. unfold set_authors; simpl.
    rewrite <- app_assoc. reflexivity.
Qed.

Lemma parseAuthors_normal (b : BookDetails) :
  parseAuthors d b = Normal (set_authors (authors b ++ authorNames d) b).
Proof.
  unfold parseAuthors, authorNames. f_equal. apply fold_push_authors.
Qed.

Lemma count_of_normal (r : regex) (s : jsstring) :
  has_group r = true ->
  exists v, count_of (js_match r s) = Normal v /\ stored_count r s v.
Proof.
  intros G. unfold count_of, stored_count.
  destruct (js_match r s) as [arr|] eqn:E.
  - destruct (js_match_group1 r s arr G E) as [g Hg].
    rewrite Hg. simpl. eexists; split; [reflexivity|]. exists g; auto.
  - exists Null; auto.
Qed.

Lemma parseRatings_normal (b : BookDetails) :
  exists nr nv,
    parseRatings d b =
    Normal (set_numberOfReviews nv
              (set_numberOfRatings nr
                 (set_rating (or_null (Str (ratingText d))) b)))
    /\ stored_count re_ratings (metaText d) nr
    /\ stored_count re_reviews (metaText d) nv.
Proof.
  unfold parseRatings. fold (ratingText d). fold (metaText d).
  destruct (count_of_normal re_ratings (metaText d) eq_refl) as (nr & E1 & C1).
  destruct (count_of_normal re_reviews (metaText d) eq_refl) as (nv & E2 & C2).
  exists nr, nv. rewrite E1, E2. simpl. auto.
Qed.

Lemma fold_push_genres (keep : jsstring -> bool) (f : elem -> jsstring)
  (l : list elem) (b : BookDetails) :
  fold_left (fun b el => if keep (f el)
                         then set_genres (genres b ++ [f el]) b else b) l b
  = set_genres (genres b ++ filter keep (List.map f l)) b.
Proof.
  revert b; induction l as [|x l IH]; intros b; simpl.
  - rewrite app_nil_r. destruct b; reflexivity.
  - rewrite IH. destruct (keep (f x)); [|reflexivity].
    destruct b; simpl. unfold set_genres; simpl.
    rewrite <- app_assoc. reflexivity.
Qed.

Lemma parseGenres_normal (b : BookDetails) :
  parseGenres d b =
  Normal (set_genres
            (genres b ++ filter (fun g => negb (str_eqb g (lit "...show all")))
                           (genreChips d)) b).
Proof.
  unfold parseGenres, genreChips. f_equal.
  apply (fold_push_genres (fun g => negb (str_eqb g (lit "...show all")))).
Qed.

Lemma parseGenres_copy_normal (b : BookDetails) :
  LookupCopy.parseGenres d b =
  Normal (set_genres
            (genres b ++ filter (fun g => negb (str_eqb g (lit "...more"))
                                          && negb (str_eqb g (lit "...show all")))
                           (genreChips d)) b).
Proof.
  unfold LookupCopy.parseGenres, genreChips. f_equal.
  apply (fold_push_genres (fun g => negb (str_eqb g (lit "...more"))
                                    && negb (str_eqb g (lit "...show all")))).
Qed.

Lemma parseBasicDetails_normal (b : BookDetails) :
  exists fp,
    parseBasicDetails d b =
    Normal (set_firstPublished fp
              (set_numberOfPages
                 (group1_or re_pages (pagesFormat d) (numberOfPages b)) b))
    /\ match js_match re_firstPublished (publicationInfo d) with
       | Some arr => exists g, m_group1 arr = Str g /\ fp = Str (trim g)
       | None => fp = firstPublished b
       end.
Proof.
  unfold parseBasicDetails, group1_or.
  fold (pagesFormat d). fold (publicationInfo d).
  destruct (js_match re_firstPublished (publicationInfo d)) as [arr|] eqn:E.
  - destruct (js_match_group1 re_firstPublished _ _ eq_refl E) as [g Hg].
    rewrite Hg. simpl. exists (Str (trim g)). split; [|exists g; auto].
    destruct (js_match re_pages (pagesFormat d)); [reflexivity|].
    destruct b; reflexivity.
  - exists (firstPublished b). split; [|reflexivity].
    destruct (js_match re_pages (pagesFormat d)); destruct b; reflexivity.
Qed.

Lemma parseDescription_normal (b : BookDetails) :
  parseDescription d b =
  Normal (set_description
            (match descriptionDiv d with
             | _ :: _ => or_null (Str (descriptionText d))
             | [] => description b
             end) b).
Proof.
  unfold parseDescription, descriptionText, descriptionDiv.
  destruct (select d sel_description); [destruct b|]; reflexivity.
Qed.

Lemma fold_edition (f : elem -> jsstring * jsstring) (l : list elem)
  (b : BookDetails) :
  fold_left (fun b el => set_editionDetails
                           (editionItem (fst (f el)) (snd (f el)) (editionDetails b)) b)
    l b
  = set_editionDetails
      (fold_left (fun ed lv => editionItem (fst lv) (snd lv) ed)
         (List.map f l) (editionDetails b)) b.
Proof.
  revert b; induction l as [|x l IH]; intros b; simpl.
  - destruct b; reflexivity.
  - rewrite IH. destruct b; reflexivity.
Qed.

Lemma parseEditionDetails_normal (b : BookDetails) :
  parseEditionDetails d b =
  Normal (set_editionDetails
            (fold_left (fun ed lv => editionItem (fst lv) (snd lv) ed)
               (editionItems d) (editionDetails b)) b).
Proof.
  unfold parseEditionDetails, editionItems. f_equal.
  apply (fold_edition
           (fun el => (toLowerCase (trim (text (find (wrap el) sel_dt))),
                       trim (text (find (wrap el) sel_dd))))).
Qed.

Lemma parseSettings_normal (b : BookDetails) :
  parseSettings d b =
  Normal (set_settings
            (match settingsContainer d with
             | _ :: _ => spread_new_Set (settingPieces d)
             | [] => settings b
             end) b).
Proof.
  unfold parseSettings, settingPieces, settingsText, settingsContainer.
  destruct (filter _ (select d sel_workDetailsItem)); [destruct b|]; reflexivity.
Qed.

(** The record [parseBookDetails] returns, field by field: the pipeline
    raises no exception, and no extractor touches the field of another. *)
Lemma parseBookDetails_normal :
  exists nr nv fp,
    parseBookDetails d =
    Normal
      (MkBook
         (match seriesElement d with
          | _ :: _ => Str (trim (text (bookTitleElement d)))
          | [] => Str (trim (text (titleSection d)))
          end)
         (match seriesElement d with
          | _ :: _ => Str (trim (text (seriesElement d)))
          | [] => Null
          end)
         (authorNames d)
         (or_null (Str (ratingText d)))
         nr
         nv
         (filter (fun g => negb (str_eqb g (lit "...show all"))) (genreChips d))
         (match settingsContainer d with
          | _ :: _ => spread_new_Set (settingPieces d)
          | [] => []
          end)
         (group1_or re_pages (pagesFormat d) Null)
         fp
         (match descriptionDiv d with
          | _ :: _ => or_null (Str (descriptionText d))
          | [] => Null
          end)
         (or_null (attr (select d sel_cover) (lit "src")))
         (fold_left (fun ed lv => editionItem (fst lv) (snd lv) ed)
            (editionItems d) (MkEdition Null Null Null Null Null Null)))
    /\ stored_count re_ratings (metaText d) nr
    /\ stored_count re_reviews (metaText d) nv
    /\ match js_match re_firstPublished (publicationInfo d) with
       | Some arr => exists g, m_group1 arr = Str g /\ fp = Str (trim g)
       | None => fp = Null
       end.
Proof.
  unfold parseBookDetails.
  rewrite parseTitleAndSeries_normal. cbn [bind].
  rewrite parseAuthors_normal. cbn [bind].
  match goal with |- context [parseRatings d ?b] =>
    destruct (parseRatings_normal b) as (nr & nv & E & C1 & C2) end.
  rewrite E. cbn [bind].
  rewrite parseGenres_normal. cbn [bind].
  match goal with |- context [parseBasicDetails d ?b] =>
    destruct (parseBasicDetails_normal b) as (fp & E' & C3) end.
  rewrite E'. cbn [bind].
  rewrite parseDescription_normal. cbn [bind].
  unfold parseCoverImage. cbn [bind].
  rewrite parseEditionDetails_normal. cbn [bind].
  rewrite parseSettings_normal. cbn [bind].
  exists nr, nv, fp. repeat split; assumption.
Qed.

End LookupExtractors.

(* ================================================================== *)
(** * The search pipeline, row by row *)
(* ================================================================== *)

Section SearchRows.

Import Search RowViews.

Lemma fold_push_row_authors (f : elem -> jsstring) (l : list elem) (b : Book) :
  fold_left (fun b a => set_authors (authors b ++ [f a]) b) l b
  = set_authors (authors b ++ List.map f l) b.
Proof.
  revert b; induction l as [|x l IH]; intros b; simpl.
  - rewrite app_nil_r. destruct b; reflexivity.
  - rewrite IH. destruct b; simpl. unfold set_authors; simpl.
    rewrite <- app_assoc. reflexivity.
Qed.

(** The record the per-row assembler returns, field by field; it raises no
    exception. *)
Lemma parseBookData_normal (row : elem) :
  exists nr,
    parseBookData row =
    Normal (MkBook
              (or_null (Str (titleText row)))
              (authorNames row)
              (or_null (Str (detailsUrlText row)))
              (or_null (optional_group1 (js_match re_show (detailsUrlText row))))
              (group1_or_null re_published (greyText row))
              (group1_or_null re_avgRating (ratingText row))
              nr)
    /\ stored_count re_ratings (ratingText row) nr.
Proof.
  unfold parseBookData, parseAuthors, parsePublishedDate, parseRatings.
  cbn [bind]. rewrite fold_push_row_authors.
  unfold stored_count. fold (ratingText row). fold (greyText row).
  destruct (js_match re_ratings (ratingText row)) as [arr|] eqn:E.
  - destruct (js_match_group1 re_ratings _ _ eq_refl E) as [g Hg].
    rewrite Hg. simpl. eexists; split; [reflexivity|]. exists g; auto.
  - simpl. eexists; split; reflexivity.
Qed.

Lemma parseBookData_total (row : elem) : exists b, parseBookData row = Normal b.
Proof.
  destruct (parseBookData_normal row) as (nr & E & _). eexists; exact E.
Qed.

(** The loop pushes one record per row, in the order of the rows, after
    what the array already holds. *)
Lemma each_row_normal (rows : list elem) :
  forall results, exists bs,
    each_row rows results = Normal (results ++ bs)
    /\ Forall2 (fun row b => parseBookData row = Normal b) rows bs.
Proof.
  induction rows as [|row rows IH]; intros results; simpl.
  - exists []. rewrite app_nil_r. split; constructor.
  - destruct (parseBookData_total row) as [b Hb]. rewrite Hb. simpl.
    destruct (IH (results ++ [b])) as (bs & E & F).
    exists (b :: bs). rewrite E, <- app_assoc. split; [reflexivity|].
    constructor; assumption.
Qed.

End SearchRows.

(* ================================================================== *)
(** * The insertion-ordered set behind the settings *)
(* ================================================================== *)

Section InsertionOrder.

Lemma existsb_str_eqb_In (x : jsstring) (l : list jsstring) :
  existsb (str_eqb x) l = true <-> In x l.
Proof.
  rewrite existsb_exists. split.
  - intros (y & Hy & E). apply str_eqb_eq in E. subst y. exact Hy.
  - intros H. exists x. split; [exact H | apply str_eqb_refl].
Qed.

Lemma set_has_In (s : list jsstring) (x : jsstring) :
  set_has s x = true <-> In x s.
Proof. apply existsb_str_eqb_In. Qed.

Lemma set_add_NoDup (s : list jsstring) (x : jsstring) :
  NoDup s -> NoDup (set_add s x).
Proof.
  intros N. unfold set_add. destruct (set_has s x) eqn:E; [exact N|].
  apply NoDup_app; [exact N | repeat constructor; intros [] | ].
  intros y Hy [<-|[]].
  apply set_has_In in Hy. congruence.
Qed.

Lemma set_add_In (s : list jsstring) (x y : jsstring) :
  In y (set_add s x) <-> In y s \/ y = x.
Proof.
  unfold set_add. destruct (set_has s x) eqn:E.
  - apply set_has_In in E. split; [auto | intros [H| ->]; assumption].
  - rewrite in_app_iff. simpl. intuition.
Qed.

Lemma fold_set_add_NoDup (xs s : list jsstring) :
  NoDup s -> NoDup (fold_left set_add xs s).
Proof.
  revert s; induction xs as [|x xs IH]; intros s N; simpl; [exact N|].
  apply IH, set_add_NoDup, N.
Qed.

Lemma fold_set_add_In (xs s : list jsstring) (y : jsstring) :
  In y (fold_left set_add xs s) <-> In y s \/ In y xs.
Proof.
  revert s; induction xs as [|x xs IH]; intros s; simpl; [tauto|].
  rewrite IH, set_add_In. intuition.
Qed.

(** Spreading the set gives back the array without its repeated entries. *)
Lemma spread_new_Set_NoDup (xs : list jsstring) : NoDup (spread_new_Set xs).
Proof. apply fold_set_add_NoDup. constructor. Qed.

Lemma spread_new_Set_In (xs : list jsstring) (y : jsstring) :
  In y (spread_new_Set xs) <-> In y xs.
Proof. unfold spread_new_Set. rewrite fold_set_add_In. simpl. tauto. Qed.

(** The set holds what was inserted so far; what it answers to [has] is
    what a scan of the entries before would answer. *)
Lemma fold_set_add_first_occurrences (xs s before : list jsstring) :
  (forall y, In y s <-> In y before) ->
  fold_left set_add xs s = s ++ first_occurrences_after before xs.
Proof.
  revert s before; induction xs as [|x xs IH]; intros s before Hs; simpl.
  - rewrite app_nil_r. reflexivity.
  - assert (Hx : set_has s x = existsb (str_eqb x) before).
    { apply eq_true_iff_eq. rewrite set_has_In, existsb_str_eqb_In. apply Hs. }
    unfold set_add at 2. rewrite Hx.
    destruct (existsb (str_eqb x) before) eqn:E.
    + simpl. apply IH. intros y. rewrite in_app_iff, <- Hs. simpl.
      apply existsb_str_eqb_In in E. apply Hs in E.
      split; [auto | intros [H|[<-|[]]]; assumption].
    + rewrite (IH (s ++ [x]) (before ++ [x])).
      * rewrite <- app_assoc. reflexivity.
      * intros y. rewrite !in_app_iff, Hs. tauto.
Qed.

Lemma spread_new_Set_first_occurrences (xs : list jsstring) :
  spread_new_Set xs = first_occurrences xs.
Proof.
  unfold spread_new_Set, first_occurrences.
  rewrite (fold_set_add_first_occurrences xs [] []); [reflexivity | tauto].
Qed.

End InsertionOrder.

(* ================================================================== *)
(** * [trim] *)
(* ================================================================== *)

Section Trim.

Lemma trimStart_head (s : jsstring) (c : char) (t : jsstring) :
  trimStart s = c :: t -> is_space c = false.
Proof.
  induction s as [|x s IH]; simpl; [discriminate|].
  destruct (is_space x) eqn:E; [exact IH|].
  intros H; inversion H; subst; exact E.
Qed.

Lemma trimStart_idem (s : jsstring) : trimStart (trimStart s) = trimStart s.
Proof.
  destruct (trimStart s) as [|c t] eqn:E; [reflexivity|].
  simpl. rewrite (trimStart_head s c t E). reflexivity.
Qed.

Lemma trimStart_snoc (l : jsstring) (c : char) :
  is_space c = false -> trimStart (l ++ [c]) = trimStart l ++ [c].
Proof.
  intros Hc; induction l as [|x l IH]; simpl.
  - rewrite Hc. reflexivity.
  - destruct (is_space x); [exact IH | reflexivity].
Qed.

Lemma trimEnd_idem (s : jsstring) : trimEnd (trimEnd s) = trimEnd s.
Proof. unfold trimEnd. rewrite rev_involutive, trimStart_idem. reflexivity. Qed.

Lemma trimEnd_cons (c : char) (t : jsstring) :
  is_space c = false -> trimEnd (c :: t) = c :: trimEnd t.
Proof.
  intros Hc. unfold trimEnd. simpl.
  rewrite (trimStart_snoc _ c Hc), rev_app_distr. reflexivity.
Qed.

(** What [trim] returns has no white space left at either end. *)
Lemma trim_idem (s : jsstring) : trim (trim s) = trim s.
Proof.
  unfold trim.
  destruct (trimStart s) as [|c t] eqn:E; [reflexivity|].
  pose proof (trimStart_head s c t E) as Hc.
  rewrite (trimEnd_cons c t Hc). simpl. rewrite Hc.
  rewrite <- (trimEnd_cons c t Hc). apply trimEnd_idem.
Qed.

End Trim.

(* ================================================================== *)
(** * The matcher finds only what the pattern matches *)
(* ================================================================== *)

Section MatcherSoundness.

Lemma star_loop_sound (r : regex) :
  (forall st k res, run r st k = Some res -> consumed r st k res) ->
  forall fuel st k res,
    star_loop (run r) k fuel st = Some res -> consumed (Star r) st k res.
Proof.
  intros Hbody; induction fuel as [|fuel IH]; intros st k res H; simpl in H.
  - exists [], (ms_rest st), (ms_cap st). rewrite Nat.add_0_r.
    destruct st; repeat split; [constructor | exact H].
  - destruct (run r st _) as [res'|] eqn:E.
    + inversion H; subst res'; clear H.
      apply Hbody in E. destruct E as (w1 & rest1 & c1 & R1 & M1 & K1).
      cbn [ms_pos] in K1. destruct (Nat.ltb _ _); [|discriminate].
      apply IH in K1. destruct K1 as (w2 & rest2 & c2 & R2 & M2 & K2).
      cbn [ms_pos ms_rest ms_cap] in *.
      exists (w1 ++ w2), rest2, c2. repeat split.
      * rewrite R1, R2, app_assoc. reflexivity.
      * econstructor; eassumption.
      * rewrite length_app, Nat.add_assoc. exact K2.
    + exists [], (ms_rest st), (ms_cap st). rewrite Nat.add_0_r.
      destruct st; repeat split; [constructor | exact H].
Qed.

Lemma run_sound (r : regex) :
  forall st k res, run r st k = Some res -> consumed r st k res.
Proof.
  induction r as [| c | p | | r1 IH1 r2 IH2 | r IH | r IH]; intros st k res H;
    cbn [run] in H.
  - exists [], (ms_rest st), (ms_cap st). rewrite Nat.add_0_r.
    destruct st; repeat split; [constructor | exact H].
  - destruct st as [pos rest cap]; cbn [ms_rest ms_pos ms_cap] in *.
    destruct rest as [|x t]; [discriminate|].
    destruct (N.eqb x c) eqn:E; [|discriminate]. apply N.eqb_eq in E. subst x.
    exists [c], t, cap. cbn [ms_rest ms_pos ms_cap length]. repeat split.
    + constructor.
    + rewrite Nat.add_1_r. exact H.
  - destruct st as [pos rest cap]; cbn [ms_rest ms_pos ms_cap] in *.
    destruct rest as [|x t]; [discriminate|].
    destruct (p x) eqn:E; [|discriminate].
    exists [x], t, cap. cbn [ms_rest ms_pos ms_cap length]. repeat split.
    + constructor; exact E.
    + rewrite Nat.add_1_r. exact H.
  - destruct st as [pos rest cap]; cbn [ms_rest ms_pos ms_cap] in *.
    destruct pos; [|discriminate]. cbn in H.
    exists [], rest, cap. repeat split; [constructor | exact H].
  - apply IH1 in H. destruct H as (w1 & rest1 & c1 & R1 & M1 & K1).
    apply IH2 in K1. destruct K1 as (w2 & rest2 & c2 & R2 & M2 & K2).
    cbn [ms_pos ms_rest ms_cap] in *.
    exists (w1 ++ w2), rest2, c2. repeat split.
    + rewrite R1, R2, app_assoc. reflexivity.
    + econstructor; eassumption.
    + rewrite length_app, Nat.add_assoc. exact K2.
  - eapply star_loop_sound; [exact IH | exact H].
  - apply IH in H. destruct H as (w & rest' & c1 & R & M & K).
    cbn [ms_pos ms_rest ms_cap] in K.
    exists w, rest', (Str w). repeat split.
    + exact R.
    + econstructor; exact M.
    + replace (ms_pos st + length w - ms_pos st) with (length w) in K by lia.
      rewrite R, firstn_app, Nat.sub_diag, firstn_all in K.
      simpl in K. rewrite app_nil_r in K. exact K.
Qed.

(** A successful [match]: where the match is, what it is and what group 1
    holds. *)
Lemma search_sound (r : regex) (rest : jsstring) :
  forall pos m, search r pos rest = Some m ->
  exists pre w post,
    rest = pre ++ w ++ post
    /\ matches r (pos + length pre) w Undefined (m_group1 m)
    /\ m_whole m = w
    /\ m_index m = pos + length pre.
Proof.
  induction rest as [|x t IH]; intros pos m H; cbn [search] in H.
  - destruct (run r _ Some) as [st|] eqn:E; [|discriminate].
    apply run_sound in E. destruct E as (w & rest' & c' & R & M & K).
    cbn [ms_pos ms_rest ms_cap] in *. inversion K; subst st; clear K.
    inversion H; subst m; clear H. cbn [ms_pos ms_cap m_group1 m_whole m_index].
    exists [], w, rest'. simpl. rewrite Nat.add_0_r. repeat split; try assumption.
    replace (pos + length w - pos) with (length w) by lia.
    rewrite R, firstn_app, Nat.sub_diag, firstn_all. simpl.
    apply app_nil_r.
  - destruct (run r _ Some) as [st|] eqn:E.
    + apply run_sound in E. destruct E as (w & rest' & c' & R & M & K).
      cbn [ms_pos ms_rest ms_cap] in *. inversion K; subst st; clear K.
      inversion H; subst m; clear H.
      cbn [ms_pos ms_cap m_group1 m_whole m_index].
      exists [], w, rest'. simpl. rewrite Nat.add_0_r.
      repeat split; try assumption.
      replace (pos + length w - pos) with (length w) by lia.
      rewrite R, firstn_app, Nat.sub_diag, firstn_all. simpl.
      apply app_nil_r.
    + apply IH in H. destruct H as (pre & w & post & R & M & W & I).
      exists (x :: pre), w, post. simpl.
      rewrite <- Nat.add_succ_comm. repeat split; try assumption.
      rewrite R. reflexivity.
Qed.

Lemma js_match_sound (r : regex) (s : jsstring) (m : MatchResult) :
  js_match r s = Some m ->
  exists pre w post,
    s = pre ++ w ++ post
    /\ matches r (length pre) w Undefined (m_group1 m)
    /\ m_whole m = w
    /\ m_index m = length pre.
Proof. intros H. apply search_sound in H. exact H. Qed.

(** ** Inversion of the matching relation *)

Lemma matches_Eps_inv pos w c c' :
  matches Eps pos w c c' -> w = [] /\ c' = c.
Proof. intros H; inversion H; subst; auto. Qed.

Lemma matches_Chr_inv x pos w c c' :
  matches (Chr x) pos w c c' -> w = [x] /\ c' = c.
Proof. intros H; inversion H; subst; auto. Qed.

Lemma matches_Class_inv p pos w c c' :
  matches (Class p) pos w c c' -> exists x, w = [x] /\ p x = true /\ c' = c.
Proof. intros H; inversion H; subst; eauto. Qed.

Lemma matches_Bol_inv pos w c c' :
  matches Bol pos w c c' -> pos = 0 /\ w = [] /\ c' = c.
Proof. intros H; inversion H; subst; auto. Qed.

Lemma matches_Seq_inv r1 r2 pos w c c2 :
  matches (Seq r1 r2) pos w c c2 ->
  exists w1 w2 c1,
    w = w1 ++ w2 /\ matches r1 pos w1 c c1
    /\ matches r2 (pos + length w1) w2 c1 c2.
Proof. intros H; inversion H; subst; eauto 7. Qed.

Lemma matches_Group_inv r pos w c c' :
  matches (Group r) pos w c c' -> c' = Str w /\ exists c1, matches r pos w c c1.
Proof. intros H; inversion H; subst; eauto. Qed.

(** ** What the patterns of the source match *)

Lemma matches_Lit (s : jsstring) :
  forall pos w c c', matches (Lit s) pos w c c' -> w = s /\ c' = c.
Proof.
  induction s as [|x s IH]; intros pos w c c' H; simpl in H.
  - apply matches_Eps_inv in H. exact H.
  - apply matches_Seq_inv in H. destruct H as (w1 & w2 & c1 & -> & H1 & H2).
    apply matches_Chr_inv in H1. destruct H1 as [-> ->].
    apply IH in H2. destruct H2 as [-> ->]. auto.
Qed.

Lemma matches_Rep_Class (p : char -> bool) (n : nat) :
  forall pos w c c', matches (Rep n (Class p)) pos w c c' ->
  length w = n /\ forallb p w = true /\ c' = c.
Proof.
  induction n as [|n IH]; intros pos w c c' H; simpl in H.
  - apply matches_Eps_inv in H. destruct H as [-> ->]. auto.
  - apply matches_Seq_inv in H. destruct H as (w1 & w2 & c1 & -> & H1 & H2).
    apply matches_Class_inv in H1. destruct H1 as (x & -> & Px & ->).
    apply IH in H2. destruct H2 as (L & F & ->).
    simpl. rewrite L, Px, F. auto.
Qed.

Lemma matches_Star_Class (p : char -> bool) :
  forall pos w c c', matches (Star (Class p)) pos w c c' ->
  forallb p w = true /\ c' = c.
Proof.
  intros pos w c c' H.
  remember (Star (Class p)) as r eqn:Er.
  induction H; try discriminate.
  - auto.
  - inversion Er; subst r.
    apply matches_Class_inv in H. destruct H as (x & -> & Px & ->).
    destruct (IHmatches2 eq_refl) as [F ->].
    simpl. rewrite Px, F. auto.
Qed.

Lemma matches_Plus_Class (p : char -> bool) :
  forall pos w c c', matches (Plus (Class p)) pos w c c' ->
  w <> [] /\ forallb p w = true /\ c' = c.
Proof.
  intros pos w c c' H. unfold Plus in H.
  apply matches_Seq_inv in H. destruct H as (w1 & w2 & c1 & -> & H1 & H2).
  apply matches_Class_inv in H1. destruct H1 as (x & -> & Px & ->).
  apply matches_Star_Class in H2. destruct H2 as [F ->].
  simpl. rewrite Px, F. repeat split; discriminate.
Qed.

End MatcherSoundness.

(* ================================================================== *)
(** * The fuel of the [Star] loop is never what stops it *)
(* ================================================================== *)

Section Fuel.

Lemma reaches_refl (st : mstate) : reaches st st.
Proof. exists []. simpl. split; [reflexivity | lia]. Qed.

Lemma reaches_trans (a b c : mstate) : reaches a b -> reaches b c -> reaches a c.
Proof.
  intros (w1 & R1 & P1) (w2 & R2 & P2). exists (w1 ++ w2).
  rewrite R1, R2, P2, P1, length_app, app_assoc. split; [reflexivity | lia].
Qed.

Lemma reaches_shorter (st st' : mstate) :
  reaches st st' -> ms_pos st < ms_pos st' ->
  length (ms_rest st') < length (ms_rest st).
Proof.
  intros (w & R & P) L. rewrite R, length_app. lia.
Qed.

(** The loop itself, for a body that calls its continuation on states
    further on only. *)
Lemma star_loop_ext
  (body : mstate -> (mstate -> option mstate) -> option mstate) :
  (forall st k1 k2, (forall st', reaches st st' -> k1 st' = k2 st') ->
                    body st k1 = body st k2) ->
  forall fuel st k1 k2,
    (forall st', reaches st st' -> k1 st' = k2 st') ->
    star_loop body k1 fuel st = star_loop body k2 fuel st.
Proof.
  intros Hbody; induction fuel as [|fuel IH]; intros st k1 k2 H; simpl.
  - apply H, reaches_refl.
  - rewrite (H st (reaches_refl st)).
    rewrite (Hbody st _ (fun st1 => if Nat.ltb (ms_pos st) (ms_pos st1)
                                    then star_loop body k2 fuel st1 else None));
      [reflexivity|].
    intros st1 R1. destruct (Nat.ltb _ _); [|reflexivity].
    apply IH. intros st' R'. apply H. eapply reaches_trans; eassumption.
Qed.

(** The matcher calls its continuation on states further on only. *)
Lemma run_ext (r : regex) :
  forall st k1 k2,
    (forall st', reaches st st' -> k1 st' = k2 st') ->
    run r st k1 = run r st k2.
Proof.
  induction r as [| c | p | | r1 IH1 r2 IH2 | r IH | r IH]; intros st k1 k2 H;
    cbn [run].
  - apply H, reaches_refl.
  - destruct (ms_rest st) as [|x t] eqn:E; [reflexivity|].
    destruct (N.eqb x c); [|reflexivity]. apply H.
    exists [x]. simpl. rewrite E. split; [reflexivity | lia].
  - destruct (ms_rest st) as [|x t] eqn:E; [reflexivity|].
    destruct (p x); [|reflexivity]. apply H.
    exists [x]. simpl. rewrite E. split; [reflexivity | lia].
  - destruct (Nat.eqb _ _); [|reflexivity]. apply H, reaches_refl.
  - apply IH1. intros st1 R1. apply IH2. intros st2 R2.
    apply H. eapply reaches_trans; eassumption.
  - apply star_loop_ext; assumption.
  - apply IH. intros st1 R1. apply H.
    destruct R1 as (w & R & P). exists w. simpl. auto.
Qed.

Lemma star_loop_S
  (body : mstate -> (mstate -> option mstate) -> option mstate)
  (k : mstate -> option mstate) (fuel : nat) (st : mstate) :
  star_loop body k (S fuel) st
  = match body st (fun st1 => if Nat.ltb (ms_pos st) (ms_pos st1)
                              then star_loop body k fuel st1 else None) with
    | Some res => Some res
    | None => k st
    end.
Proof. reflexivity. Qed.

(** More fuel than the subject has code units left changes nothing. *)
Lemma star_loop_enough_fuel (r : regex) :
  forall fuel st k,
    length (ms_rest st) < fuel ->
    star_loop (run r) k (S fuel) st = star_loop (run r) k fuel st.
Proof.
  induction fuel as [|fuel IH]; intros st k L; [lia|].
  rewrite (star_loop_S _ k (S fuel)), (star_loop_S _ k fuel).
  rewrite (run_ext r st
             (fun st1 => if Nat.ltb (ms_pos st) (ms_pos st1)
                         then star_loop (run r) k (S fuel) st1 else None)
             (fun st1 => if Nat.ltb (ms_pos st) (ms_pos st1)
                         then star_loop (run r) k fuel st1 else None));
    [reflexivity|].
  intros st1 R1. destruct (Nat.ltb _ _) eqn:E; [|reflexivity].
  apply IH. apply Nat.ltb_lt in E.
  pose proof (reaches_shorter st st1 R1 E). lia.
Qed.

Lemma run_Star_any_fuel (r : regex) (st : mstate) (k : mstate -> option mstate)
  (extra : nat) :
  star_loop (run r) k (S (length (ms_rest st)) + extra) st = run (Star r) st k.
Proof.
  cbn [run]. induction extra as [|extra IH].
  - rewrite Nat.add_0_r. reflexivity.
  - rewrite Nat.add_succ_r, star_loop_enough_fuel; [exact IH | lia].
Qed.

End Fuel.

(* ================================================================== *)
(** * The patterns of the detail pipeline *)
(* ================================================================== *)

Section LookupPatterns.

Import Lookup Views.

(** [/^(\d{13})/] matches only at index 0, and its group is the first
    thirteen code units, all digits. *)
Lemma re_isbn13_sound (val : jsstring) (m : MatchResult) :
  js_match re_isbn13 val = Some m ->
  exists g post,
    val = g ++ post /\ length g = 13 /\ forallb is_digit g = true
    /\ m_group1 m = Str g /\ m_index m = 0.
Proof.
  intros H. apply js_match_sound in H.
  destruct H as (pre & w & post & V & M & _ & I).
  unfold re_isbn13 in M. apply matches_Seq_inv in M.
  destruct M as (w1 & w2 & c1 & -> & M1 & M2).
  apply matches_Bol_inv in M1. destruct M1 as (P & -> & ->).
  apply matches_Group_inv in M2. destruct M2 as (G & c2 & M2).
  apply matches_Rep_Class in M2. destruct M2 as (L & F & _).
  destruct pre; [|discriminate]. simpl in V.
  exists w2, post. rewrite I. auto.
Qed.

Lemma run_Rep_Class (p : char -> bool) (n : nat) :
  forall g post pos c k,
    length g = n -> forallb p g = true ->
    run (Rep n (Class p)) (MState pos (g ++ post) c) k
    = k (MState (pos + n) post c).
Proof.
  induction n as [|n IH]; intros g post pos c k L F.
  - destruct g; [|discriminate]. simpl. rewrite Nat.add_0_r. reflexivity.
  - destruct g as [|x g]; [discriminate|]. simpl in L, F.
    apply andb_true_iff in F. destruct F as [Px F].
    cbn [Rep run ms_rest app]. rewrite Px. unfold advance. cbn [ms_pos ms_cap].
    rewrite IH; [|lia|exact F]. rewrite Nat.add_succ_comm. reflexivity.
Qed.

(** Thirteen leading digits are always found. *)
Lemma re_isbn13_complete (g post : jsstring) :
  length g = 13 -> forallb is_digit g = true ->
  js_match re_isbn13 (g ++ post) = Some (MkMatch 0 g (Str g)).
Proof.
  intros L F.
  assert (Fg : firstn 13 (g ++ post) = g).
  { rewrite <- L, firstn_app, Nat.sub_diag, firstn_all. simpl.
    apply app_nil_r. }
  assert (R : run re_isbn13 (MState 0 (g ++ post) Undefined) Some
              = Some (MState 13 post (Str g))).
  { unfold re_isbn13. cbn [run ms_pos Nat.eqb].
    rewrite (run_Rep_Class is_digit 13 g post 0 Undefined _ L F).
    cbn [ms_pos ms_rest Nat.add Nat.sub]. rewrite Fg. reflexivity. }
  unfold js_match. destruct (g ++ post) as [|x t] eqn:E.
  - destruct g; discriminate.
  - cbn [search]. rewrite R. cbn [ms_pos ms_cap Nat.sub].
    rewrite Fg. reflexivity.
Qed.

(** [/ISBN10:\s*(\d{10})/]: the group is ten digits that follow the marker
    [ISBN10:] and white space. *)
Lemma re_isbn10_sound (val : jsstring) (m : MatchResult) :
  js_match re_isbn10 val = Some m ->
  exists pre ws g post,
    val = pre ++ lit "ISBN10:" ++ ws ++ g ++ post
    /\ forallb is_space ws = true
    /\ length g = 10 /\ forallb is_digit g = true
    /\ m_group1 m = Str g.
Proof.
  intros H. apply js_match_sound in H.
  destruct H as (pre & w & post & V & M & _ & _).
  unfold re_isbn10 in M. apply matches_Seq_inv in M.
  destruct M as (w1 & w' & c1 & -> & M1 & M').
  apply matches_Lit in M1. destruct M1 as [-> ->].
  apply matches_Seq_inv in M'. destruct M' as (ws & g & c2 & -> & M2 & M3).
  apply matches_Star_Class in M2. destruct M2 as [Fs ->].
  apply matches_Group_inv in M3. destruct M3 as (G & c3 & M3).
  apply matches_Rep_Class in M3. destruct M3 as (L & F & _).
  exists pre, ws, g, post. rewrite V, <- !app_assoc. auto.
Qed.

Lemma matches_thousands (w : jsstring) :
  forall pos c c',
    matches (Star (Seq (Chr comma) (Plus digit))) pos w c c' ->
    forallb digit_or_comma w = true /\ c' = c.
Proof.
  intros pos c c' H.
  remember (Star (Seq (Chr comma) (Plus digit))) as r eqn:Er.
  induction H; try discriminate.
  - auto.
  - inversion Er; subst r.
    apply matches_Seq_inv in H. destruct H as (u1 & u2 & c3 & -> & H1 & H2).
    apply matches_Chr_inv in H1. destruct H1 as [-> ->].
    apply matches_Plus_Class in H2. destruct H2 as (_ & F & ->).
    destruct (IHmatches2 eq_refl) as [F' ->]. split; [|reflexivity].
    assert (A : forallb digit_or_comma [comma] = true) by reflexivity.
    assert (B : forallb digit_or_comma u2 = true).
    { apply forallb_forall. intros x Hx. unfold digit_or_comma.
      rewrite (proj1 (forallb_forall _ _) F x Hx). reflexivity. }
    rewrite !forallb_app, A, B, F'. reflexivity.
Qed.

Lemma digit_not_comma (x : char) : is_digit x = true -> N.eqb x comma = false.
Proof.
  unfold is_digit, comma. intros H. apply andb_true_iff in H.
  destruct H as [A _]. apply N.leb_le in A. apply N.eqb_neq. lia.
Qed.

(** The group of the two count patterns is a digit followed by digits and
    commas: without its commas it is a run of digits, and not empty. *)
Lemma matches_re_count (w : jsstring) (pos : nat) (c c' : value) :
  matches re_count pos w c c' ->
  c' = Str w
  /\ replace_all re_comma [] w <> []
  /\ forallb is_digit (replace_all re_comma [] w) = true.
Proof.
  intros H. unfold re_count in H.
  apply matches_Group_inv in H. destruct H as (-> & c1 & H).
  apply matches_Seq_inv in H. destruct H as (w1 & w2 & c2 & -> & H1 & H2).
  apply matches_Plus_Class in H1. destruct H1 as (N1 & F1 & ->).
  apply matches_thousands in H2. destruct H2 as [F2 _].
  split; [reflexivity|]. unfold re_comma. rewrite replace_all_chr, filter_app.
  match goal with |- context [filter ?f w1] =>
    assert (E1 : @filter char f w1 = w1) end.
  { apply forallb_filter_id. apply forallb_forall. intros x Hx.
    rewrite (digit_not_comma x); [reflexivity|].
    exact (proj1 (forallb_forall _ _) F1 x Hx). }
  rewrite E1. split.
  - destruct w1; [contradiction | discriminate].
  - rewrite forallb_app, F1. simpl.
    apply forallb_forall. intros x Hx. apply filter_In in Hx.
    destruct Hx as [Hx Nx].
    pose proof (proj1 (forallb_forall _ _) F2 x Hx) as D.
    unfold digit_or_comma in D. destruct (N.eqb x comma); [discriminate|].
    rewrite orb_false_r in D. exact D.
Qed.

Lemma count_then_sound (word : string) (s : jsstring) (m : MatchResult) :
  js_match (count_then word) s = Some m ->
  exists pre g ws post,
    s = pre ++ g ++ ws ++ lit word ++ post
    /\ ws <> [] /\ forallb is_space ws = true
    /\ m_group1 m = Str g
    /\ replace_all re_comma [] g <> []
    /\ forallb is_digit (replace_all re_comma [] g) = true.
Proof.
  intros H. apply js_match_sound in H.
  destruct H as (pre & w & post & V & M & _ & _).
  unfold count_then in M. apply matches_Seq_inv in M.
  destruct M as (g & w' & c1 & -> & M1 & M').
  apply matches_re_count in M1. destruct M1 as (-> & NE & D).
  apply matches_Seq_inv in M'. destruct M' as (ws & w3 & c2 & -> & M2 & M3).
  apply matches_Plus_Class in M2. destruct M2 as (Nw & Fw & ->).
  apply matches_Lit in M3. destruct M3 as [-> ->].
  exists pre, g, ws, post. rewrite V, <- !app_assoc. auto 10.
Qed.

(** A stored count is a count written before the pattern's word. *)
Lemma stored_count_before (word : string) (s : jsstring) (v : jsstring) :
  stored_count (count_then word) s (Str v) -> count_before word s v.
Proof.
  unfold stored_count. destruct (js_match (count_then word) s) as [m|] eqn:E;
    [|discriminate].
  intros (g & G & V). inversion V; subst v; clear V.
  apply count_then_sound in E.
  destruct E as (pre & g' & ws & post & S & Nw & Fw & G' & NE & D).
  rewrite G in G'. inversion G'; subst g'.
  exists pre, g, ws, post. auto 10.
Qed.

End LookupPatterns.

(* ================================================================== *)
(** * Queries return elements in document order *)
(* ================================================================== *)

Section DocumentOrder.

Lemma node_nested_ind (P : node -> Prop) :
  (forall data, P (Text data)) ->
  (forall name attrs ch, Forall P ch -> P (Element name attrs ch)) ->
  forall n, P n.
Proof.
  intros HT HE. fix IH 1. intros [data | name attrs ch].
  - apply HT.
  - apply HE. induction ch as [|c ch IHch]; constructor;
      [apply IH | apply IHch].
Qed.

Lemma elements_of_Element (anc : list header) (path : list nat)
  (name : jsstring) (attrs : list (jsstring * jsstring)) (ch : list node) :
  elements_of anc path (Element name attrs ch)
  = Elem (Header path name attrs) anc ch
    :: elements_in (Header path name attrs :: anc) path 0 ch.
Proof.
  cbn [elements_of]. f_equal. generalize 0.
  induction ch as [|c ch IH]; intros i; [reflexivity|].
  cbn [elements_in]. rewrite <- IH. reflexivity.
Qed.

Lemma path_before_app (p a b : list nat) :
  path_before a b -> path_before (p ++ a) (p ++ b).
Proof. induction p as [|x p IH]; simpl; auto. Qed.

Lemma path_before_below (p : list nat) (j : nat) (s : list nat) :
  path_before p (p ++ j :: s).
Proof.
  rewrite <- (app_nil_r p) at 1. apply path_before_app. exact I.
Qed.

Lemma path_before_trans (p q r : list nat) :
  path_before p q -> path_before q r -> path_before p r.
Proof.
  revert q r; induction p as [|x p IH]; intros [|y q] [|z r]; simpl;
    try tauto.
  intros [A|[-> A]] [B|[-> B]]; [left; lia | left; lia | left; lia |].
  right. split; [reflexivity | eapply IH; eassumption].
Qed.

Lemma path_before_irrefl (p : list nat) : ~ path_before p p.
Proof. induction p as [|x p IH]; simpl; [tauto|]. intros [A|[_ A]]; [lia | auto]. Qed.

Lemma StronglySorted_app {A : Type} (R : A -> A -> Prop) (l1 l2 : list A) :
  StronglySorted R l1 -> StronglySorted R l2 ->
  (forall a b, In a l1 -> In b l2 -> R a b) ->
  StronglySorted R (l1 ++ l2).
Proof.
  induction l1 as [|x l1 IH]; intros S1 S2 C; simpl; [exact S2|].
  inversion S1; subst. constructor.
  - apply IH; [assumption | assumption | intros a b Ha Hb; apply C; simpl; auto].
  - apply Forall_app. split; [assumption|].
    apply Forall_forall. intros b Hb. apply C; simpl; auto.
Qed.

Lemma StronglySorted_filter {A : Type} (R : A -> A -> Prop) (f : A -> bool)
  (l : list A) :
  StronglySorted R l -> StronglySorted R (filter f l).
Proof.
  induction 1 as [|x l S IH F]; simpl; [constructor|].
  destruct (f x); [|exact IH]. constructor; [exact IH|].
  apply Forall_forall. intros y Hy. apply filter_In in Hy.
  exact (proj1 (Forall_forall _ _) F y (proj1 Hy)).
Qed.

Lemma elements_in_sorted (l : list node) :
  Forall (fun n => forall anc path,
            StronglySorted before (elements_of anc path n)
            /\ Forall (below_node path) (elements_of anc path n)) l ->
  forall anc path i,
    StronglySorted before (elements_in anc path i l)
    /\ Forall (below_siblings path i) (elements_in anc path i l).
Proof.
  induction 1 as [|c l Hc Hl IH]; intros anc path i; cbn [elements_in].
  - split; constructor.
  - destruct (Hc anc (path ++ [i])) as [Sc Bc].
    destruct (IH anc path (S i)) as [Sl Bl].
    assert (Bc' : Forall (below_siblings path i)
                    (elements_of anc (path ++ [i]) c)).
    { apply Forall_forall. intros e He.
      destruct (proj1 (Forall_forall _ _) Bc e He) as [s Es].
      exists i, s. split; [lia|]. rewrite Es, <- app_assoc. reflexivity. }
    assert (Bl' : Forall (below_siblings path i)
                    (elements_in anc path (S i) l)).
    { apply Forall_forall. intros e He.
      destruct (proj1 (Forall_forall _ _) Bl e He) as (j & s & Lj & Es).
      exists j, s. split; [lia | exact Es]. }
    split; [|apply Forall_app; split; assumption].
    apply StronglySorted_app; [assumption | assumption |].
    intros a b Ha Hb.
    destruct (proj1 (Forall_forall _ _) Bc a Ha) as [s Ea].
    destruct (proj1 (Forall_forall _ _) Bl b Hb) as (j & t & Lj & Eb).
    unfold before. rewrite Ea, Eb, <- app_assoc.
    apply path_before_app. simpl. left. lia.
Qed.

Lemma elements_of_sorted (n : node) :
  forall anc path,
    StronglySorted before (elements_of anc path n)
    /\ Forall (below_node path) (elements_of anc path n).
Proof.
  induction n as [data | name attrs ch IH] using node_nested_ind;
    intros anc path.
  - split; constructor.
  - rewrite elements_of_Element.
    destruct (elements_in_sorted ch IH (Header path name attrs :: anc) path 0)
      as [S B].
    split.
    + constructor; [exact S|].
      apply Forall_forall. intros e He.
      destruct (proj1 (Forall_forall _ _) B e He) as (j & s & _ & Es).
      unfold before. rewrite Es. apply path_before_below.
    + constructor.
      * exists []. simpl. rewrite app_nil_r. reflexivity.
      * apply Forall_forall. intros e He.
        destruct (proj1 (Forall_forall _ _) B e He) as (j & s & _ & Es).
        exists (j :: s). exact Es.
Qed.

(** The elements of a document are listed in document order. *)
Lemma elements_sorted (d : document) : StronglySorted before (elements d).
Proof.
  unfold elements.
  assert (H : Forall (fun n => forall anc path,
                        StronglySorted before (elements_of anc path n)
                        /\ Forall (below_node path) (elements_of anc path n)) d).
  { apply Forall_forall. intros n _. apply elements_of_sorted. }
  exact (proj1 (elements_in_sorted d H [] [] 0)).
Qed.

(** What [$(sel)] returns is in document order, and holds no element
    twice. *)
Lemma select_sorted (d : document) (sel : selector) :
  StronglySorted before (select d sel).
Proof. apply StronglySorted_filter, elements_sorted. Qed.

Lemma sorted_NoDup (l : list elem) : StronglySorted before l -> NoDup l.
Proof.
  induction 1 as [|x l S IH F]; constructor; [|exact IH].
  intros Hx. apply (path_before_irrefl (elem_path x)).
  exact (proj1 (Forall_forall _ _) F x Hx).
Qed.

Lemma select_NoDup (d : document) (sel : selector) : NoDup (select d sel).
Proof. apply sorted_NoDup, select_sorted. Qed.

End DocumentOrder.
(* ================================================================== *)
(** * A text and the text nodes it is made of *)
(* ================================================================== *)

Section TextNodes.











End TextNodes.


(* ================================================================== *)
(** * The search pipeline: rows and their records *)
(* ================================================================== *)

Section SearchRecords.

Import Search RowViews Samples.

(** C1, on the code: a row whose title link has no [href].  The site root
    is concatenated with [undefined] before the test for an absent value,
    so the record's [detailsUrl] is the string
    [https://www.goodreads.comundefined] and not [null]; [goodreadsId] is
    [null] and the other five fields are extracted as for any row. *)
Theorem C1_row_without_href_gets_a_details_url :
  parseSearchResults no_href_page =
  Normal [MkBook (Str (lit "Hell House"))
                 [lit "Richard Matheson"]
                 (Str (lit "https://www.goodreads.comundefined"))
                 Null
                 (Str (lit "1971"))
                 (Str (lit "3.73"))
                 (Str (lit "55061"))].
Proof. vm_compute. reflexivity. Qed.

(** The same for every row: without an [href] on the title link the
    [detailsUrl] is that string, whatever else the row holds. *)
Lemma row_without_href_details_url (row : elem) :
  href row = Undefined ->
  exists book,
    parseBookData row = Normal book
    /\ detailsUrl book = Str (lit "https://www.goodreads.comundefined")
    /\ goodreadsId book = Null
    /\ title book = or_null (Str (titleText row))
    /\ authors book = authorNames row
    /\ publishedYear book = group1_or_null re_published (greyText row)
    /\ averageRating book = group1_or_null re_avgRating (ratingText row)
    /\ stored_count re_ratings (ratingText row) (numberOfRatings book).
Proof.
  intros H. destruct (parseBookData_normal row) as (nr & E & C).
  eexists; split; [exact E|]. cbn [detailsUrl goodreadsId title authors
    publishedYear averageRating numberOfRatings].
  unfold detailsUrlText. rewrite H.
  repeat split; try assumption; vm_compute; reflexivity.
Qed.

Lemma row_without_href_details_url_example :
  exists row,
    select no_href_page sel_row = [row]
    /\ href row = Undefined
    /\ exists book,
         parseBookData row = Normal book
         /\ detailsUrl book = Str (lit "https://www.goodreads.comundefined")
         /\ goodreadsId book = Null.
Proof.
  eexists. split; [vm_compute; reflexivity|].
  match goal with |- href ?r = _ /\ _ =>
    assert (H : href r = Undefined) by (vm_compute; reflexivity);
    split; [exact H|];
    destruct (row_without_href_details_url r H) as (b & E & U & G & _)
  end.
  exists b; auto.
Defined.

(** C9. For every search-results document the list extractor returns
    normally, with one record per book-row node: the rows are the elements
    of the document that match the row selector, each once and in document
    order, and the records are, in that order, what the per-row assembler
    makes of each row; so there are as many records as rows, and none when
    no row matches. *)
Theorem C9_one_record_per_row_in_document_order (d : document) :
  exists results,
    parseSearchResults d = Normal results
    /\ Forall2 (fun row book => parseBookData row = Normal book)
         (select d sel_row) results
    /\ StronglySorted before (select d sel_row)
    /\ NoDup (select d sel_row)
    /\ (forall e, In e (select d sel_row) <->
                  In e (elements d) /\ sel_match sel_row e <> None)
    /\ length results = length (select d sel_row)
    /\ (select d sel_row = [] -> results = []).
Proof.
  unfold parseSearchResults.
  destruct (each_row_normal (select d sel_row) []) as (bs & E & F).
  exists bs. simpl in E. split; [exact E|]. split; [exact F|].
  split; [apply select_sorted|]. split; [apply select_NoDup|]. split.
  { intros e. unfold select. rewrite filter_In.
    destruct (sel_match sel_row e); intuition congruence. }
  pose proof (Forall2_length F) as L. split; [congruence|].
  intros H. rewrite H in L. destruct bs; [reflexivity | discriminate].
Qed.

(** Two rows give two records, in the order of the rows. *)
Lemma two_rows_give_two_records_in_order :
  exists first second,
    parseSearchResults two_rows_page = Normal [first; second]
    /\ title first = Str (lit "Hell House")
    /\ goodreadsId first = Str (lit "33547")
    /\ title second = Str (lit "Summary & Study Guide Hell House")
    /\ goodreadsId second = Str (lit "20388946")
    /\ parseSearchResults no_rows_page = Normal [].
Proof. do 2 eexists. repeat split; vm_compute; reflexivity. Qed.

(** The search pipeline raises no exception, whatever the document. *)
Lemma parseSearchResults_total (d : document) :
  exists results, parseSearchResults d = Normal results.
Proof.
  unfold parseSearchResults.
  destruct (each_row_normal (select d sel_row) []) as (bs & E & _).
  eexists; exact E.
Qed.

(** A field of a row whose selector finds nothing in the row falls back to
    its absence value; [detailsUrl] is the one exception (see C1). *)
Lemma row_fields_fall_back (row : elem) :
  exists book,
    parseBookData row = Normal book
    /\ (find (wrap row) sel_bookTitleName = [] -> title book = Null)
    /\ (find (wrap row) sel_authorContainer = [] -> authors book = [])
    /\ (find (wrap row) sel_greyText = [] -> publishedYear book = Null)
    /\ (find (wrap row) sel_minirating = [] ->
        averageRating book = Null /\ numberOfRatings book = Null)
    /\ (find (wrap row) sel_bookTitle = [] ->
        detailsUrl book = Str (lit "https://www.goodreads.comundefined")
        /\ goodreadsId book = Null).
Proof.
  destruct (parseBookData_normal row) as (nr & E & C).
  eexists; split; [exact E|].
  cbn [title authors publishedYear averageRating numberOfRatings detailsUrl
       goodreadsId].
  repeat split.
  - unfold titleText. intros ->. reflexivity.
  - unfold authorNames. intros ->. reflexivity.
  - unfold group1_or_null, greyText. intros ->. reflexivity.
  - unfold group1_or_null, ratingText. rewrite H. reflexivity.
  - unfold stored_count, ratingText in C. rewrite H in C. exact C.
  - unfold detailsUrlText, href. rewrite H. reflexivity.
  - unfold detailsUrlText, href. rewrite H. vm_compute. reflexivity.
Qed.

End SearchRecords.

(* ================================================================== *)
(** * The detail pipeline: the fields of the record *)
(* ================================================================== *)

Section DetailRecords.

Import Lookup Views Samples.

(** The detail pipeline raises no exception. *)
Lemma parseBookDetails_total (d : document) :
  exists r, parseBookDetails d = Normal r.
Proof.
  destruct (parseBookDetails_normal d) as (nr & nv & fp & E & _).
  eexists; exact E.
Qed.

(** C2, on the code: a page on which nothing matches the title block.  The
    text of the empty selection is the empty string, and [title] is
    assigned that string: the record's [title] is the empty string and not
    [null]. *)
Theorem C2_untitled_page_gets_empty_title :
  titleSection untitled_page = []
  /\ exists r,
       parseBookDetails untitled_page = Normal r
       /\ title r = Str []
       /\ series r = Null.
Proof.
  split; [vm_compute; reflexivity|].
  eexists; split; [vm_compute; reflexivity|]. split; reflexivity.
Qed.

(** The same for every document without a title block. *)
Lemma untitled_document_gets_empty_title (d : document) :
  titleSection d = [] ->
  exists r, parseBookDetails d = Normal r /\ title r = Str [].
Proof.
  intros H. destruct (parseBookDetails_normal d) as (nr & nv & fp & E & _).
  eexists; split; [exact E|]. cbn [title].
  unfold seriesElement. rewrite H. reflexivity.
Qed.

(** C3, on the code: a page whose genre list still ends with the control
    labelled [...more].  [parseGenres] of the pipeline drops only
    [...show all], so the label stays in [genres]; the [parseGenres] of the
    second copy of the pipeline drops both labels.  On a page whose list
    ends with [...show all] both return the genres alone. *)
Theorem C3_collapsed_genre_control_is_kept :
  (exists r,
     parseBookDetails collapsed_genres_page = Normal r
     /\ genres r = [lit "Horror"; lit "Fiction"; lit "...more"]
     /\ In (lit "...more") sentinels)
  /\ (exists r,
        LookupCopy.parseBookDetails collapsed_genres_page = Normal r
        /\ genres r = [lit "Horror"; lit "Fiction"])
  /\ (exists r,
        parseBookDetails show_all_genres_page = Normal r
        /\ genres r = [lit "Horror"; lit "Fiction"])
  /\ (exists r,
        LookupCopy.parseBookDetails show_all_genres_page = Normal r
        /\ genres r = [lit "Horror"; lit "Fiction"]).
Proof.
  repeat split; eexists; (split; [vm_compute; reflexivity|]);
    repeat split; try reflexivity.
  left; reflexivity.
Qed.

(** What [genres] holds for every document: the chips but [...show all]. *)
Lemma genres_are_the_chips_but_show_all (d : document) :
  exists r,
    parseBookDetails d = Normal r
    /\ genres r = filter (fun g => negb (str_eqb g (lit "...show all")))
                    (genreChips d).
Proof.
  destruct (parseBookDetails_normal d) as (nr & nv & fp & E & _).
  eexists; split; [exact E | reflexivity].
Qed.




(** C6. For every detail document with a work-details item labelled
    [Setting]: [settings] holds no entry twice; its entries are exactly the
    normalized comma-separated pieces of the item's text (parentheticals
    removed, runs of white space collapsed to one space, the ends trimmed),
    each without white space at either end; and when that text is
    [London (England), London (England), Paris] the entries are [London]
    and [Paris] and no other. *)
Theorem C6_settings_have_no_duplicates (d : document) :
  settingsContainer d <> [] ->
  exists r,
    parseBookDetails d = Normal r
    /\ NoDup (settings r)
    /\ (forall s, In s (settings r) <->
                  exists piece, In piece (split comma (settingsText d))
                                /\ s = cleanSetting piece)
    /\ (forall s, In s (settings r) -> trim s = s)
    /\ (settingsText d = lit "London (England), London (England), Paris" ->
        forall s, In s (settings r) <-> s = lit "London" \/ s = lit "Paris").
Proof.
  intros H. destruct (parseBookDetails_normal d) as (nr & nv & fp & E & _).
  eexists; split; [exact E|]. cbn [settings].
  destruct (settingsContainer d) as [|c cs]; [contradiction|].
  assert (M : forall s, In s (spread_new_Set (settingPieces d)) <->
                exists piece, In piece (split comma (settingsText d))
                              /\ s = cleanSetting piece).
  { intros s. rewrite spread_new_Set_In. unfold settingPieces.
    rewrite in_map_iff. split; intros (p & A & B); exists p; auto. }
  split; [apply spread_new_Set_NoDup|]. split; [exact M|]. split.
  - intros s Hs. apply M in Hs. destruct Hs as (p & _ & ->).
    unfold cleanSetting. apply trim_idem.
  - intros T s. rewrite spread_new_Set_In. unfold settingPieces. rewrite T.
    assert (P : List.map cleanSetting
                  (split comma (lit "London (England), London (England), Paris"))
                = [lit "London"; lit "London"; lit "Paris"])
      by (vm_compute; reflexivity).
    rewrite P. cbn [In]. intuition auto.
Qed.

Lemma C6_settings_page_example :
  settingsContainer settings_page <> []
  /\ settingsText settings_page = lit "London (England), London (England), Paris"
  /\ exists r,
       parseBookDetails settings_page = Normal r
       /\ NoDup (settings r)
       /\ (forall s, In s (settings r) <-> s = lit "London" \/ s = lit "Paris").
Proof.
  assert (H : settingsContainer settings_page <> [])
    by (vm_compute; discriminate).
  assert (T : settingsText settings_page
              = lit "London (England), London (England), Paris")
    by (vm_compute; reflexivity).
  split; [exact H|]. split; [exact T|].
  destruct (C6_settings_have_no_duplicates settings_page H)
    as (r & E & N & _ & _ & L).
  exists r. split; [exact E|]. split; [exact N | exact (L T)].
Defined.

(** C10. For every detail document with a work-details item labelled
    [Setting], [settings] is the subsequence of first occurrences of the
    normalized pieces, in the order of the pieces in the text. *)
Theorem C10_settings_keep_first_seen_order (d : document) :
  settingsContainer d <> [] ->
  exists r,
    parseBookDetails d = Normal r
    /\ settings r = first_occurrences (settingPieces d).
Proof.
  intros H. destruct (parseBookDetails_normal d) as (nr & nv & fp & E & _).
  eexists; split; [exact E|]. cbn [settings].
  destruct (settingsContainer d) as [|c cs]; [contradiction|].
  apply spread_new_Set_first_occurrences.
Qed.

Lemma C10_settings_page_example :
  settingsContainer settings_page <> []
  /\ settingPieces settings_page = [lit "London"; lit "London"; lit "Paris"]
  /\ exists r,
       parseBookDetails settings_page = Normal r
       /\ settings r = [lit "London"; lit "Paris"].
Proof.
  assert (H : settingsContainer settings_page <> [])
    by (vm_compute; discriminate).
  split; [exact H|]. split; [vm_compute; reflexivity|].
  destruct (C10_settings_keep_first_seen_order settings_page H) as (r & E & S).
  exists r. split; [exact E|]. rewrite S. vm_compute. reflexivity.
Defined.

(** C7. For every detail document, [numberOfRatings] and [numberOfReviews]
    are read off the one meta text, each by its own pattern: a field is
    [null] when its pattern does not match and the first group with every
    comma removed when it does, whatever the other pattern does.  A stored
    count is a run of digits, not empty and without commas, that the meta
    text writes (with or without commas) before white space and the word
    [ratings], or [reviews].  Either pattern can match without the other,
    and a count written [55,061] is stored as [55061]. *)
Theorem C7_ratings_and_reviews_counts :
  (forall d : document,
     exists r,
       parseBookDetails d = Normal r
       /\ stored_count re_ratings (metaText d) (numberOfRatings r)
       /\ stored_count re_reviews (metaText d) (numberOfReviews r)
       /\ (forall v, numberOfRatings r = Str v ->
                     count_before "ratings" (metaText d) v /\ ~ In comma v)
       /\ (forall v, numberOfReviews r = Str v ->
                     count_before "reviews" (metaText d) v /\ ~ In comma v))
  /\ (exists r,
        parseBookDetails (meta_page "55,061 ratings") = Normal r
        /\ numberOfRatings r = Str (lit "55061")
        /\ numberOfReviews r = Null)
  /\ (exists r,
        parseBookDetails (meta_page "4,640 reviews") = Normal r
        /\ numberOfRatings r = Null
        /\ numberOfReviews r = Str (lit "4640"))
  /\ (exists r,
        parseBookDetails plain_title_page = Normal r
        /\ metaText plain_title_page = hell_house_meta
        /\ numberOfRatings r = Str (lit "55061")
        /\ numberOfReviews r = Str (lit "4640"))
  /\ replace_all re_comma [] (lit "55,061") = lit "55061".
Proof.
  split; [|repeat split;
            try (eexists; split; [vm_compute; reflexivity|]; repeat split);
            vm_compute; reflexivity].
  intros d. destruct (parseBookDetails_normal d) as (nr & nv & fp & E & C1 & C2 & _).
  eexists; split; [exact E|]. cbn [numberOfRatings numberOfReviews].
  split; [exact C1|]. split; [exact C2|].
  assert (K : forall word v, stored_count (count_then word) (metaText d) (Str v) ->
                count_before word (metaText d) v /\ ~ In comma v).
  { intros word v C. pose proof (stored_count_before word _ v C) as B.
    split; [exact B|].
    destruct B as (pre & g & ws & post & _ & _ & _ & -> & _).
    apply replace_all_chr_absent. }
  split; intros v ->; apply K; assumption.
Qed.

(** C5. For every item of the details list labelled [isbn]: [isbn13] is
    the first group of the thirteen-digit pattern on the item's value when
    that pattern matches and is left as it was when it does not, and
    [isbn10] likewise with the ten-digit pattern, each whatever the other
    pattern does.  The first group of the thirteen-digit pattern is the
    first thirteen code units of the value, all digits, and it is found
    whenever the value starts with thirteen digits; the first group of the
    ten-digit pattern is ten digits that follow the marker [ISBN10:] and
    white space.  The value [9780727860996ISBN10: 0727860992] gives both
    numbers, and there are values that give only the one or only the
    other. *)
Theorem C5_isbn13_and_isbn10_are_independent :
  (forall val ed,
     isbn13 (editionItem (lit "isbn") val ed)
     = group1_or re_isbn13 val (isbn13 ed)
     /\ isbn10 (editionItem (lit "isbn") val ed)
        = group1_or re_isbn10 val (isbn10 ed))
  /\ (forall val m,
        js_match re_isbn13 val = Some m ->
        exists g post,
          val = g ++ post /\ length g = 13 /\ forallb is_digit g = true
          /\ m_group1 m = Str g)
  /\ (forall g post,
        length g = 13 -> forallb is_digit g = true ->
        exists m, js_match re_isbn13 (g ++ post) = Some m /\ m_group1 m = Str g)
  /\ (forall val m,
        js_match re_isbn10 val = Some m ->
        exists pre ws g post,
          val = pre ++ lit "ISBN10:" ++ ws ++ g ++ post
          /\ forallb is_space ws = true
          /\ length g = 10 /\ forallb is_digit g = true
          /\ m_group1 m = Str g)
  /\ (forall ed,
        isbn13 (editionItem (lit "isbn") (lit "9780727860996ISBN10: 0727860992") ed)
        = Str (lit "9780727860996")
        /\ isbn10 (editionItem (lit "isbn") (lit "9780727860996ISBN10: 0727860992") ed)
           = Str (lit "0727860992"))
  /\ (forall ed,
        isbn13 (editionItem (lit "isbn") (lit "9780727860996") ed)
        = Str (lit "9780727860996")
        /\ isbn10 (editionItem (lit "isbn") (lit "9780727860996") ed) = isbn10 ed)
  /\ (forall ed,
        isbn13 (editionItem (lit "isbn") (lit "ISBN10: 0727860992") ed) = isbn13 ed
        /\ isbn10 (editionItem (lit "isbn") (lit "ISBN10: 0727860992") ed)
           = Str (lit "0727860992"))
  /\ (exists r,
        parseBookDetails isbn_page = Normal r
        /\ editionItems isbn_page
           = [(lit "format", lit "301 pages, Hardcover");
              (lit "isbn", lit "9780727860996ISBN10: 0727860992");
              (lit "language", lit "English")]
        /\ isbn13 (editionDetails r) = Str (lit "9780727860996")
        /\ isbn10 (editionDetails r) = Str (lit "0727860992")).
Proof.
  assert (P : forall val ed,
             isbn13 (editionItem (lit "isbn") val ed)
             = group1_or re_isbn13 val (isbn13 ed)
             /\ isbn10 (editionItem (lit "isbn") val ed)
                = group1_or re_isbn10 val (isbn10 ed)).
  { intros val ed. unfold editionItem, group1_or.
    change (str_eqb (lit "isbn") (lit "format")) with false.
    change (str_eqb (lit "isbn") (lit "published")) with false.
    change (str_eqb (lit "isbn") (lit "isbn")) with true.
    cbv iota.
    destruct (js_match re_isbn13 val), (js_match re_isbn10 val);
      destruct ed; split; reflexivity. }
  split; [exact P|]. split.
  { intros val m H. destruct (re_isbn13_sound val m H)
      as (g & post & V & L & F & G & _).
    exists g, post. auto. }
  split.
  { intros g post L F. eexists. split;
      [apply re_isbn13_complete; assumption | reflexivity]. }
  split; [exact re_isbn10_sound|].
  split; [|split; [|split]].
  - intros ed. destruct (P (lit "9780727860996ISBN10: 0727860992") ed) as [A B].
    rewrite A, B. split; vm_compute; reflexivity.
  - intros ed. destruct (P (lit "9780727860996") ed) as [A B].
    rewrite A, B. split; vm_compute; reflexivity.
  - intros ed. destruct (P (lit "ISBN10: 0727860992") ed) as [A B].
    rewrite A, B. split; vm_compute; reflexivity.
  - eexists. split; [vm_compute; reflexivity|].
    repeat split; vm_compute; reflexivity.
Qed.

(** The details list is folded item by item, in document order, by the
    function the theorem above is about. *)
Lemma editionDetails_fold (d : document) :
  exists r,
    parseBookDetails d = Normal r
    /\ editionDetails r
       = fold_left (fun ed lv => editionItem (fst lv) (snd lv) ed)
           (editionItems d) (MkEdition Null Null Null Null Null Null).
Proof.
  destruct (parseBookDetails_normal d) as (nr & nv & fp & E & _).
  eexists; split; [exact E | reflexivity].
Qed.

(** C8, on the code: the two fields whose extractor finds nothing and that
    do not fall back to their absence value.  On a page without a title
    block [title] is the empty string; in a row whose title link has no
    [href], [detailsUrl] is a string.  In both cases the extraction goes
    on: every other field is extracted. *)
Theorem C8_absent_title_and_href_are_not_null :
  (exists r,
     parseBookDetails untitled_page = Normal r
     /\ title r = Str []
     /\ authors r = [lit "Richard Matheson"]
     /\ rating r = Str (lit "3.73")
     /\ numberOfRatings r = Str (lit "55061")
     /\ numberOfReviews r = Str (lit "4640"))
  /\ (exists book,
        Search.parseSearchResults no_href_page = Normal [book]
        /\ Search.detailsUrl book = Str (lit "https://www.goodreads.comundefined")
        /\ Search.goodreadsId book = Null
        /\ Search.title book = Str (lit "Hell House")
        /\ Search.publishedYear book = Str (lit "1971")).
Proof.
  split; eexists; (split; [vm_compute; reflexivity|]);
    repeat split; vm_compute; reflexivity.
Qed.

(** A field whose selector finds nothing in the document falls back to its
    absence value; [title] is the one exception (see C2). *)
Lemma fields_fall_back (d : document) :
  exists r,
    parseBookDetails d = Normal r
    /\ (seriesElement d = [] -> series r = Null)
    /\ (select d sel_contributors = [] -> authors r = [])
    /\ (select d sel_rating = [] -> rating r = Null)
    /\ (select d sel_meta = [] ->
        numberOfRatings r = Null /\ numberOfReviews r = Null)
    /\ (select d sel_genres = [] -> genres r = [])
    /\ (settingsContainer d = [] -> settings r = [])
    /\ (select d sel_pagesFormat = [] -> numberOfPages r = Null)
    /\ (select d sel_publicationInfo = [] -> firstPublished r = Null)
    /\ (descriptionDiv d = [] -> description r = Null)
    /\ (select d sel_cover = [] -> coverImage r = Null)
    /\ (select d sel_descListItem = [] ->
        editionDetails r = MkEdition Null Null Null Null Null Null)
    /\ (titleSection d = [] -> title r = Str []).
Proof.
  destruct (parseBookDetails_normal d) as (nr & nv & fp & E & C1 & C2 & C3).
  eexists; split; [exact E|].
  cbn [title series authors rating numberOfRatings numberOfReviews genres
       settings numberOfPages firstPublished description coverImage
       editionDetails].
  repeat split.
  - intros ->. reflexivity.
  - unfold authorNames. intros ->. reflexivity.
  - unfold ratingText. intros ->. reflexivity.
  - unfold stored_count, metaText in C1. rewrite H in C1. exact C1.
  - unfold stored_count, metaText in C2. rewrite H in C2. exact C2.
  - unfold genreChips. intros ->. reflexivity.
  - intros ->. reflexivity.
  - unfold group1_or, pagesFormat. intros ->. reflexivity.
  - unfold publicationInfo in C3. intros H. rewrite H in C3. exact C3.
  - intros ->. reflexivity.
  - intros ->. reflexivity.
  - unfold editionItems. intros ->. reflexivity.
  - unfold seriesElement. intros ->. reflexivity.
Qed.

(** The [parseGenres] of the second copy keeps neither control label: it
    returns the chips without them, for every document. *)
Lemma copy_genres_hold_no_sentinel (d : document) :
  exists r,
    LookupCopy.parseBookDetails d = Normal r
    /\ genres r = filter (fun g => negb (existsb (str_eqb g) sentinels))
                    (genreChips d)
    /\ Forall (fun g => ~ In g sentinels) (genres r).
Proof.
  unfold LookupCopy.parseBookDetails.
  rewrite parseTitleAndSeries_normal. cbn [bind].
  unfold LookupCopy.parseAuthors. rewrite fold_push_authors. cbn [bind].
  match goal with |- context [parseRatings d ?b] =>
    destruct (parseRatings_normal d b) as (nr & nv & E & _) end.
  rewrite E. cbn [bind].
  rewrite parseGenres_copy_normal. cbn [bind].
  match goal with |- context [parseBasicDetails d ?b] =>
    destruct (parseBasicDetails_normal d b) as (fp & E' & _) end.
  rewrite E'. cbn [bind].
  rewrite parseEditionDetails_normal. cbn [bind].
  eexists; split; [reflexivity|]. cbn [genres app].
  assert (F : forall g,
             negb (str_eqb g (lit "...more")) && negb (str_eqb g (lit "...show all"))
             = negb (existsb (str_eqb g) sentinels)).
  { intros g. unfold sentinels. cbn [existsb].
    rewrite orb_false_r, negb_orb. reflexivity. }
  split; [apply filter_ext; exact F|].
  apply Forall_forall. intros g Hg. apply filter_In in Hg.
  destruct Hg as [_ Hg]. rewrite F in Hg. intros Hin.
  apply existsb_str_eqb_In in Hin. rewrite Hin in Hg. discriminate.
Qed.

Lemma untitled_document_example :
  titleSection untitled_page = []
  /\ exists r, parseBookDetails untitled_page = Normal r /\ title r = Str [].
Proof.
  assert (H : titleSection untitled_page = []) by (vm_compute; reflexivity).
  split; [exact H|]. exact (untitled_document_gets_empty_title untitled_page H).
Defined.

End DetailRecords.

(* ================================================================== *)
(** * Greedy runs, and the collapse of white space *)
(* ================================================================== *)

Section GreedyRuns.

Lemma run_length_le (p : char -> bool) (s : jsstring) :
  run_length p s <= length s.
Proof. induction s as [|x t IH]; simpl; [lia|]. destruct (p x); simpl; lia. Qed.

Lemma run_Class_cons (p : char -> bool) (k : mstate -> option mstate)
  (pos : nat) (x : char) (t : jsstring) (c : value) :
  run (Class p) (MState pos (x :: t) c) k
  = if p x then k (MState (S pos) t c) else None.
Proof. reflexivity. Qed.

Lemma run_Class_nil (p : char -> bool) (k : mstate -> option mstate)
  (pos : nat) (c : value) :
  run (Class p) (MState pos [] c) k = None.
Proof. reflexivity. Qed.

(** A greedy [*] over a class goes on with the longest run first: when the
    rest of the pattern succeeds after the longest run, that is the
    answer. *)
Lemma star_class_longest (p : char -> bool) (k : mstate -> option mstate)
  (res : mstate) :
  forall rest fuel pos c,
    length rest < fuel ->
    k (MState (pos + run_length p rest) (skipn (run_length p rest) rest) c)
    = Some res ->
    star_loop (run (Class p)) k fuel (MState pos rest c) = Some res.
Proof.
  induction rest as [|x t IH]; intros fuel pos c L K;
    (destruct fuel as [|fuel]; [simpl in L; lia|]);
    rewrite star_loop_S.
  - rewrite run_Class_nil. simpl in K. rewrite Nat.add_0_r in K. exact K.
  - rewrite run_Class_cons. cbn [run_length] in K. destruct (p x) eqn:Px.
    + cbn [ms_pos].
      assert (Lt : Nat.ltb pos (S pos) = true) by (apply Nat.ltb_lt; lia).
      rewrite Lt.
      rewrite (IH fuel (S pos) c); [reflexivity | simpl in L; lia |].
      cbn [skipn] in K. rewrite Nat.add_succ_comm. exact K.
    + simpl in K. rewrite Nat.add_0_r in K. exact K.
Qed.

(** [p+] at a state: [None] unless the subject goes on with a code unit of
    the class; then the longest run first. *)
Lemma run_plus_class_none (p : char -> bool) (k : mstate -> option mstate)
  (pos : nat) (rest : jsstring) (c : value) :
  run_length p rest = 0 ->
  run (Plus (Class p)) (MState pos rest c) k = None.
Proof.
  intros H. unfold Plus. cbn [run ms_rest]. destruct rest as [|x t]; [reflexivity|].
  simpl in H. destruct (p x); [discriminate | reflexivity].
Qed.

Lemma run_plus_class_longest (p : char -> bool) (k : mstate -> option mstate)
  (res : mstate) (pos : nat) (rest : jsstring) (c : value) :
  run_length p rest <> 0 ->
  k (MState (pos + run_length p rest) (skipn (run_length p rest) rest) c)
  = Some res ->
  run (Plus (Class p)) (MState pos rest c) k = Some res.
Proof.
  intros N K. unfold Plus. cbn [run ms_rest].
  destruct rest as [|x t]; [simpl in N; contradiction|].
  cbn [run_length] in N, K. destruct (p x); [|contradiction].
  unfold advance. cbn [ms_pos ms_cap ms_rest].
  apply star_class_longest; [lia|].
  cbn [skipn] in K. rewrite Nat.add_succ_comm. exact K.
Qed.

End GreedyRuns.

Section Collapse.

Import Lookup.

(** [s.replace(/\s+/g, ' ')] replaces every maximal run of white space by
    one space. *)
Lemma replace_from_spaces (s : jsstring) :
  forall pos,
    replace_from re_spaces (lit " ") pos s 0 = collapse_from false s
    /\ replace_from re_spaces (lit " ") pos s (run_length is_space s)
       = collapse_from true s.
Proof.
  induction s as [|x t IH]; intros pos.
  - split; reflexivity.
  - assert (A : replace_from re_spaces (lit " ") pos (x :: t) 0
                = collapse_from false (x :: t)).
    { cbn [replace_from collapse_from].
      destruct (is_space x) eqn:Sx.
      - unfold re_spaces, space.
        rewrite (run_plus_class_longest is_space Some
                   (MState (pos + run_length is_space (x :: t))
                      (skipn (run_length is_space (x :: t)) (x :: t)) Undefined));
          [|simpl; rewrite Sx; discriminate | reflexivity].
        cbn [ms_pos run_length]. rewrite Sx.
        replace (pos + S (run_length is_space t) - pos)
          with (S (run_length is_space t)) by lia.
        change (lit " ") with [32%N]. cbn [app]. f_equal.
        apply (proj2 (IH (S pos))).
      - unfold re_spaces, space.
        rewrite run_plus_class_none; [|simpl; rewrite Sx; reflexivity].
        f_equal. apply (proj1 (IH (S pos))). }
    split; [exact A|].
    cbn [run_length]. destruct (is_space x) eqn:Sx.
    + cbn [replace_from collapse_from]. rewrite Sx.
      apply (proj2 (IH (S pos))).
    + rewrite A. cbn [collapse_from]. rewrite Sx. reflexivity.
Qed.

Lemma replace_all_spaces (s : jsstring) :
  replace_all re_spaces (lit " ") s = collapse s.
Proof. apply (proj1 (replace_from_spaces s 0)). Qed.

Lemma collapse_from_single_spaced (s : jsstring) :
  forall b, single_spaced_from b (collapse_from b s) = true.
Proof.
  induction s as [|x t IH]; intros b; [reflexivity|].
  cbn [collapse_from]. destruct (is_space x) eqn:Sx.
  - destruct b; [apply IH|].
    cbn [single_spaced_from].
    change (is_space 32%N) with true. cbv iota.
    rewrite N.eqb_refl. simpl. apply IH.
  - cbn [single_spaced_from]. rewrite Sx. apply IH.
Qed.

Lemma single_spaced_weaken (s : jsstring) :
  single_spaced_from true s = true -> single_spaced_from false s = true.
Proof.
  destruct s as [|x t]; [reflexivity|]. simpl.
  destruct (is_space x); [|auto]. rewrite andb_false_r. discriminate.
Qed.

Lemma single_spaced_trimStart (s : jsstring) :
  forall b, single_spaced_from b s = true ->
            single_spaced_from false (trimStart s) = true.
Proof.
  induction s as [|x t IH]; intros b H; [reflexivity|].
  cbn [trimStart]. cbn [single_spaced_from] in H.
  destruct (is_space x) eqn:Sx.
  - apply andb_true_iff in H. destruct H as [_ H]. exact (IH true H).
  - cbn [single_spaced_from]. rewrite Sx. exact H.
Qed.

Lemma single_spaced_app_l (l r : jsstring) :
  forall b, single_spaced_from b (l ++ r) = true -> single_spaced_from b l = true.
Proof.
  induction l as [|x t IH]; intros b H; [reflexivity|].
  cbn [app single_spaced_from] in *. destruct (is_space x).
  - apply andb_true_iff in H. destruct H as [A H].
    rewrite A. exact (IH true H).
  - exact (IH false H).
Qed.

Lemma trimStart_split (s : jsstring) :
  exists ws, s = ws ++ trimStart s /\ forallb is_space ws = true.
Proof.
  induction s as [|x t (ws & E & F)]; [exists []; auto|].
  cbn [trimStart]. destruct (is_space x) eqn:Sx.
  - exists (x :: ws). simpl. rewrite Sx, F, <- E. auto.
  - exists []. auto.
Qed.

Lemma trimEnd_split (s : jsstring) :
  exists ws, s = trimEnd s ++ ws /\ forallb is_space ws = true.
Proof.
  unfold trimEnd. destruct (trimStart_split (rev s)) as (ws & E & F).
  exists (rev ws). split.
  - rewrite <- rev_app_distr, <- E, rev_involutive. reflexivity.
  - rewrite forallb_forall in *. intros x Hx. apply F. apply in_rev. exact Hx.
Qed.

Lemma single_spaced_trim (s : jsstring) (b : bool) :
  single_spaced_from b s = true -> single_spaced_from false (trim s) = true.
Proof.
  intros H. apply single_spaced_trimStart in H. unfold trim.
  destruct (trimEnd_split (trimStart s)) as (ws & E & _).
  rewrite E in H. exact (single_spaced_app_l _ _ _ H).
Qed.

(** What [trim] returns neither starts nor ends with white space. *)
Lemma trim_trimmed (s : jsstring) : trimmed (trim s).
Proof.
  split.
  - intros c t E. unfold trim in E.
    destruct (trimStart s) as [|y u] eqn:Es; [discriminate|].
    pose proof (trimStart_head s y u Es) as Hy.
    rewrite (trimEnd_cons y u Hy) in E. inversion E; subst. exact Hy.
  - intros t c E. unfold trim, trimEnd in E.
    apply (f_equal (@rev char)) in E.
    rewrite rev_involutive, rev_app_distr in E. simpl in E.
    exact (trimStart_head _ c _ E).
Qed.

(** Collapsing the white space and trimming gives a tidy text. *)
Lemma trim_collapse_tidy (s : jsstring) :
  tidy (trim (replace_all re_spaces (lit " ") s)).
Proof.
  split; [apply trim_trimmed|].
  rewrite replace_all_spaces.
  apply (single_spaced_trim _ false), collapse_from_single_spaced.
Qed.

End Collapse.

(* ================================================================== *)
(** * The removal of parentheticals *)
(* ================================================================== *)

Section Parentheticals.

Import Lookup.

Lemma until_rp_spec (s : jsstring) :
  s = fst (until_rp s) ++ snd (until_rp s)
  /\ ~ In 41%N (fst (until_rp s))
  /\ (snd (until_rp s) = [] \/ exists t, snd (until_rp s) = 41%N :: t).
Proof.
  induction s as [|x t (E & N & R)]; simpl.
  - repeat split; auto.
  - destruct (N.eqb x 41) eqn:X.
    + apply N.eqb_eq in X. subst x. simpl. repeat split; eauto.
    + destruct (until_rp t) as [w r]. simpl in *. repeat split.
      * rewrite <- E. reflexivity.
      * intros [H|H]; [subst x; discriminate | auto].
      * exact R.
Qed.

Lemma run_Chr_cons (x : char) (k : mstate -> option mstate)
  (pos : nat) (y : char) (t : jsstring) (c : value) :
  run (Chr x) (MState pos (y :: t) c) k
  = if N.eqb y x then k (MState (S pos) t c) else None.
Proof. reflexivity. Qed.

(** [[^)]*\)] from a state: up to and with the first [)], or nothing when
    there is none. *)
Lemma star_until_rp (s : jsstring) :
  forall fuel pos c,
    length s < fuel ->
    star_loop (run (Class (fun x => negb (N.eqb x 41))))
      (fun st => run (Chr 41%N) st Some) fuel (MState pos s c)
    = match snd (until_rp s) with
      | _ :: t' => Some (MState (pos + length (fst (until_rp s)) + 1) t' c)
      | [] => None
      end.
Proof.
  induction s as [|x t IH]; intros fuel pos c L;
    (destruct fuel as [|fuel]; [simpl in L; lia|]);
    rewrite star_loop_S.
  - reflexivity.
  - rewrite run_Class_cons. cbn [until_rp]. destruct (N.eqb x 41) eqn:X.
    + cbn [negb fst snd length]. rewrite run_Chr_cons, X.
      rewrite Nat.add_0_r, Nat.add_1_r. reflexivity.
    + cbn [negb ms_pos].
      assert (Lt : Nat.ltb pos (S pos) = true) by (apply Nat.ltb_lt; lia).
      rewrite Lt, IH by (simpl in L; lia).
      destruct (until_rp t) as [w r]. cbn [fst snd length].
      destruct r as [|y t'].
      * rewrite run_Chr_cons, X. reflexivity.
      * f_equal. f_equal. lia.
Qed.

Lemma run_parenthetical (pos : nat) (s : jsstring) (c : value) :
  run re_parenthetical (MState pos s c) Some
  = match s with
    | x :: t =>
        if N.eqb x 40
        then match snd (until_rp t) with
             | _ :: t' => Some (MState (pos + length (fst (until_rp t)) + 2) t' c)
             | [] => None
             end
        else None
    | [] => None
    end.
Proof.
  unfold re_parenthetical. destruct s as [|x t]; [reflexivity|].
  cbn [run ms_rest]. destruct (N.eqb x 40); [|reflexivity].
  unfold advance. cbn [ms_pos ms_cap ms_rest].
  rewrite star_until_rp by lia.
  destruct (snd (until_rp t)); [reflexivity|].
  f_equal. f_equal. lia.
Qed.

(** Dropping the rest of a match is going on after it. *)
Lemma replace_from_skip (r : regex) (repl : jsstring) :
  forall n rest pos,
    n <= length rest ->
    replace_from r repl pos rest n
    = replace_from r repl (pos + n) (skipn n rest) 0.
Proof.
  induction n as [|n IH]; intros rest pos L.
  - rewrite Nat.add_0_r. reflexivity.
  - destruct rest as [|x t]; [simpl in L; lia|].
    cbn [replace_from skipn]. rewrite IH by (simpl in L; lia).
    rewrite Nat.add_succ_comm. reflexivity.
Qed.

(** With the empty replacement nothing new comes in. *)
Lemma replace_from_nothing_new (r : regex) (x : char) :
  forall s pos n, In x (replace_from r [] pos s n) -> In x s.
Proof.
  induction s as [|y t IH]; intros pos n H.
  - destruct n; cbn [replace_from] in H.
    + destruct (run r _ Some) as [st|]; [|exact H].
      destruct (ms_pos st - pos); exact H.
    + exact H.
  - destruct n; cbn [replace_from] in H.
    + destruct (run r _ Some) as [st|].
      * destruct (ms_pos st - pos); cbn [app] in H.
        -- destruct H as [H|H]; [left; exact H | right; eapply IH; exact H].
        -- right; eapply IH; exact H.
      * destruct H as [H|H]; [left; exact H | right; eapply IH; exact H].
    + right; eapply IH; exact H.
Qed.

Lemma no_pair_without_rp (s : jsstring) (b : bool) :
  ~ In 41%N s -> no_pair_from b s = true.
Proof.
  induction s as [|x t IH] in b |- *; intros N; [reflexivity|].
  cbn [no_pair_from]. destruct (N.eqb x 41) eqn:X.
  - apply N.eqb_eq in X. subst x. exfalso. apply N. left. reflexivity.
  - destruct (N.eqb x 40); apply IH; intros H; apply N; right; exact H.
Qed.

(** After [s.replace(/\([^)]*\)/g, '')] no [(] has a [)] after it. *)
Lemma replace_parenthetical_no_pair (n : nat) :
  forall s pos,
    length s <= n ->
    no_pair_from false (replace_from re_parenthetical [] pos s 0) = true.
Proof.
  induction n as [|n IH]; intros s pos L.
  - destruct s; [reflexivity | simpl in L; lia].
  - destruct s as [|x t]; [reflexivity|].
    cbn [replace_from]. rewrite run_parenthetical.
    pose proof (until_rp_spec t) as Sp.
    destruct (until_rp t) as [w r]. cbn [fst snd] in *.
    destruct Sp as (E & N & R).
    destruct (N.eqb x 40) eqn:X.
    + destruct r as [|y t'].
      * cbn [no_pair_from]. rewrite X.
        replace (N.eqb x 41) with false
          by (apply N.eqb_eq in X; subst x; reflexivity).
        apply no_pair_without_rp. intros H.
        apply replace_from_nothing_new in H.
        rewrite E, app_nil_r in H. exact (N H).
      * cbn [ms_pos].
        replace (pos + length w + 2 - pos) with (S (S (length w))) by lia.
        cbn [app]. subst t. simpl in L. rewrite length_app in L. simpl in L.
        rewrite replace_from_skip by (rewrite length_app; simpl; lia).
        assert (Sk : skipn (S (length w)) (w ++ y :: t') = t').
        { rewrite skipn_app, skipn_all2 by lia.
          replace (S (length w) - length w) with 1 by lia. reflexivity. }
        rewrite Sk. apply IH. lia.
    + cbn [no_pair_from]. destruct (N.eqb x 41); rewrite ?X; simpl;
        apply IH; simpl in L; lia.
Qed.

Lemma space_is_no_parenthesis (x : char) :
  is_space x = true -> N.eqb x 41 = false /\ N.eqb x 40 = false.
Proof.
  intros H. split; apply N.eqb_neq; intros ->; discriminate.
Qed.

Lemma no_pair_collapse (s : jsstring) :
  forall b r, no_pair_from b (collapse_from r s) = no_pair_from b s.
Proof.
  induction s as [|x t IH]; intros b r; [reflexivity|].
  cbn [collapse_from no_pair_from]. destruct (is_space x) eqn:Sx.
  - destruct (space_is_no_parenthesis x Sx) as [A B]. rewrite A, B.
    destruct r; [apply IH|]. cbn [no_pair_from].
    change (N.eqb 32 41) with false. change (N.eqb 32 40) with false.
    cbv iota. apply IH.
  - cbn [no_pair_from]. destruct (N.eqb x 41); [rewrite IH; reflexivity|].
    destruct (N.eqb x 40); apply IH.
Qed.

Lemma no_pair_spaces_l (ws s : jsstring) (b : bool) :
  forallb is_space ws = true -> no_pair_from b (ws ++ s) = no_pair_from b s.
Proof.
  induction ws as [|x t IH]; intros F; [reflexivity|].
  simpl in F. apply andb_true_iff in F. destruct F as [Sx F].
  cbn [app no_pair_from].
  destruct (space_is_no_parenthesis x Sx) as [A B]. rewrite A, B. exact (IH F).
Qed.

Lemma no_pair_spaces_r (s ws : jsstring) :
  forallb is_space ws = true ->
  forall b, no_pair_from b (s ++ ws) = no_pair_from b s.
Proof.
  intros F. induction s as [|x t IH]; intros b.
  - cbn [app]. rewrite <- (app_nil_r ws), no_pair_spaces_l by exact F.
    reflexivity.
  - cbn [app no_pair_from]. rewrite !IH. reflexivity.
Qed.

Lemma no_pair_trim (s : jsstring) (b : bool) :
  no_pair_from b (trim s) = no_pair_from b s.
Proof.
  unfold trim.
  destruct (trimStart_split s) as (ws & E & F).
  destruct (trimEnd_split (trimStart s)) as (ws' & E' & F').
  rewrite E at 2. rewrite no_pair_spaces_l by exact F.
  rewrite E' at 2. rewrite no_pair_spaces_r by exact F'. reflexivity.
Qed.

(** The scan says what it is meant to: no [(], then text, then [)]. *)
Lemma no_pair_no_parenthetical (s : jsstring) :
  forall b,
    no_pair_from b s = true ->
    no_parenthetical s /\ (b = true -> ~ In 41%N s).
Proof.
  unfold no_parenthetical.
  induction s as [|x t IH]; intros b H.
  - split; [intros [|? ?] ? ?; discriminate | auto].
  - cbn [no_pair_from] in H. destruct (N.eqb x 41) eqn:X1.
    + apply andb_true_iff in H. destruct H as [Hb H].
      destruct b; [discriminate|]. destruct (IH false H) as [P _].
      split; [|discriminate].
      intros [|y a] u v E; inversion E; subst.
      * discriminate.
      * exact (P a u v eq_refl).
    + destruct (N.eqb x 40) eqn:X0.
      * destruct (IH true H) as [P Q]. split.
        -- intros [|y a] u v E; inversion E; subst.
           ++ apply (Q eq_refl). apply in_or_app. right. left. reflexivity.
           ++ exact (P a u v eq_refl).
        -- intros _ [E|I]; [subst x; discriminate | exact (Q eq_refl I)].
      * destruct (IH b H) as [P Q]. split.
        -- intros [|y a] u v E; inversion E; subst.
           ++ discriminate.
           ++ exact (P a u v eq_refl).
        -- intros Hb [E|I]; [subst x; discriminate | exact (Q Hb I)].
Qed.

(** A cleaned setting is tidy and holds no parenthetical. *)
Lemma cleanSetting_clean (setting : jsstring) :
  tidy (cleanSetting setting) /\ no_parenthetical (cleanSetting setting).
Proof.
  unfold cleanSetting. split; [apply trim_collapse_tidy|].
  apply (no_pair_no_parenthetical _ false).
  rewrite no_pair_trim, replace_all_spaces. unfold collapse.
  rewrite no_pair_collapse.
  apply (replace_parenthetical_no_pair (length setting)). lia.
Qed.

End Parentheticals.

(* ================================================================== *)
(** * The shape of the detail record's fields *)
(* ================================================================== *)

Section DetailShapes.

Import Lookup Views.

Lemma or_null_present (v : value) : present_or_null (or_null v).
Proof. destruct v as [| |[|x t]]; simpl; auto. discriminate. Qed.

(** A literal at the start of a pattern: the subject goes on with it. *)
Lemma run_Lit_inv (l : jsstring) (pos : nat) (rest : jsstring) (c : value)
  (k : mstate -> option mstate) (res : mstate) :
  run (Lit l) (MState pos rest c) k = Some res ->
  exists rest1, rest = l ++ rest1
                /\ k (MState (pos + length l) rest1 c) = Some res.
Proof.
  intros H. apply run_sound in H.
  destruct H as (w & rest' & c' & R & M & K). cbn [ms_rest ms_pos ms_cap] in *.
  apply matches_Lit in M. destruct M as [-> ->]. exists rest'. auto.
Qed.

(** [/(\d+)\s*pages/]: the group is a run of digits, not empty, before
    optional white space and the word. *)
Lemma re_pages_sound (s : jsstring) (m : MatchResult) :
  js_match re_pages s = Some m ->
  exists pre g ws post,
    s = pre ++ g ++ ws ++ lit "pages" ++ post
    /\ g <> [] /\ forallb is_digit g = true
    /\ forallb is_space ws = true
    /\ m_group1 m = Str g.
Proof.
  intros H. apply js_match_sound in H.
  destruct H as (pre & w & post & V & M & _ & _).
  unfold re_pages in M. apply matches_Seq_inv in M.
  destruct M as (g & w' & c1 & -> & M1 & M').
  apply matches_Group_inv in M1. destruct M1 as (G & c2 & M1).
  apply matches_Plus_Class in M1. destruct M1 as (Ng & Fg & _).
  apply matches_Seq_inv in M'. destruct M' as (ws & w3 & c3 & -> & M2 & M3).
  apply matches_Star_Class in M2. destruct M2 as [Fw ->].
  apply matches_Lit in M3. destruct M3 as [-> E3].
  exists pre, g, ws, post. rewrite V, <- !app_assoc.
  repeat split; try assumption; try reflexivity. congruence.
Qed.

Lemma line_terminator_is_space (x : char) :
  is_line_terminator x = true -> is_space x = true.
Proof.
  unfold is_line_terminator. cbn [existsb]. rewrite !orb_true_iff.
  intros [H|[H|[H|[H|H]]]]; try discriminate;
    apply N.eqb_eq in H; subst x; reflexivity.
Qed.

Lemma ends_well_tail (x : char) (t : jsstring) :
  t <> [] -> ends_well (x :: t) -> ends_well t.
Proof. intros _ H u c E. apply (H (x :: u) c). rewrite E. reflexivity. Qed.

Lemma ends_well_app (a b : jsstring) : ends_well (a ++ b) -> b <> [] -> ends_well b.
Proof.
  intros H _ u c E. apply (H (a ++ u) c). rewrite E, app_assoc. reflexivity.
Qed.

Lemma run_length_split (p : char -> bool) (s : jsstring) :
  s = firstn (run_length p s) s ++ skipn (run_length p s) s
  /\ forallb p (firstn (run_length p s) s) = true
  /\ run_length p (skipn (run_length p s) s) = 0.
Proof.
  induction s as [|x t (E & F & Z)]; [auto|].
  cbn [run_length]. destruct (p x) eqn:Px.
  - cbn [firstn skipn app forallb]. rewrite Px, F, <- E. auto.
  - cbn [firstn skipn app forallb run_length]. rewrite Px. auto.
Qed.

(** [/First published\s+(.+)/] on a text that does not end with white
    space: the group starts with a code unit that is no white space, the
    white space before it being taken in full. *)
Lemma run_firstPublished_group (rest : jsstring) (pos : nat) (st : mstate) :
  ends_well rest ->
  run re_firstPublished (MState pos rest Undefined) Some = Some st ->
  exists y g, ms_cap st = Str (y :: g) /\ is_space y = false.
Proof.
  intros W H. unfold re_firstPublished in H. cbn [run] in H.
  change (run (Lit (lit "First published")) (MState pos rest Undefined)
            (fun st1 => run (Plus space) st1
                          (fun st2 => run (Group (Plus (Class (fun c => negb (is_line_terminator c))))) st2 Some))
          = Some st) in H.
  apply run_Lit_inv in H. destruct H as (rest1 & E & H).
  unfold space in H.
  destruct (Nat.eq_dec (run_length is_space rest1) 0) as [Z|NZ].
  { rewrite run_plus_class_none in H by exact Z. discriminate. }
  destruct (run_length_split is_space rest1) as (E1 & F1 & Z1).
  set (n := run_length is_space rest1) in *.
  destruct (skipn n rest1) as [|y t2] eqn:E2.
  { (* the text would end with white space *)
    exfalso. rewrite app_nil_r in E1.
    destruct (firstn n rest1) as [|a u] eqn:Ef using rev_ind.
    - destruct rest1; [simpl in NZ; contradiction | discriminate].
    - rewrite forallb_app in F1. apply andb_true_iff in F1.
      destruct F1 as [_ F1]. simpl in F1. rewrite andb_true_r in F1.
      assert (is_space a = false); [|congruence].
      apply (W (lit "First published" ++ u) a).
      rewrite E, E1, app_assoc. reflexivity. }
  simpl in Z1. destruct (is_space y) eqn:Sy; [discriminate|].
  assert (Ly : is_line_terminator y = false).
  { destruct (is_line_terminator y) eqn:L; [|reflexivity].
    apply line_terminator_is_space in L. congruence. }
  set (dot := fun c : char => negb (is_line_terminator c)) in *.
  set (p2 := pos + length (lit "First published") + n) in *.
  set (m := run_length dot (y :: t2)).
  assert (Hm : m <> 0).
  { unfold m. cbn [run_length]. unfold dot at 1. rewrite Ly. discriminate. }
  assert (G : run (Group (Plus (Class dot))) (MState p2 (y :: t2) Undefined) Some
              = Some (MState (p2 + m) (skipn m (y :: t2)) (Str (firstn m (y :: t2))))).
  { cbn [run].
    rewrite (run_plus_class_longest dot _
               (MState (p2 + m) (skipn m (y :: t2)) (Str (firstn m (y :: t2)))));
      [reflexivity | exact Hm |].
    cbn [ms_pos ms_rest].
    match goal with |- context [?a + ?b - ?a] =>
      replace (a + b - a) with b by lia end.
    reflexivity. }
  assert (K : (fun st2 => run (Group (Plus (Class dot))) st2 Some)
                (MState (pos + length (lit "First published")
                         + run_length is_space rest1)
                   (skipn (run_length is_space rest1) rest1) Undefined)
              = Some (MState (p2 + m) (skipn m (y :: t2))
                        (Str (firstn m (y :: t2))))).
  { cbv beta. fold n. rewrite E2. exact G. }
  rewrite (run_plus_class_longest is_space _ _ _ _ _ NZ K) in H.
  inversion H; subst st. cbn [ms_cap].
  destruct m as [|m']; [contradiction|]. cbn [firstn]. eauto.
Qed.

Lemma search_firstPublished_group (rest : jsstring) :
  forall pos m,
    ends_well rest ->
    search re_firstPublished pos rest = Some m ->
    exists y g, m_group1 m = Str (y :: g) /\ is_space y = false.
Proof.
  induction rest as [|x t IH]; intros pos m W H; cbn [search] in H.
  - destruct (run re_firstPublished _ Some) as [st|] eqn:E; [|discriminate].
    inversion H; subst m. cbn [m_group1].
    exact (run_firstPublished_group _ _ _ W E).
  - destruct (run re_firstPublished _ Some) as [st|] eqn:E.
    + inversion H; subst m. cbn [m_group1].
      exact (run_firstPublished_group _ _ _ W E).
    + apply (IH (S pos) m); [|exact H].
      intros u c Eu. apply (W (x :: u) c). rewrite Eu. reflexivity.
Qed.

Lemma trim_ends_well (s : jsstring) : ends_well (trim s).
Proof. exact (proj2 (trim_trimmed s)). Qed.

Lemma trim_cons_nonempty (y : char) (g : jsstring) :
  is_space y = false -> trim (y :: g) <> [].
Proof.
  intros Sy. unfold trim. cbn [trimStart]. rewrite Sy.
  rewrite (trimEnd_cons y g Sy). discriminate.
Qed.

(** The per-item dispatch keeps the two ISBN fields well formed. *)
Lemma editionItem_isbn_shape (label val : jsstring) (ed : EditionDetails) :
  digits_or_null 13 (isbn13 ed) /\ digits_or_null 10 (isbn10 ed) ->
  digits_or_null 13 (isbn13 (editionItem label val ed))
  /\ digits_or_null 10 (isbn10 (editionItem label val ed)).
Proof.
  intros [A B]. unfold editionItem.
  destruct (str_eqb label (lit "format")); [destruct ed; auto|].
  destruct (str_eqb label (lit "published")); [destruct ed; auto|].
  destruct (str_eqb label (lit "isbn")).
  - destruct (js_match re_isbn13 val) as [m13|] eqn:E13;
      destruct (js_match re_isbn10 val) as [m10|] eqn:E10;
      destruct ed; cbn in *; split; auto.
    all: try (apply re_isbn13_sound in E13;
              destruct E13 as (g & post & _ & L & F & -> & _); simpl; auto).
    all: try (apply re_isbn10_sound in E10;
              destruct E10 as (pre & ws & g' & post' & _ & _ & L' & F' & ->);
              simpl; auto).
  - destruct (str_eqb label (lit "asin")); [destruct ed; auto|].
    destruct (str_eqb label (lit "language")); destruct ed; auto.
Qed.

Lemma fold_editionItem_isbn_shape (items : list (jsstring * jsstring)) :
  forall ed,
    digits_or_null 13 (isbn13 ed) /\ digits_or_null 10 (isbn10 ed) ->
    digits_or_null 13
      (isbn13 (fold_left (fun ed lv => editionItem (fst lv) (snd lv) ed) items ed))
    /\ digits_or_null 10
         (isbn10 (fold_left (fun ed lv => editionItem (fst lv) (snd lv) ed) items ed)).
Proof.
  induction items as [|lv items IH]; intros ed H; [exact H|].
  simpl. apply IH, editionItem_isbn_shape, H.
Qed.

End DetailShapes.
(* ================================================================== *)
(** * Where a search finds its match *)
(* ================================================================== *)

Section Places.

Import Lookup.

(** A search that finds a match finds it at the first index from which the
    pattern matches. *)
Lemma search_found (r : regex) (rest : jsstring) :
  forall pos m,
    search r pos rest = Some m ->
    exists pre suf st,
      rest = pre ++ suf
      /\ run r (MState (pos + length pre) suf Undefined) Some = Some st
      /\ m_group1 m = ms_cap st
      /\ forall pre' suf',
           rest = pre' ++ suf' -> length pre' < length pre ->
           run r (MState (pos + length pre') suf' Undefined) Some = None.
Proof.
  induction rest as [|x t IH]; intros pos m H; cbn [search] in H.
  - destruct (run r (MState pos [] Undefined) Some) as [st|] eqn:E;
      [|discriminate].
    inversion H; subst m. exists [], [], st. simpl. rewrite Nat.add_0_r.
    repeat split; trivial. intros ? ? _ L. inversion L.
  - destruct (run r (MState pos (x :: t) Undefined) Some) as [st|] eqn:E.
    + inversion H; subst m. exists [], (x :: t), st. simpl.
      rewrite Nat.add_0_r. repeat split; trivial. intros ? ? _ L.
      inversion L.
    + apply IH in H. destruct H as (pre & suf & st & R & Run & G & L).
      exists (x :: pre), suf, st. simpl. rewrite <- Nat.add_succ_comm.
      repeat split; trivial; [now rewrite R|].
      intros [|y pre'] suf' R' Lt.
      * simpl in R'. subst suf'. simpl. rewrite Nat.add_0_r. exact E.
      * simpl in R'. inversion R' as [[X R'']]. simpl.
        rewrite <- Nat.add_succ_comm. apply L; [exact R''|].
        simpl in Lt. lia.
Qed.

(** A search that finds nothing: the pattern matches from no index. *)
Lemma search_nothing (r : regex) (rest : jsstring) :
  forall pos,
    search r pos rest = None ->
    forall pre suf,
      rest = pre ++ suf ->
      run r (MState (pos + length pre) suf Undefined) Some = None.
Proof.
  induction rest as [|x t IH]; intros pos H pre suf R; cbn [search] in H.
  - destruct pre; [|discriminate R]. simpl in R. subst suf. simpl.
    rewrite Nat.add_0_r.
    destruct (run r (MState pos [] Undefined) Some); [discriminate|].
    reflexivity.
  - destruct (run r (MState pos (x :: t) Undefined) Some) eqn:E;
      [discriminate|].
    destruct pre as [|y pre].
    + simpl in R. subst suf. simpl. rewrite Nat.add_0_r. exact E.
    + simpl in R. inversion R; subst. simpl. rewrite <- Nat.add_succ_comm.
      apply (IH _ H). reflexivity.
Qed.

Lemma same_place (a b a' b' : jsstring) :
  a ++ b = a' ++ b' -> length a = length a' -> a = a' /\ b = b'.
Proof.
  revert a'. induction a as [|x a IH]; intros [|y a'] E L;
    try discriminate L.
  - auto.
  - simpl in E. inversion E; subst. simpl in L.
    destruct (IH a' H1) as [-> ->]; [lia|auto].
Qed.

(** A literal at the head of the subject is consumed. *)
Lemma run_Lit_app (l : jsstring) :
  forall pos rest c k,
    run (Lit l) (MState pos (l ++ rest) c) k
    = k (MState (pos + length l) rest c).
Proof.
  induction l as [|x l IH]; intros pos rest c k.
  - simpl. rewrite Nat.add_0_r. reflexivity.
  - cbn [Lit run app ms_rest]. rewrite N.eqb_refl. unfold advance.
    cbn [ms_pos ms_cap]. rewrite IH. cbn [length].
    rewrite Nat.add_succ_comm. reflexivity.
Qed.

Lemma run_length_app_stop (p : char -> bool) (v rest : jsstring) :
  forallb p v = true -> run_length p rest = 0 ->
  run_length p (v ++ rest) = length v.
Proof.
  intros F Z. induction v as [|x v IH]; [exact Z|].
  simpl in F. apply andb_true_iff in F. destruct F as [Px F].
  simpl. rewrite Px, (IH F). reflexivity.
Qed.

Lemma firstn_length_app {A} (v rest : list A) :
  firstn (length v) (v ++ rest) = v.
Proof.
  rewrite firstn_app, Nat.sub_diag, firstn_all. simpl. apply app_nil_r.
Qed.

Lemma skipn_length_app {A} (v rest : list A) :
  skipn (length v) (v ++ rest) = rest.
Proof.
  rewrite skipn_app, Nat.sub_diag, skipn_all. reflexivity.
Qed.

Lemma space_is_no_digit (c : char) : is_space c = true -> is_digit c = false.
Proof.
  intros S. unfold is_digit.
  destruct (N.leb 48 c) eqn:A; [|reflexivity].
  destruct (N.leb c 57) eqn:B; [|reflexivity]. exfalso.
  apply N.leb_le in A. apply N.leb_le in B.
  unfold is_space in S. cbn [existsb] in S.
  repeat (apply orb_true_iff in S; destruct S as [S|S]);
    try discriminate S;
    try (apply N.eqb_eq in S; lia).
  apply andb_true_iff in S. destruct S as [S _]. apply N.leb_le in S. lia.
Qed.

(** ** The page count *)

Lemma run_pages_sound (suf : jsstring) (pos : nat) (st : mstate) :
  run re_pages (MState pos suf Undefined) Some = Some st ->
  exists v ws post,
    suf = v ++ ws ++ lit "pages" ++ post
    /\ v <> [] /\ forallb is_digit v = true
    /\ forallb is_space ws = true
    /\ ms_cap st = Str v.
Proof.
  intros H. apply run_sound in H.
  destruct H as (w & post & c' & R & M & K).
  cbn [ms_pos ms_rest ms_cap] in *. inversion K; subst st; clear K.
  unfold re_pages in M. apply matches_Seq_inv in M.
  destruct M as (g & w' & c1 & -> & M1 & M').
  apply matches_Group_inv in M1. destruct M1 as (G & c2 & M1).
  apply matches_Plus_Class in M1. destruct M1 as (Ng & Fg & _).
  apply matches_Seq_inv in M'. destruct M' as (ws & w3 & c3 & -> & M2 & M3).
  apply matches_Star_Class in M2. destruct M2 as [Fw ->].
  apply matches_Lit in M3. destruct M3 as [-> E3].
  exists g, ws, post. rewrite R, <- !app_assoc. cbn [ms_cap].
  repeat split; try assumption. congruence.
Qed.

Lemma run_pages_complete (pos : nat) (v ws post : jsstring) :
  v <> [] -> forallb is_digit v = true -> forallb is_space ws = true ->
  run re_pages (MState pos (v ++ ws ++ lit "pages" ++ post) Undefined) Some
  = Some (MState (pos + length v + length ws + 5) post (Str v)).
Proof.
  intros Nv Fv Fw.
  set (suf := v ++ ws ++ lit "pages" ++ post).
  assert (Zd : run_length is_digit (ws ++ lit "pages" ++ post) = 0).
  { destruct ws as [|c ws]; [reflexivity|].
    simpl in Fw. apply andb_true_iff in Fw. destruct Fw as [Sc _].
    simpl. now rewrite (space_is_no_digit c Sc). }
  assert (Ld : run_length is_digit suf = length v)
    by (apply run_length_app_stop; assumption).
  assert (Ls : run_length is_space (ws ++ lit "pages" ++ post) = length ws)
    by (apply run_length_app_stop; [assumption|reflexivity]).
  unfold re_pages. cbn [run]. unfold digit.
  apply run_plus_class_longest.
  - rewrite Ld. destruct v; [contradiction|discriminate].
  - rewrite Ld. unfold suf. rewrite !skipn_length_app.
    cbn [ms_pos ms_rest].
    replace (pos + length v - pos) with (length v) by lia.
    rewrite firstn_length_app. unfold space.
    apply star_class_longest; [simpl; lia|].
    rewrite Ls, skipn_length_app, run_Lit_app. reflexivity.
Qed.

(** ** The first publication *)

Lemma run_firstPublished_starts (suf : jsstring) (pos : nat) (st : mstate) :
  run re_firstPublished (MState pos suf Undefined) Some = Some st ->
  exists rest1,
    suf = lit "First published" ++ rest1
    /\ run_length is_space rest1 <> 0.
Proof.
  intros H. unfold re_firstPublished in H. cbn [run] in H.
  change (run (Lit (lit "First published")) (MState pos suf Undefined)
            (fun st1 => run (Plus space) st1
                          (fun st2 => run (Group (Plus (Class (fun c => negb (is_line_terminator c))))) st2 Some))
          = Some st) in H.
  apply run_Lit_inv in H. destruct H as (rest1 & E & H).
  exists rest1. split; [exact E|]. intros Z. unfold space in H.
  rewrite run_plus_class_none in H by exact Z. discriminate.
Qed.

(** In a text that does not end with white space, the pattern matches
    wherever the words are followed by white space: it takes all of the
    white space, and then all that is left of the line. *)
Lemma run_firstPublished_exact (rest1 : jsstring) (pos : nat) :
  ends_well (lit "First published" ++ rest1) ->
  run_length is_space rest1 <> 0 ->
  let dot := fun c : char => negb (is_line_terminator c) in
  let n := run_length is_space rest1 in
  let m := run_length dot (skipn n rest1) in
  (exists y t2, skipn n rest1 = y :: t2 /\ is_space y = false)
  /\ m <> 0
  /\ run re_firstPublished
       (MState pos (lit "First published" ++ rest1) Undefined) Some
     = Some (MState (pos + length (lit "First published") + n + m)
               (skipn m (skipn n rest1))
               (Str (firstn m (skipn n rest1)))).
Proof.
  intros W NZ dot n m.
  destruct (run_length_split is_space rest1) as (E1 & F1 & Z1).
  fold n in E1, F1, Z1.
  destruct (skipn n rest1) as [|y t2] eqn:E2.
  { exfalso. rewrite app_nil_r in E1.
    destruct (firstn n rest1) as [|a u] eqn:Ef using rev_ind.
    - destruct rest1; [simpl in NZ; contradiction | discriminate].
    - rewrite forallb_app in F1. apply andb_true_iff in F1.
      destruct F1 as [_ F1]. simpl in F1. rewrite andb_true_r in F1.
      assert (is_space a = false); [|congruence].
      apply (W (lit "First published" ++ u) a).
      rewrite E1, app_assoc. reflexivity. }
  simpl in Z1. destruct (is_space y) eqn:Sy; [discriminate|].
  assert (Ly : is_line_terminator y = false).
  { destruct (is_line_terminator y) eqn:L; [|reflexivity].
    apply line_terminator_is_space in L. congruence. }
  assert (Hm : m <> 0).
  { unfold m. cbn [run_length]. unfold dot at 1. rewrite Ly. discriminate. }
  split; [now exists y, t2|]. split; [exact Hm|].
  set (p2 := pos + length (lit "First published") + n) in *.
  assert (G : run (Group (Plus (Class dot))) (MState p2 (y :: t2) Undefined) Some
              = Some (MState (p2 + m) (skipn m (y :: t2)) (Str (firstn m (y :: t2))))).
  { cbn [run].
    rewrite (run_plus_class_longest dot _
               (MState (p2 + m) (skipn m (y :: t2)) (Str (firstn m (y :: t2)))));
      [reflexivity | exact Hm |].
    cbn [ms_pos ms_rest].
    match goal with |- context [?a + ?b - ?a] =>
      replace (a + b - a) with b by lia end.
    reflexivity. }
  assert (K : (fun st2 => run (Group (Plus (Class dot))) st2 Some)
                (MState (pos + length (lit "First published")
                         + run_length is_space rest1)
                   (skipn (run_length is_space rest1) rest1) Undefined)
              = Some (MState (p2 + m) (skipn m (y :: t2))
                        (Str (firstn m (y :: t2))))).
  { cbv beta. fold n. rewrite E2. exact G. }
  unfold re_firstPublished. cbn [run].
  change (run (Lit (lit "First published"))
            (MState pos (lit "First published" ++ rest1) Undefined)
            (fun st1 => run (Plus space) st1
                          (fun st2 => run (Group (Plus (Class dot))) st2 Some))
          = Some (MState (p2 + m) (skipn m (y :: t2))
                    (Str (firstn m (y :: t2))))).
  rewrite run_Lit_app. unfold space.
  exact (run_plus_class_longest is_space _ _ _ _ _ NZ K).
Qed.

End Places.


(* ================================================================== *)
(** * More on the detail record *)
(* ================================================================== *)

Section DetailProperties.

Import Lookup Views Samples EdgeSamples.

Lemma stored_count_present (word : string) (s : jsstring) (v : value) :
  stored_count (count_then word) s v -> present_or_null v.
Proof.
  intros C. destruct v as [| |x].
  - unfold stored_count in C.
    destruct (js_match (count_then word) s); [|discriminate].
    destruct C as (g & _ & C). discriminate.
  - exact I.
  - apply stored_count_before in C.
    destruct C as (pre & g & ws & post & _ & _ & _ & _ & NE & _). exact NE.
Qed.

(** For every detail document: [rating], [numberOfRatings],
    [numberOfReviews], [numberOfPages], [firstPublished], [description] and
    [coverImage] are each [null] or a string that is not empty, [isbn13] is
    [null] or thirteen digits and [isbn10] is [null] or ten digits; none is
    ever the empty string or [undefined].  The other text fields can be
    the empty string, and so can an entry of [authors], [genres] and
    [settings]: a page whose sections are there without text gives them
    all empty. *)
Theorem detail_fields_never_empty :
  (forall d : document,
     exists r,
       parseBookDetails d = Normal r
       /\ present_or_null (rating r)
       /\ present_or_null (numberOfRatings r)
       /\ present_or_null (numberOfReviews r)
       /\ present_or_null (numberOfPages r)
       /\ present_or_null (firstPublished r)
       /\ present_or_null (description r)
       /\ present_or_null (coverImage r)
       /\ digits_or_null 13 (isbn13 (editionDetails r))
       /\ digits_or_null 10 (isbn10 (editionDetails r)))
  /\ (exists r,
        parseBookDetails hollow_page = Normal r
        /\ title r = Str [] /\ series r = Str []
        /\ authors r = [[]] /\ genres r = [[]] /\ settings r = [[]]
        /\ format (editionDetails r) = Str []
        /\ published (editionDetails r) = Str []
        /\ asin (editionDetails r) = Str []
        /\ language (editionDetails r) = Str []).
Proof.
  split; [|eexists; split; [vm_compute; reflexivity|];
           repeat split; reflexivity].
  intros d.
  destruct (parseBookDetails_normal d) as (nr & nv & fp & E & C1 & C2 & C3).
  eexists; split; [exact E|].
  cbn [rating numberOfRatings numberOfReviews numberOfPages firstPublished
       description coverImage editionDetails].
  split; [apply or_null_present|].
  split; [exact (stored_count_present "ratings" _ _ C1)|].
  split; [exact (stored_count_present "reviews" _ _ C2)|].
  split.
  { unfold group1_or. destruct (js_match re_pages (pagesFormat d)) eqn:P; [|exact I].
    apply re_pages_sound in P.
    destruct P as (pre & g & ws & post & _ & Ng & _ & _ & ->). exact Ng. }
  split.
  { destruct (js_match re_firstPublished (publicationInfo d)) as [m|] eqn:P.
    - destruct C3 as (g & G & ->).
      apply search_firstPublished_group in P; [|apply trim_ends_well].
      destruct P as (y & g' & G' & Sy). rewrite G in G'. inversion G'; subst g.
      exact (trim_cons_nonempty y g' Sy).
    - subst fp. exact I. }
  split; [destruct (descriptionDiv d); [exact I | apply or_null_present]|].
  split; [apply or_null_present|].
  apply fold_editionItem_isbn_shape. split; exact I.
Qed.

(** For every detail document there is one author name per contributor
    node, in document order and with repeats kept, and every name is tidy:
    no white space at its ends, and inside only single spaces. *)
Theorem author_names_are_tidy (d : document) :
  exists r,
    parseBookDetails d = Normal r
    /\ length (authors r) = length (select d sel_contributors)
    /\ authors r
       = List.map (fun el => trim (collapse (text (wrap el))))
           (select d sel_contributors)
    /\ Forall tidy (authors r).
Proof.
  destruct (parseBookDetails_normal d) as (nr & nv & fp & E & _).
  eexists; split; [exact E|]. cbn [authors]. unfold authorNames.
  split; [apply length_map|]. split.
  - apply map_ext. intros el. rewrite replace_all_spaces. reflexivity.
  - apply Forall_forall. intros a Ha. apply in_map_iff in Ha.
    destruct Ha as (el & <- & _). apply trim_collapse_tidy.
Qed.

(** For every detail document every entry of [settings] is tidy and holds
    no parenthetical: nowhere in it a [(] with a [)] after it. *)
Theorem settings_entries_are_clean (d : document) :
  exists r,
    parseBookDetails d = Normal r
    /\ Forall (fun s => tidy s /\ no_parenthetical s) (settings r).
Proof.
  destruct (parseBookDetails_normal d) as (nr & nv & fp & E & _).
  eexists; split; [exact E|]. cbn [settings].
  destruct (settingsContainer d) as [|c0 cs]; [constructor|].
  apply Forall_forall. intros s Hs. apply (proj1 (spread_new_Set_In _ _)) in Hs.
  unfold settingPieces in Hs. apply in_map_iff in Hs.
  destruct Hs as (piece & <- & _). apply cleanSetting_clean.
Qed.

(** [/First published\s+(.+)/]: the group is what follows the words and
    white space, up to a line end at most. *)
Lemma re_firstPublished_sound (s : jsstring) (m : MatchResult) :
  js_match re_firstPublished s = Some m ->
  exists pre ws g post,
    s = pre ++ lit "First published" ++ ws ++ g ++ post
    /\ ws <> [] /\ forallb is_space ws = true
    /\ forallb (fun c => negb (is_line_terminator c)) g = true
    /\ m_group1 m = Str g.
Proof.
  intros H. apply js_match_sound in H.
  destruct H as (pre & w & post & V & M & _ & _).
  unfold re_firstPublished in M. apply matches_Seq_inv in M.
  destruct M as (w1 & w' & c1 & -> & M1 & M').
  apply matches_Lit in M1. destruct M1 as [-> ->].
  apply matches_Seq_inv in M'. destruct M' as (ws & g & c2 & -> & M2 & M3).
  apply matches_Plus_Class in M2. destruct M2 as (Nw & Fw & ->).
  apply matches_Group_inv in M3. destruct M3 as (G & c3 & M3).
  apply matches_Plus_Class in M3. destruct M3 as (_ & Fg & _).
  exists pre, ws, g, post. rewrite V, <- !app_assoc.
  repeat split; try assumption; reflexivity.
Qed.

(** For every detail document.  [numberOfPages] is read at the first place
    of the pages text where a run of digits is followed, after white space
    or none, by the word [pages]: it is that run of digits; it is [null]
    exactly when the text has no such place.  [firstPublished] is read at
    the first place of the publication text where the words
    [First published] are followed by white space: it is what follows that
    white space up to the end of the line, trimmed, and it is not empty; it
    is [null] exactly when the words are nowhere followed by white
    space. *)
Theorem pages_and_first_published (d : document) :
  exists r,
    parseBookDetails d = Normal r
    /\ match numberOfPages r with
       | Str v =>
           exists pre,
             page_count_at (pagesFormat d) pre v
             /\ forall pre' v',
                  page_count_at (pagesFormat d) pre' v' ->
                  length pre <= length pre'
                  /\ (length pre' = length pre -> v' = v)
       | Null => forall pre v, ~ page_count_at (pagesFormat d) pre v
       | Undefined => False
       end
    /\ match firstPublished r with
       | Str v =>
           exists pre g,
             first_published_at (publicationInfo d) pre g
             /\ v = trim g
             /\ v <> []
             /\ (forall g', first_published_at (publicationInfo d) pre g' ->
                            g' = g)
             /\ forall pre' c rest,
                  publicationInfo d
                  = pre' ++ lit "First published" ++ c :: rest ->
                  is_space c = true ->
                  length pre <= length pre'
       | Null =>
           forall pre c rest,
             publicationInfo d = pre ++ lit "First published" ++ c :: rest ->
             is_space c = false
       | Undefined => False
       end.
Proof.
  destruct (parseBookDetails_normal d) as (nr & nv & fp & E & _ & _ & C3).
  eexists; split; [exact E|]. cbn [numberOfPages firstPublished]. split.
  - unfold group1_or.
    destruct (js_match re_pages (pagesFormat d)) as [m|] eqn:P.
    + unfold js_match in P. apply search_found in P.
      destruct P as (pre & suf & st & R & Run & G & L).
      destruct (run_pages_sound _ _ _ Run)
        as (v & ws & post & Es & Nv & Fv & Fw & C).
      rewrite G, C. exists pre. split.
      { exists ws, post. rewrite R, Es. auto. }
      intros pre' v' (ws' & post' & E' & Nv' & Fv' & Fw').
      assert (Le : length pre <= length pre').
      { destruct (Nat.lt_ge_cases (length pre') (length pre)) as [Lt|Ge];
          [|exact Ge].
        exfalso. specialize (L pre' _ E' Lt).
        rewrite run_pages_complete in L by assumption. discriminate L. }
      split; [exact Le|]. intros Eq.
      rewrite R in E'.
      destruct (same_place _ _ _ _ E' (eq_sym Eq)) as [<- ->].
      rewrite run_pages_complete in Run by assumption.
      inversion Run; subst st. cbn [ms_cap] in C. congruence.
    + intros pre v (ws & post & E' & Nv & Fv & Fw).
      unfold js_match in P.
      pose proof (search_nothing _ _ _ P pre _ E') as X.
      rewrite run_pages_complete in X by assumption. discriminate X.
  - assert (W : ends_well (publicationInfo d)) by apply trim_ends_well.
    destruct (js_match re_firstPublished (publicationInfo d)) as [m|] eqn:P.
    + destruct C3 as (g & G & F). rewrite F.
      unfold js_match in P. apply search_found in P.
      destruct P as (pre & suf & st & R & Run & G' & L).
      destruct (run_firstPublished_starts _ _ _ Run) as (rest1 & Es & NZ).
      subst suf.
      assert (W1 : ends_well (lit "First published" ++ rest1)).
      { apply ends_well_app with (a := pre);
          [rewrite <- R; exact W|discriminate]. }
      destruct (run_firstPublished_exact rest1 (0 + length pre) W1 NZ)
        as ((y & t2 & E2 & Sy) & Hm & X).
      cbv zeta in Hm, X. rewrite X in Run. inversion Run; subst st.
      cbn [ms_cap] in G'. rewrite G in G'. inversion G'; subst g.
      clear G' Run X.
      assert (Nw : firstn (run_length is_space rest1) rest1 <> []).
      { destruct rest1 as [|c0 r0]; [simpl in NZ; contradiction|].
        simpl in NZ |- *.
        destruct (is_space c0); [discriminate|contradiction]. }
      destruct (run_length_split is_space rest1) as (S1 & F1 & _).
      destruct (run_length_split (fun c => negb (is_line_terminator c))
                  (skipn (run_length is_space rest1) rest1))
        as (S2 & F2 & Z2).
      set (n := run_length is_space rest1) in *.
      set (rest2 := skipn n rest1) in *.
      set (k := run_length (fun c => negb (is_line_terminator c)) rest2) in *.
      assert (Hg : exists t, firstn k rest2 = y :: t).
      { rewrite E2. destruct k; [contradiction|]. simpl. eauto. }
      destruct Hg as (tg & Hg).
      assert (Shape : first_published_at (publicationInfo d) pre
                        (firstn k rest2)).
      { exists (firstn n rest1), (skipn k rest2).
        split; [rewrite R; do 2 f_equal; rewrite <- S2; exact S1|].
        split; [exact Nw|].
        split; [exact F1|]. split; [rewrite Hg; exact Sy|].
        split; [exact F2|].
        destruct (skipn k rest2) as [|c post]; [exact I|].
        simpl in Z2. destruct (is_line_terminator c); [reflexivity|].
        discriminate Z2. }
      exists pre, (firstn k rest2).
      split; [exact Shape|]. split; [reflexivity|].
      split; [rewrite Hg; exact (trim_cons_nonempty y tg Sy)|]. split.
      * intros g' (ws' & post' & E' & Nw' & Fw' & Hy' & Fg' & Hp').
        rewrite R in E'. apply app_inv_head in E'. apply app_inv_head in E'.
        assert (Zs : run_length is_space (g' ++ post') = 0).
        { destruct g' as [|y' g']; [contradiction|]. simpl.
          now rewrite Hy'. }
        assert (Zd : run_length (fun c => negb (is_line_terminator c)) post'
                     = 0).
        { destruct post' as [|c post']; [reflexivity|]. simpl.
          now rewrite Hp'. }
        unfold k, rest2, n. rewrite E'.
        rewrite (run_length_app_stop is_space ws' _ Fw' Zs).
        rewrite skipn_length_app.
        rewrite (run_length_app_stop _ g' _ Fg' Zd).
        rewrite firstn_length_app. reflexivity.
      * intros pre' c rest E' Sc.
        destruct (Nat.lt_ge_cases (length pre') (length pre)) as [Lt|Ge];
          [|exact Ge].
        exfalso. specialize (L pre' _ E' Lt).
        assert (W2 : ends_well (lit "First published" ++ c :: rest)).
        { apply ends_well_app with (a := pre');
            [rewrite <- E'; exact W|discriminate]. }
        assert (NZ2 : run_length is_space (c :: rest) <> 0)
          by (simpl; rewrite Sc; discriminate).
        destruct (run_firstPublished_exact (c :: rest) (0 + length pre')
                    W2 NZ2) as (_ & _ & X).
        cbv zeta in X. rewrite X in L. discriminate L.
    + rewrite C3. intros pre c rest E'.
      destruct (is_space c) eqn:Sc; [|reflexivity]. exfalso.
      unfold js_match in P.
      pose proof (search_nothing _ _ _ P pre _ E') as X.
      assert (W2 : ends_well (lit "First published" ++ c :: rest)).
      { apply ends_well_app with (a := pre);
          [rewrite <- E'; exact W|discriminate]. }
      assert (NZ2 : run_length is_space (c :: rest) <> 0)
        by (simpl; rewrite Sc; discriminate).
      destruct (run_firstPublished_exact (c :: rest) (0 + length pre)
                  W2 NZ2) as (_ & _ & Y).
      cbv zeta in Y. rewrite Y in X. discriminate X.
Qed.

(** Both fields on a page that has the two paragraphs. *)
Lemma publication_page_example :
  exists r,
    parseBookDetails publication_page = Normal r
    /\ numberOfPages r = Str (lit "301")
    /\ firstPublished r = Str (lit "January 1, 1971").
Proof.
  destruct (parseBookDetails_normal publication_page)
    as (nr & nv & fp & E & _ & _ & C3).
  eexists; split; [exact E|]. cbn [numberOfPages firstPublished].
  split; [vm_compute; reflexivity|].
  let v := eval vm_compute in
        (js_match re_firstPublished (publicationInfo publication_page)) in
    change (js_match re_firstPublished (publicationInfo publication_page))
      with v in C3.
  cbv beta iota in C3. destruct C3 as (g & G & ->).
  cbn [m_group1] in G. inversion G; subst g. vm_compute. reflexivity.
Qed.

Lemma last_value_snoc (label : jsstring) (items : list (jsstring * jsstring))
  (lv : jsstring * jsstring) :
  last_value label (items ++ [lv])
  = if str_eqb (fst lv) label then Str (snd lv) else last_value label items.
Proof.
  unfold last_value. rewrite rev_app_distr. simpl.
  destruct (str_eqb (fst lv) label); reflexivity.
Qed.

Lemma last_isbn_group_snoc (r : regex) (items : list (jsstring * jsstring))
  (lv : jsstring * jsstring) :
  last_isbn_group r (items ++ [lv])
  = if str_eqb (fst lv) (lit "isbn")
    then match js_match r (snd lv) with
         | Some arr => m_group1 arr
         | None => last_isbn_group r items
         end
    else last_isbn_group r items.
Proof.
  unfold last_isbn_group. rewrite rev_app_distr. simpl.
  destruct (str_eqb (fst lv) (lit "isbn")); [|reflexivity].
  destruct (js_match r (snd lv)) eqn:J; simpl; rewrite ?J; reflexivity.
Qed.

(** The fold over the details list, field by field: the last item with the
    label decides. *)
Lemma fold_editionItem_last (items : list (jsstring * jsstring)) :
  let ed := fold_left (fun ed lv => editionItem (fst lv) (snd lv) ed) items
              (MkEdition Null Null Null Null Null Null) in
  format ed = last_value (lit "format") items
  /\ published ed = last_value (lit "published") items
  /\ language ed = last_value (lit "language") items
  /\ asin ed = match last_value (lit "asin") items with
               | Str v => Str (trim v)
               | other => other
               end
  /\ isbn13 ed = last_isbn_group re_isbn13 items
  /\ isbn10 ed = last_isbn_group re_isbn10 items.
Proof.
  induction items as [|lv items IH] using rev_ind; [repeat split|].
  cbv zeta in *. rewrite fold_left_app. cbn [fold_left].
  rewrite !last_value_snoc, !last_isbn_group_snoc.
  destruct IH as (F & P & L & A & I13 & I10).
  set (ed := fold_left _ items _) in *.
  unfold editionItem.
  destruct (str_eqb (fst lv) (lit "format")) eqn:E1.
  { apply str_eqb_eq in E1. rewrite E1. cbn.
    destruct ed; cbn in *; repeat split; assumption. }
  destruct (str_eqb (fst lv) (lit "published")) eqn:E2.
  { apply str_eqb_eq in E2. rewrite E2. cbn.
    destruct ed; cbn in *; repeat split; assumption. }
  destruct (str_eqb (fst lv) (lit "isbn")) eqn:E3.
  { apply str_eqb_eq in E3. rewrite E3.
    change (str_eqb (lit "isbn") (lit "language")) with false.
    change (str_eqb (lit "isbn") (lit "asin")) with false.
    cbv iota.
    destruct (js_match re_isbn13 (snd lv)), (js_match re_isbn10 (snd lv));
      destruct ed; cbn in *; repeat split; assumption. }
  destruct (str_eqb (fst lv) (lit "asin")) eqn:E4.
  { apply str_eqb_eq in E4. rewrite E4.
    change (str_eqb (lit "asin") (lit "language")) with false. cbv iota.
    destruct ed; cbn in *; repeat split; assumption. }
  destruct (str_eqb (fst lv) (lit "language")) eqn:E5;
    destruct ed; cbn in *; repeat split; assumption.
Qed.

(** For every detail document, each field of [editionDetails] is decided by
    the last item of the details list that speaks for it: [format],
    [published] and [language] are the value of the last item with that
    label, [asin] the trimmed value of the last item labelled [asin], and
    each ISBN the first group of its pattern on the last item labelled
    [isbn] on which the pattern matches; [null] without such an item.
    Labels count lower-cased, and every [.DescListItem] of the document
    counts, wherever it stands. *)
Theorem edition_details_last_item_wins (d : document) :
  exists r,
    parseBookDetails d = Normal r
    /\ format (editionDetails r) = last_value (lit "format") (editionItems d)
    /\ published (editionDetails r)
       = last_value (lit "published") (editionItems d)
    /\ language (editionDetails r)
       = last_value (lit "language") (editionItems d)
    /\ asin (editionDetails r)
       = match last_value (lit "asin") (editionItems d) with
         | Str v => Str (trim v)
         | other => other
         end
    /\ isbn13 (editionDetails r) = last_isbn_group re_isbn13 (editionItems d)
    /\ isbn10 (editionDetails r) = last_isbn_group re_isbn10 (editionItems d).
Proof.
  destruct (parseBookDetails_normal d) as (nr & nv & fp & E & _).
  eexists; split; [exact E|]. cbn [editionDetails].
  exact (fold_editionItem_last (editionItems d)).
Qed.

End DetailProperties.

(* ================================================================== *)
(** * More on the search record *)
(* ================================================================== *)

Section SearchProperties.

Import Search RowViews Samples EdgeSamples.







(** A row that carries the class [bookTitle] itself: the selector of the
    title starts at the row, so every name below the row is read into the
    title, the author's too; no link is found for the address. *)
Lemma row_with_the_title_class :
  exists book,
    parseSearchResults ScopeSamples.titled_row_page = Normal [book]
    /\ title book = Str (lit "Hell House" ++ lit "Richard Matheson")
    /\ authors book = [lit "Richard Matheson"]
    /\ detailsUrl book = Str (lit "https://www.goodreads.comundefined")
    /\ goodreadsId book = Null.
Proof. eexists. repeat split; vm_compute; reflexivity. Qed.

End SearchProperties.

(* ================================================================== *)
(** * The search URL *)
(* ================================================================== *)

Section SearchUrlProperties.

Import SearchUrl.

Lemma to_scalars_bound (n : nat) :
  forall s, length s <= n -> code_units s ->
            Forall (fun cp => (cp < 1114112)%N) (to_scalars s).
Proof.
  induction n as [|n IH]; intros s L W.
  - destruct s; [constructor | simpl in L; lia].
  - destruct s as [|c t]; [constructor|].
    inversion W as [|? ? Hc Wt]; subst. simpl in L.
    cbn [to_scalars]. destruct (is_high_surrogate c) eqn:Hh.
    + destruct t as [|lo t']; [repeat constructor; lia|].
      inversion Wt as [|? ? Hlo Wt']; subst. simpl in L.
      destruct (is_low_surrogate lo) eqn:Hl.
      * constructor; [|apply IH; [lia | exact Wt']].
        unfold is_high_surrogate in Hh. unfold is_low_surrogate in Hl.
        apply andb_true_iff in Hh. apply andb_true_iff in Hl.
        destruct Hh as [A B]. destruct Hl as [C D].
        apply N.leb_le in A, B, C, D. lia.
      * constructor; [lia | apply IH; [simpl; lia | exact Wt]].
    + destruct (is_low_surrogate c); constructor;
        try lia; apply IH; try lia; exact Wt.
Qed.

Lemma utf8_encode_bytes (cp : N) :
  (cp < 1114112)%N -> Forall (fun b => (b < 256)%N) (utf8_encode cp).
Proof.
  intros H. unfold utf8_encode.
  destruct (N.ltb cp 128) eqn:A; [apply N.ltb_lt in A; repeat constructor; lia|].
  apply N.ltb_ge in A.
  destruct (N.ltb cp 2048) eqn:B.
  { apply N.ltb_lt in B.
    assert (cp / 64 < 32)%N by (apply N.Div0.div_lt_upper_bound; lia).
    assert (cp mod 64 < 64)%N by (apply N.mod_lt; lia).
    repeat constructor; lia. }
  apply N.ltb_ge in B.
  destruct (N.ltb cp 65536) eqn:C.
  { apply N.ltb_lt in C.
    assert (cp / 4096 < 16)%N by (apply N.Div0.div_lt_upper_bound; lia).
    assert ((cp / 64) mod 64 < 64)%N by (apply N.mod_lt; lia).
    assert (cp mod 64 < 64)%N by (apply N.mod_lt; lia).
    repeat constructor; lia. }
  assert (cp / 262144 < 5)%N by (apply N.Div0.div_lt_upper_bound; lia).
  assert ((cp / 4096) mod 64 < 64)%N by (apply N.mod_lt; lia).
  assert ((cp / 64) mod 64 < 64)%N by (apply N.mod_lt; lia).
  assert (cp mod 64 < 64)%N by (apply N.mod_lt; lia).
  repeat constructor; lia.
Qed.

(** Every byte is written with safe code units only: checked byte by
    byte. *)
Lemma encode_byte_safe (b : N) :
  (b < 256)%N -> forallb url_safe (encode_byte b) = true.
Proof.
  intros H.
  assert (T : forallb (fun b => forallb url_safe (encode_byte b))
                (List.map N.of_nat (seq 0 256)) = true)
    by (vm_compute; reflexivity).
  rewrite forallb_forall in T. apply T.
  apply in_map_iff. exists (N.to_nat b). split; [apply N2Nat.id|].
  apply in_seq. lia.
Qed.

(** What the serializer writes for a name or a value holds letters,
    digits, [*-._], [+] and [%] only. *)
Lemma urlencode_safe (s : jsstring) :
  code_units s -> forallb url_safe (urlencode s) = true.
Proof.
  intros W. unfold urlencode. apply forallb_forall. intros x Hx.
  apply in_flat_map in Hx. destruct Hx as (b & Hb & Hx).
  apply in_flat_map in Hb. destruct Hb as (cp & Hcp & Hb).
  pose proof (to_scalars_bound (length s) s (le_n _) W) as B.
  rewrite Forall_forall in B. specialize (B cp Hcp).
  pose proof (utf8_encode_bytes cp B) as B'.
  rewrite Forall_forall in B'. specialize (B' b Hb).
  pose proof (encode_byte_safe b B') as S.
  rewrite forallb_forall in S. exact (S x Hx).
Qed.

Lemma occurrences_app (c : char) (a b : jsstring) :
  occurrences c (a ++ b) = occurrences c a + occurrences c b.
Proof. unfold occurrences. rewrite filter_app, length_app. reflexivity. Qed.

Lemma occurrences_safe (c : char) (s : jsstring) :
  url_safe c = false -> forallb url_safe s = true -> occurrences c s = 0.
Proof.
  intros Hc F. unfold occurrences. induction s as [|x t IH]; [reflexivity|].
  simpl in F. apply andb_true_iff in F. destruct F as [Sx F].
  simpl. destruct (N.eqb c x) eqn:E; [|exact (IH F)].
  apply N.eqb_eq in E. subst x. congruence.
Qed.

(** The search URL for a query, a search type and a field.  It is the
    base, [?], the [utf8] parameter, [q] and [search_type] with their
    values form-encoded, and then the [search[field]] parameter unless the
    field is [all].  Whatever the three strings hold, the URL has one [?],
    no [#], and as many [&] and [=] as it has parameters: no query can add
    a parameter or cut the URL short. *)
Theorem search_url_parameters (query searchType searchField : jsstring) :
  code_units query -> code_units searchType -> code_units searchField ->
  let url := buildSearchUrl query searchType searchField in
  let n := if str_eqb searchField (lit "all") then 3 else 4 in
  url = lit "https://www.goodreads.com/search?utf8=%E2%9C%93&q="
        ++ urlencode query ++ lit "&search_type=" ++ urlencode searchType
        ++ (if str_eqb searchField (lit "all") then []
            else lit "&search%5Bfield%5D=" ++ urlencode searchField)
  /\ occurrences 63%N url = 1
  /\ occurrences 35%N url = 0
  /\ occurrences 61%N url = n
  /\ occurrences 38%N url = n - 1.
Proof.
  intros Wq Wt Wf url n.
  assert (E : url = lit "https://www.goodreads.com/search?utf8=%E2%9C%93&q="
        ++ urlencode query ++ lit "&search_type=" ++ urlencode searchType
        ++ (if str_eqb searchField (lit "all") then []
            else lit "&search%5Bfield%5D=" ++ urlencode searchField)).
  { unfold url, buildSearchUrl, append.
    destruct (str_eqb searchField (lit "all")); cbn [negb app toString];
      change (urlencode (lit "utf8")) with (lit "utf8");
      change (urlencode [check_mark]) with (lit "%E2%9C%93");
      change (urlencode (lit "q")) with (lit "q");
      change (urlencode (lit "search_type")) with (lit "search_type");
      change (urlencode (lit "search[field]")) with (lit "search%5Bfield%5D");
      unfold BASE_URL; rewrite ?app_nil_r; simpl; reflexivity. }
  split; [exact E|].
  pose proof (urlencode_safe query Wq) as Sq.
  pose proof (urlencode_safe searchType Wt) as St.
  pose proof (urlencode_safe searchField Wf) as Sf.
  assert (O : forall c s, url_safe c = false -> forallb url_safe s = true ->
                          occurrences c s = 0) by exact occurrences_safe.
  rewrite E. unfold n.
  destruct (str_eqb searchField (lit "all"));
    rewrite !occurrences_app;
    rewrite ?(O 63%N (urlencode query)), ?(O 63%N (urlencode searchType)),
            ?(O 63%N (urlencode searchField)),
            ?(O 35%N (urlencode query)), ?(O 35%N (urlencode searchType)),
            ?(O 35%N (urlencode searchField)),
            ?(O 61%N (urlencode query)), ?(O 61%N (urlencode searchType)),
            ?(O 61%N (urlencode searchField)),
            ?(O 38%N (urlencode query)), ?(O 38%N (urlencode searchType)),
            ?(O 38%N (urlencode searchField)) by (reflexivity || assumption);
    repeat split; reflexivity.
Qed.

Lemma search_url_parameters_example :
  buildSearchUrl (lit "Hell House & more=1#x") (lit "books") (lit "title")
  = lit "https://www.goodreads.com/search?utf8=%E2%9C%93&q=Hell+House+%26+more%3D1%23x&search_type=books&search%5Bfield%5D=title"
  /\ occurrences 38%N
       (buildSearchUrl (lit "Hell House & more=1#x") (lit "books") (lit "title"))
     = 3.
Proof.
  assert (W : forall s, code_units (lit s)).
  { intros s. unfold code_units, lit. apply Forall_forall. intros c Hc.
    apply in_map_iff in Hc. destruct Hc as (a & <- & _).
    pose proof (N_ascii_bounded a). lia. }
  destruct (search_url_parameters (lit "Hell House & more=1#x") (lit "books")
              (lit "title") (W _) (W _) (W _)) as (E & _ & _ & _ & A).
  split; [vm_compute; reflexivity | exact A].
Defined.

End SearchUrlProperties.
(* ================================================================== *)
(** * The browser sessions *)
(* ================================================================== *)

Section Programs.

Variable needed : op -> bool.
Variable allowed : op -> Prop.

Lemma rejected_app (w : world) (tr e1 e2 : list op) :
  rejected w needed tr (e1 ++ e2)
  = rejected w needed tr e1 ++ rejected w needed (tr ++ e1) e2.
Proof.
  revert tr. induction e1 as [|o e1 IH]; intros tr; simpl.
  - now rewrite app_nil_r.
  - rewrite IH, <- !app_assoc. reflexivity.
Qed.

Lemma none_app {A} (l1 l2 : list A) : none (l1 ++ l2) = none l1 && none l2.
Proof. destruct l1; reflexivity. Qed.

Lemma accounted_ret {A} (a : A) : accounted needed allowed (ret a).
Proof. intros w tr. exists []. simpl. now rewrite app_nil_r. Qed.

Lemma accounted_lift {A} (c : completion A) :
  is_normal c = true -> accounted needed allowed (lift c).
Proof. intros H w tr. exists []. simpl. now rewrite app_nil_r. Qed.

Lemma accounted_perform (o : op) :
  needed o = true -> allowed o -> accounted needed allowed (perform o).
Proof.
  intros N Al w tr. exists [o]. unfold perform. simpl. rewrite N. simpl.
  repeat split; [now constructor|]. now destruct (w tr o).
Qed.

Lemma accounted_or_nothing (o : op) :
  needed o = false -> allowed o ->
  accounted needed allowed (or_nothing (perform o)).
Proof.
  intros N Al w tr. exists [o]. unfold or_nothing, perform. simpl.
  rewrite N. simpl. destruct (w tr o); simpl; repeat split; now constructor.
Qed.

Lemma accounted_output (o : op) :
  needed o = false -> allowed o -> accounted needed allowed (output o).
Proof.
  intros N Al w tr. exists [o]. unfold output. simpl. rewrite N. simpl.
  repeat split. now constructor.
Qed.

Lemma accounted_andThen {A B} (m : prog A) (f : A -> prog B) :
  accounted needed allowed m ->
  (forall a, accounted needed allowed (f a)) ->
  accounted needed allowed (andThen m f).
Proof.
  intros Hm Hf w tr. unfold andThen.
  destruct (Hm w tr) as (e1 & E1 & F1 & N1).
  destruct (m w tr) as [tr1 [a|]]; simpl in *; subst tr1.
  - destruct (Hf a w (tr ++ e1)) as (e2 & E2 & F2 & N2).
    exists (e1 ++ e2). rewrite E2, app_assoc. split; [reflexivity|].
    split; [now apply Forall_app|].
    rewrite N2, rejected_app, none_app, <- N1. reflexivity.
  - exists e1. auto.
Qed.

Lemma accounted_all2 {A B} (a : prog A) (b : prog B) :
  accounted needed allowed a -> accounted needed allowed b ->
  accounted needed allowed (all2 a b).
Proof.
  intros Ha Hb w tr. unfold all2.
  destruct (Ha w tr) as (e1 & E1 & F1 & N1).
  destruct (a w tr) as [tr1 ra]; simpl in *; subst tr1.
  destruct (Hb w (tr ++ e1)) as (e2 & E2 & F2 & N2).
  destruct (b w (tr ++ e1)) as [tr2 rb]; simpl in *; subst tr2.
  exists (e1 ++ e2). rewrite app_assoc. split; [reflexivity|].
  split; [now apply Forall_app|].
  rewrite rejected_app, none_app, <- N1, <- N2.
  destruct ra, rb; reflexivity.
Qed.

Lemma accounted_try_finally {A B} (body : prog A) (fin : prog B) :
  accounted needed allowed body -> accounted needed allowed fin ->
  accounted needed allowed (try_finally body fin).
Proof.
  intros Ha Hb w tr. unfold try_finally.
  destruct (Ha w tr) as (e1 & E1 & F1 & N1).
  destruct (body w tr) as [tr1 ra]; simpl in *; subst tr1.
  destruct (Hb w (tr ++ e1)) as (e2 & E2 & F2 & N2).
  destruct (fin w (tr ++ e1)) as [tr2 rb]; simpl in *; subst tr2.
  exists (e1 ++ e2). rewrite rejected_app, none_app, <- N1, <- N2.
  destruct rb; simpl; rewrite app_assoc;
    (split; [reflexivity|]); (split; [now apply Forall_app|]).
  - now rewrite andb_true_r.
  - now rewrite andb_false_r.
Qed.

End Programs.

(** What a program that ended normally went through. *)
Lemma andThen_normal {A B} (m : prog A) (f : A -> prog B) w tr tr' (b : B) :
  andThen m f w tr = (tr', Normal b) ->
  exists tr1 a, m w tr = (tr1, Normal a) /\ f a w tr1 = (tr', Normal b).
Proof.
  unfold andThen. destruct (m w tr) as [tr1 [a|]] eqn:M; intros E.
  - now exists tr1, a.
  - discriminate.
Qed.

Lemma andThen_run {A B} (m : prog A) (f : A -> prog B) w tr tr1 (a : A) :
  m w tr = (tr1, Normal a) -> andThen m f w tr = f a w tr1.
Proof. unfold andThen. now intros ->. Qed.

Lemma andThen_throw {A B} (m : prog A) (f : A -> prog B) w tr :
  snd (m w tr) = Throw -> andThen m f w tr = (fst (m w tr), Throw).
Proof. unfold andThen. destruct (m w tr) as [tr1 [a|]]; simpl; now intros. Qed.

Lemma try_finally_normal {A B} (body : prog A) (fin : prog B) w tr tr' (a : A) :
  try_finally body fin w tr = (tr', Normal a) ->
  exists tr1 b, body w tr = (tr1, Normal a) /\ fin w tr1 = (tr', Normal b).
Proof.
  unfold try_finally. destruct (body w tr) as [tr1 r] eqn:M.
  destruct (fin w tr1) as [tr2 [b|]] eqn:F; intros E; inversion E; subst.
  now exists tr1, b.
Qed.

Lemma perform_normal (o : op) w tr tr' (v : jsstring) :
  perform o w tr = (tr', Normal v) ->
  tr' = tr ++ [o] /\ w tr o = Fulfilled v.
Proof.
  unfold perform. destruct (w tr o); intros E; inversion E; auto.
Qed.

Lemma lift_normal {A} (c : completion A) w tr tr' (a : A) :
  lift c w tr = (tr', Normal a) -> tr' = tr /\ c = Normal a.
Proof. unfold lift. intros E; inversion E; auto. Qed.

(* ------------------------------------------------------------------ *)
(** ** The two scripts, operation by operation *)
(* ------------------------------------------------------------------ *)

Lemma accounted_any (needed : op -> bool) (allowed : op -> Prop)
      {A} (m : prog A) :
  accounted needed allowed m -> accounted needed any_op m.
Proof.
  intros H w tr. destruct (H w tr) as (ext & E & _ & N).
  exists ext. repeat split; trivial. now apply Forall_forall.
Qed.

Lemma none_true {A} (l : list A) : none l = true -> l = [].
Proof. now destruct l. Qed.

Lemma none_false {A} (l : list A) : none l = false -> l <> [].
Proof. now destruct l. Qed.

Lemma begins_perform (o : op) : begins_with o (perform o).
Proof. intros w tr. now exists []. Qed.

Lemma begins_output (o : op) : begins_with o (output o).
Proof. intros w tr. now exists []. Qed.

Lemma begins_andThen (needed : op -> bool) (allowed : op -> Prop)
      {A B} (o : op) (m : prog A) (f : A -> prog B) :
  begins_with o m -> (forall a, accounted needed allowed (f a)) ->
  begins_with o (andThen m f).
Proof.
  intros Hm Hf w tr. unfold andThen.
  destruct (Hm w tr) as (e1 & E1).
  destruct (m w tr) as [tr1 [a|]]; simpl in E1; subst tr1.
  - destruct (Hf a w (tr ++ o :: e1)) as (e2 & E2 & _).
    exists (e1 ++ e2). rewrite E2, <- app_assoc. reflexivity.
  - now exists e1.
Qed.

(** [initializeBrowser], run from the start. *)
Lemma initializeBrowser_run (w : world) :
  if initialised w
  then initializeBrowser w []
       = ([Launch; NewPage; SetUserAgent user_agent], Normal tt)
  else snd (initializeBrowser w []) = Throw
       /\ In (fst (initializeBrowser w []))
            [[Launch]; [Launch; NewPage];
             [Launch; NewPage; SetUserAgent user_agent]].
Proof.
  unfold initialised, initializeBrowser, andThen, perform, ret.
  generalize user_agent; intros ua.
  cbn [app].
  destruct (w [] Launch); cbn [is_rejected negb andb fst snd];
    [|split; [reflexivity|now left]].
  destruct (w [Launch] NewPage); cbn [is_rejected negb andb fst snd];
    [|split; [reflexivity|right; now left]].
  destruct (w [Launch; NewPage] (SetUserAgent ua));
    cbn [is_rejected negb andb fst snd];
    [reflexivity|split; [reflexivity|right; right; now left]].
Qed.

(** A body run between [initializeBrowser] and [browser.close()]: the
    browser is closed after it, whatever it did. *)
Lemma closed_after (needed : op -> bool) {A} (o : op) (body : prog A)
      (w : world) (tr : list op) :
  accounted needed not_close body -> begins_with o body ->
  exists rest,
    fst (try_finally body (perform Close) w tr) = tr ++ [o] ++ rest ++ [Close]
    /\ ~ In Close rest.
Proof.
  intros Ha Hb. unfold try_finally.
  destruct (Ha w tr) as (ext & E & F & _).
  destruct (Hb w tr) as (rest & E').
  destruct (body w tr) as [tr1 r]; simpl in E, E'. subst tr1.
  apply app_inv_head in E'. subst ext.
  exists rest. unfold perform.
  destruct (w (tr ++ o :: rest) Close); simpl;
    (split; [now rewrite <- app_assoc|]);
    inversion F as [|? ? _ F']; subst;
    intros I; rewrite Forall_forall in F'; now apply (F' _ I).
Qed.

Ltac account :=
  repeat first
    [ apply accounted_ret
    | apply accounted_andThen; [|intros ?]
    | apply accounted_all2
    | apply accounted_perform; [vm_compute; reflexivity|discriminate]
    | apply accounted_or_nothing; [vm_compute; reflexivity|discriminate]
    | apply accounted_output; [vm_compute; reflexivity|discriminate]
    | match goal with
      | |- accounted _ _ (match ?x with _ => _ end) => destruct x
      end ].

Section LookupSession.

Variable load : jsstring -> document.

Lemma navigateToBookPage_accounted (goodreadsId : jsstring) :
  accounted lookup_needs not_close
    (LookupScript.navigateToBookPage goodreadsId).
Proof. unfold LookupScript.navigateToBookPage. account. Qed.

Lemma handleBookDetailsExpansion_accounted :
  accounted lookup_needs not_close LookupScript.handleBookDetailsExpansion.
Proof. unfold LookupScript.handleBookDetailsExpansion. account. Qed.

Lemma parseBookDetails_is_normal (d : document) :
  is_normal (Lookup.parseBookDetails d) = true.
Proof.
  destruct (parseBookDetails_normal d) as (? & ? & ? & E & _).
  exact (f_equal is_normal E).
Qed.

Lemma lookup_body_accounted (goodreadsId : jsstring) :
  accounted lookup_needs not_close (lookup_body load goodreadsId).
Proof.
  unfold lookup_body.
  apply accounted_andThen; [apply navigateToBookPage_accounted|intros _].
  apply accounted_andThen; [apply handleBookDetailsExpansion_accounted|intros _].
  apply accounted_andThen;
    [apply accounted_perform; [reflexivity|discriminate]|intros html].
  apply accounted_lift, parseBookDetails_is_normal.
Qed.

Lemma lookup_body_begins (goodreadsId : jsstring) :
  begins_with (Goto (LookupScript.BASE_URL ++ goodreadsId)) (lookup_body load goodreadsId).
Proof.
  unfold lookup_body.
  apply begins_andThen with (needed := lookup_needs) (allowed := not_close).
  - unfold LookupScript.navigateToBookPage.
    apply begins_andThen with (needed := lookup_needs) (allowed := not_close);
      [apply begins_perform|intros; account].
  - intros _.
    apply accounted_andThen; [apply handleBookDetailsExpansion_accounted|intros _].
    apply accounted_andThen;
      [apply accounted_perform; [reflexivity|discriminate]|intros html].
    apply accounted_lift, parseBookDetails_is_normal.
Qed.

Lemma lookupBook_accounted (goodreadsId : jsstring) :
  accounted lookup_needs any_op (LookupScript.lookupBook load goodreadsId).
Proof.
  unfold LookupScript.lookupBook.
  apply accounted_andThen.
  - unfold initializeBrowser.
    repeat first
      [ apply accounted_ret
      | apply accounted_andThen; [|intros ?]
      | apply accounted_perform; [reflexivity|exact I] ].
  - intros _. apply accounted_try_finally.
    + apply accounted_any with (allowed := not_close).
      apply lookup_body_accounted.
    + apply accounted_perform; [reflexivity|exact I].
Qed.

(** A lookup that ends normally read the page and parsed what it read. *)
Lemma lookupBook_normal (goodreadsId : jsstring) (w : world)
      (tr : list op) (details : Lookup.BookDetails) :
  LookupScript.lookupBook load goodreadsId w [] = (tr, Normal details) ->
  exists tr0 html,
    tr = tr0 ++ [Content; Close]
    /\ w tr0 Content = Fulfilled html
    /\ Lookup.parseBookDetails (load html) = Normal details.
Proof.
  unfold LookupScript.lookupBook. intros E.
  apply andThen_normal in E. destruct E as (tr1 & _ & _ & E).
  apply try_finally_normal in E. destruct E as (tr2 & v & E & C).
  apply perform_normal in C. destruct C as [-> _].
  apply andThen_normal in E. destruct E as (tr3 & _ & _ & E).
  apply andThen_normal in E. destruct E as (tr4 & _ & _ & E).
  apply andThen_normal in E. destruct E as (tr5 & html & P & E).
  apply perform_normal in P. destruct P as [-> P].
  apply lift_normal in E. destruct E as [-> E].
  exists tr4, html. rewrite <- app_assoc. auto.
Qed.

End LookupSession.

Section SearchSession.

Variable load : jsstring -> document.

Lemma parseSearchResults_is_normal (d : document) :
  is_normal (Search.parseSearchResults d) = true.
Proof.
  unfold Search.parseSearchResults.
  destruct (each_row_normal (select d Search.sel_row) []) as (bs & E & _).
  exact (f_equal is_normal E).
Qed.

Lemma searchBook_accounted (query searchType searchField : jsstring) :
  accounted search_needs any_op
    (SearchScript.searchBook load query searchType searchField).
Proof.
  unfold SearchScript.searchBook, SearchScript.navigateToSearchPage,
    initializeBrowser.
  repeat first
    [ apply accounted_ret
    | apply accounted_andThen; [|intros ?]
    | apply accounted_try_finally
    | apply accounted_perform; [reflexivity|exact I]
    | apply accounted_output; [reflexivity|exact I]
    | apply accounted_lift, parseSearchResults_is_normal ].
Qed.

(** A search, run from the start: what it asks and how it ends. *)
Lemma searchBook_exact (query searchType searchField : jsstring) (w : world) :
  let steps := search_steps query searchType searchField in
  let asked := fst (until_rejected w [] steps) in
  let fulfilled := snd (until_rejected w [] steps) in
  SearchScript.searchBook load query searchType searchField w []
  = (asked ++ (if initialised w then [Close] else []),
     if fulfilled && negb (is_rejected (w asked Close))
     then Search.parseSearchResults (load (content_after w (firstn 6 steps)))
     else Throw).
Proof.
  unfold search_steps, SearchScript.searchBook,
    SearchScript.navigateToSearchPage, initializeBrowser, initialised,
    content_after.
  generalize (SearchUrl.buildSearchUrl query searchType searchField) as url.
  intros url.
  generalize (SearchScript.searching_line query searchType searchField url)
    as line.
  intros line. generalize SearchScript.sel_row as row. intros row.
  generalize user_agent as ua. intros ua.
  unfold try_finally, andThen, output, perform, lift, ret.
  cbn [until_rejected silent negb andb app fst snd firstn].
  destruct (w [] Launch); cbn [is_rejected negb andb fst snd app];
    [|reflexivity].
  destruct (w [Launch] NewPage); cbn [is_rejected negb andb fst snd app];
    [|reflexivity].
  destruct (w [Launch; NewPage] (SetUserAgent ua));
    cbn [is_rejected negb andb fst snd app]; [|reflexivity].
  destruct (w [Launch; NewPage; SetUserAgent ua; ConsoleLog line] (Goto url));
    cbn [is_rejected negb andb fst snd app];
    [|destruct (w _ Close); reflexivity].
  destruct (w [Launch; NewPage; SetUserAgent ua; ConsoleLog line; Goto url]
              (WaitForSelector row));
    cbn [is_rejected negb andb fst snd app];
    [|destruct (w _ Close); reflexivity].
  destruct (w [Launch; NewPage; SetUserAgent ua; ConsoleLog line; Goto url;
               WaitForSelector row] Content) as [html|];
    cbn [is_rejected negb andb fst snd app];
    destruct (w _ Close); reflexivity.
Qed.

(** A search, once the browser is there: it stops at the first rejection,
    and closes the browser then as it does at the end. *)
Lemma searchBook_run (query searchType searchField : jsstring) (w : world) :
  initialised w = true ->
  let steps := search_steps query searchType searchField in
  let run := SearchScript.searchBook load query searchType searchField w [] in
  (exists k, 5 <= k <= 7 /\ fst run = firstn k steps ++ [Close])
  /\ forall results, snd run = Normal results ->
       fst run = steps ++ [Close]
       /\ exists html, w (firstn 6 steps) Content = Fulfilled html
            /\ Search.parseSearchResults (load html) = Normal results.
Proof.
  intros I. pose proof (initializeBrowser_run w) as R. rewrite I in R.
  unfold search_steps, SearchScript.searchBook,
    SearchScript.navigateToSearchPage.
  generalize (SearchUrl.buildSearchUrl query searchType searchField) as url.
  intros url.
  generalize (SearchScript.searching_line query searchType searchField url)
    as line.
  intros line. generalize SearchScript.sel_row as row. intros row.
  revert R. generalize user_agent as ua. intros ua R.
  cbv zeta. rewrite (andThen_run _ _ _ _ _ _ R).
  unfold try_finally, andThen, output, perform, lift, ret. cbn [app].
  destruct (w [Launch; NewPage; SetUserAgent ua; ConsoleLog line] (Goto url));
    cbn iota beta.
  2:{ destruct (w _ Close); cbn [fst snd];
        (split; [exists 5; split; [lia|reflexivity]|]);
        intros ? E; discriminate E. }
  destruct (w [Launch; NewPage; SetUserAgent ua; ConsoleLog line; Goto url]
              (WaitForSelector row)); cbn iota beta.
  2:{ destruct (w _ Close); cbn [fst snd];
        (split; [exists 6; split; [lia|reflexivity]|]);
        intros ? E; discriminate E. }
  destruct (w [Launch; NewPage; SetUserAgent ua; ConsoleLog line; Goto url;
               WaitForSelector row] Content) as [html|] eqn:C; cbn iota beta.
  2:{ destruct (w _ Close); cbn [fst snd];
        (split; [exists 7; split; [lia|reflexivity]|]);
        intros ? E; discriminate E. }
  destruct (w _ Close); cbn [fst snd];
    (split; [exists 7; split; [lia|reflexivity]|]); intros results E;
    [|discriminate E].
  split; [reflexivity|]. exists html. cbn [firstn]. split; [exact C|exact E].
Qed.

End SearchSession.

(** A world that rejects nothing a program needs leaves nothing rejected. *)
Lemma rejected_nothing (w : world) (needed : op -> bool) :
  (forall tr o, needed o = true -> is_rejected (w tr o) = false) ->
  forall before tr, rejected w needed before tr = [].
Proof.
  intros H before tr. revert before.
  induction tr as [|o tr IH]; intros before; simpl; [reflexivity|].
  rewrite IH. destruct (needed o) eqn:N; [|reflexivity].
  now rewrite (H before o N).
Qed.

(* ================================================================== *)
(** * Properties of the two scripts as commands *)
(* ================================================================== *)

Section Commands.

Variable load : jsstring -> document.

(** A lookup launches the browser, opens a page, sets the user agent and
    goes to the address of the book: the base address followed by the
    identifier as it was given.  Once these first three steps are through,
    [browser.close()] is the last operation asked, and it is asked once,
    whatever happened in between.  When one of the three is rejected the
    lookup is rejected and nothing more is asked: no [close], also when the
    browser was launched and only the page or the user agent failed. *)
Theorem lookup_closes_the_browser (goodreadsId : jsstring) (w : world) :
  let run := LookupScript.lookupBook load goodreadsId w [] in
  if initialised w
  then exists rest,
      fst run
      = [Launch; NewPage; SetUserAgent user_agent;
         Goto (lit "https://www.goodreads.com/book/show/" ++ goodreadsId)]
          ++ rest ++ [Close]
      /\ ~ In Close rest
  else snd run = Throw
       /\ In (fst run)
            [[Launch]; [Launch; NewPage];
             [Launch; NewPage; SetUserAgent user_agent]].
Proof.
  cbv zeta. pose proof (initializeBrowser_run w) as R.
  unfold LookupScript.lookupBook.
  destruct (initialised w).
  - rewrite (andThen_run _ _ _ _ _ _ R).
    destruct (closed_after lookup_needs
                (Goto (LookupScript.BASE_URL ++ goodreadsId)) _ w
                [Launch; NewPage; SetUserAgent user_agent]
                (lookup_body_accounted load goodreadsId)
                (lookup_body_begins load goodreadsId)) as (rest & E & N).
    exists rest. split; [exact E|exact N].
  - destruct R as [T I]. rewrite (andThen_throw _ _ _ _ T).
    split; [reflexivity|exact I].
Qed.

(** The lookup command prints a record exactly when it was given an
    identifier and the world rejected none of the operations the lookup
    needs; the waits for the details button, for the edition details, for
    the navigation and for the button of the genres are not among them.
    The record printed is the one parsed from the content of the page, read
    just before the browser is closed.  Without an identifier the command
    exits with status 1 and asks nothing of the browser. *)
Theorem lookup_command_outcome (args : list jsstring) (w : world) :
  let tr := fst (LookupScript.main load args w) in
  match snd (LookupScript.main load args w) with
  | Printed details =>
      exists goodreadsId tr0 html,
        argv args 0 = Str goodreadsId
        /\ goodreadsId <> []
        /\ rejected w lookup_needs [] tr = []
        /\ tr = tr0 ++ [Content; Close]
        /\ w tr0 Content = Fulfilled html
        /\ Lookup.parseBookDetails (load html) = Normal details
  | Exit1 =>
      if truthy (argv args 0)
      then rejected w lookup_needs [] tr <> []
      else tr = []
  end.
Proof.
  cbv zeta. unfold LookupScript.main.
  destruct (argv args 0) as [| |[|c t]] eqn:A; try reflexivity.
  cbn [truthy negb to_string].
  destruct (lookupBook_accounted load (c :: t) w []) as (ext & E & _ & N).
  destruct (LookupScript.lookupBook load (c :: t) w []) as [tr [d|]] eqn:L;
    cbn [fst snd app is_normal] in *; subst tr.
  - destruct (lookupBook_normal load _ _ _ _ L) as (tr0 & html & T & C & P).
    exists (c :: t), tr0, html.
    repeat split; try assumption; [discriminate|].
    apply none_true. now rewrite <- N.
  - apply none_false. now rewrite <- N.
Qed.

(** Timeouts of the waits that are caught do not fail a lookup: given an
    identifier, in a world that rejects none of the other operations, the
    command prints the record parsed from the content of the page. *)
Theorem lookup_tolerates_timeouts (args : list jsstring) (w : world) :
  truthy (argv args 0) = true ->
  (forall tr o, lookup_needs o = true -> is_rejected (w tr o) = false) ->
  exists tr0 html details,
    LookupScript.main load args w = (tr0 ++ [Content; Close], Printed details)
    /\ w tr0 Content = Fulfilled html
    /\ Lookup.parseBookDetails (load html) = Normal details.
Proof.
  intros T H. unfold LookupScript.main. rewrite T. cbn [negb].
  destruct (lookupBook_accounted load (to_string (argv args 0)) w [])
    as (ext & E & _ & N).
  rewrite (rejected_nothing w lookup_needs H) in N.
  destruct (LookupScript.lookupBook load (to_string (argv args 0)) w [])
    as [tr [d|]] eqn:L; cbn [fst snd app is_normal none] in *; [|discriminate N].
  destruct (lookupBook_normal load _ _ _ _ L) as (tr0 & html & -> & C & P).
  now exists tr0, html, d.
Qed.

(** A search asks, in this order: launch, new page, user agent, the line
    [Searching for ...] on the standard output, the address built by
    [buildSearchUrl], the wait for a row of results, the content.  Either
    the world fulfils them all: then the browser is closed after them, and
    the search returns the rows parsed from the content unless closing is
    rejected.  Or there is a first step that the world rejects: every step
    before it was fulfilled, no step after it is asked, the search is
    rejected, and the browser is closed exactly when the rejected step
    comes after the first three. *)
Theorem search_steps_in_order (query searchType searchField : jsstring)
        (w : world) :
  let steps := search_steps query searchType searchField in
  let run := SearchScript.searchBook load query searchType searchField w [] in
  (rejected w search_needs [] steps = []
   /\ fst run = steps ++ [Close]
   /\ snd run
      = if is_rejected (w steps Close) then Throw
        else Search.parseSearchResults
               (load (content_after w (firstn 6 steps))))
  \/ (exists tr o rest,
        steps = tr ++ o :: rest
        /\ rejected w search_needs [] tr = []
        /\ search_needs o = true
        /\ is_rejected (w tr o) = true
        /\ fst run = tr ++ [o] ++ (if Nat.leb 3 (length tr) then [Close] else [])
        /\ snd run = Throw).
Proof.
  cbv zeta. rewrite searchBook_exact.
  unfold search_steps, initialised, content_after.
  generalize (SearchUrl.buildSearchUrl query searchType searchField) as url.
  intros url.
  generalize (SearchScript.searching_line query searchType searchField url)
    as line.
  intros line. generalize SearchScript.sel_row as row. intros row.
  generalize user_agent as ua. intros ua.
  cbn [until_rejected silent negb andb app fst snd firstn rejected
       search_needs].
  destruct (w [] Launch) eqn:E1; cbn [is_rejected negb andb fst snd app].
  2:{ right. exists [], Launch. eexists. rewrite E1.
      repeat split; reflexivity. }
  destruct (w [Launch] NewPage) eqn:E2;
    cbn [is_rejected negb andb fst snd app].
  2:{ right. exists [Launch], NewPage. eexists.
      cbn [rejected search_needs silent negb andb app]. rewrite E1, E2.
      repeat split; reflexivity. }
  destruct (w [Launch; NewPage] (SetUserAgent ua)) eqn:E3;
    cbn [is_rejected negb andb fst snd app].
  2:{ right. exists [Launch; NewPage], (SetUserAgent ua). eexists.
      cbn [rejected search_needs silent negb andb app]. rewrite E1, E2, E3.
      repeat split; reflexivity. }
  destruct (w [Launch; NewPage; SetUserAgent ua; ConsoleLog line] (Goto url))
    eqn:E4; cbn [is_rejected negb andb fst snd app].
  2:{ right.
      exists [Launch; NewPage; SetUserAgent ua; ConsoleLog line], (Goto url).
      eexists. cbn [rejected search_needs silent negb andb app].
      rewrite E1, E2, E3, E4. repeat split; reflexivity. }
  destruct (w [Launch; NewPage; SetUserAgent ua; ConsoleLog line; Goto url]
              (WaitForSelector row)) eqn:E5;
    cbn [is_rejected negb andb fst snd app].
  2:{ right.
      exists [Launch; NewPage; SetUserAgent ua; ConsoleLog line; Goto url],
        (WaitForSelector row).
      eexists. cbn [rejected search_needs silent negb andb app].
      rewrite E1, E2, E3, E4, E5. repeat split; reflexivity. }
  destruct (w [Launch; NewPage; SetUserAgent ua; ConsoleLog line; Goto url;
               WaitForSelector row] Content) as [html|] eqn:E6;
    cbn [is_rejected negb andb fst snd app].
  2:{ right.
      exists [Launch; NewPage; SetUserAgent ua; ConsoleLog line; Goto url;
              WaitForSelector row], Content.
      eexists. cbn [rejected search_needs silent negb andb app].
      rewrite E1, E2, E3, E4, E5, E6. repeat split; reflexivity. }
  left. repeat split; destruct (w _ Close); reflexivity.
Qed.

(** The search command prints results exactly when it was given a query
    and the world rejected nothing: every operation of a search is needed,
    so a page on which no row shows up ends the command with status 1 and
    not with an empty list.  A type or a field that is missing or empty
    stands for [books] and for [all].  Without a query the command writes
    one line on the standard error and asks nothing of the browser. *)
Theorem search_command_outcome (args : list jsstring) (w : world) :
  let searchType := or_default (argv args 1) (lit "books") in
  let searchField := or_default (argv args 2) (lit "all") in
  let tr := fst (SearchScript.main load args w) in
  match snd (SearchScript.main load args w) with
  | Printed results =>
      exists query html,
        argv args 0 = Str query
        /\ query <> []
        /\ rejected w search_needs [] tr = []
        /\ tr = search_steps query searchType searchField ++ [Close]
        /\ w (firstn 6 (search_steps query searchType searchField)) Content
           = Fulfilled html
        /\ Search.parseSearchResults (load html) = Normal results
  | Exit1 =>
      if truthy (argv args 0)
      then exists tr0,
          tr = tr0 ++ [ConsoleError (lit "Error:")]
          /\ rejected w search_needs [] tr0 <> []
      else tr = [ConsoleError (lit "Please provide a search query.")]
  end.
Proof.
  cbv zeta. unfold SearchScript.main.
  destruct (argv args 0) as [| |[|c t]] eqn:A; try reflexivity.
  cbn [truthy negb to_string].
  set (ty := or_default (argv args 1) (lit "books")).
  set (fl := or_default (argv args 2) (lit "all")).
  destruct (searchBook_accounted load (c :: t) ty fl w [])
    as (ext & E & _ & N).
  destruct (SearchScript.searchBook load (c :: t) ty fl w [])
    as [tr [results|]] eqn:L; cbn [fst snd app is_normal] in *; subst tr.
  - exists (c :: t). 
    destruct (initialised w) eqn:I.
    + destruct (searchBook_run load (c :: t) ty fl w I) as [_ R].
      rewrite L in R. destruct (R results eq_refl) as (T & html & C & P).
      cbn [fst] in T. exists html.
      repeat split; try assumption; [discriminate|].
      apply none_true. now rewrite <- N.
    + exfalso. pose proof (initializeBrowser_run w) as R. rewrite I in R.
      destruct R as [T _]. unfold SearchScript.searchBook in L.
      rewrite (andThen_throw _ _ _ _ T) in L. discriminate L.
  - exists ext. split; [reflexivity|]. apply none_false. now rewrite <- N.
Qed.

End Commands.

(** A lookup in a world where every wait that may time out does. *)
Lemma lookup_tolerates_timeouts_example :
  exists tr0 html details,
    LookupScript.main (fun _ => Samples.plain_title_page) [lit "33547"]
      (patient_world (lit "<html></html>"))
    = (tr0 ++ [Content; Close], Printed details)
    /\ patient_world (lit "<html></html>") tr0 Content = Fulfilled html
    /\ Lookup.parseBookDetails Samples.plain_title_page = Normal details.
Proof.
  apply (lookup_tolerates_timeouts (fun _ => Samples.plain_title_page)
           [lit "33547"] (patient_world (lit "<html></html>"))).
  - reflexivity.
  - intros tr o N. unfold patient_world, lookup_needs in *.
    destruct (optional o); [|reflexivity].
    rewrite andb_false_r in N. discriminate N.
Defined.

